(** * TinyCPP: lexer, parser, semantic checker and TAC generator

    A shallow embedding of the front-end of the TinyCPP compiler
    (Lexer.cpp, Parser.cpp, AST.hpp, SymbolTable.hpp, IRGenerator.cpp,
    Compiler.cpp) and the properties of its specification.

    Conventions of the embedding:
    - [std::string] is [string]; [char] is [ascii]; the end-of-buffer
      character returned by [currentChar] is [NUL];
    - the counters of the program ([line], [column], [tempVarCount]) are
      C++ [int]s that only ever grow from 0 or 1; they are [nat]s here, the
      overflow after 2^31 - 1 increments is outside the model;
    - a C++ exception ([std::runtime_error]) is the outcome [Throw msg];
    - [std::unordered_map<std::string, std::string>] is [gmap string string];
    - a [std::shared_ptr] that may be null is an [option]. *)

From Stdlib Require Import ZArith String Ascii List Lia Bool.
From Stdlib Require Import DecimalString DecimalNat DecimalFacts.
From stdpp Require Import base gmap strings.
Import ListNotations.

(** ** Outcomes: a result, a thrown [std::runtime_error], a call of
    [std::terminate] (an exception leaving a [noexcept] function), or the
    bound of a loop of the model being reached (never a behaviour of the
    program). *)

Inductive outcome (A : Type) : Type :=
| Ok (a : A)
| Throw (msg : string)
| Terminate
| OutOfFuel.

Arguments Ok {A} a.
Arguments Throw {A} msg.
Arguments Terminate {A}.
Arguments OutOfFuel {A}.

Definition bind {A B : Type} (m : outcome A) (k : A -> outcome B) : outcome B :=
  match m with
  | Ok a => k a
  | Throw msg => Throw msg
  | Terminate => Terminate
  | OutOfFuel => OutOfFuel
  end.

Declare Scope outcome_scope.
Delimit Scope outcome_scope with outcome.
Notation "x <- m ;; k" := (bind m (fun x => k))
  (at level 100, m at next level, right associativity) : outcome_scope.
Open Scope outcome_scope.

(** A fatal error: the compilation stops without a result. *)
Definition is_fatal {A : Type} (m : outcome A) : bool :=
  match m with Throw _ | Terminate => true | _ => false end.

(** ** Characters *)

Definition NUL : ascii := "000".
Definition LF : ascii := "010".
Definition dquote : ascii := "034".
Definition squote : ascii := "039".
Definition backslash : ascii := "092".

Definition char_in (lo hi : nat) (c : ascii) : bool :=
  (lo <=? nat_of_ascii c) && (nat_of_ascii c <=? hi).

(** The <cctype> predicates in the default "C" locale; a byte above 127 is
    in none of the classes. *)
Definition isspace (c : ascii) : bool := char_in 9 13 c || (nat_of_ascii c =? 32).
Definition isdigit (c : ascii) : bool := char_in 48 57 c.
Definition isalpha (c : ascii) : bool := char_in 65 90 c || char_in 97 122 c.
Definition isalnum (c : ascii) : bool := isalpha c || isdigit c.

Definition push_back (s : string) (c : ascii) : string := s +:+ String c "".

(** [std::to_string] on a non-negative [int]. *)
Definition to_string (n : nat) : string := NilEmpty.string_of_uint (Nat.to_uint n).

(** ** Token.hpp *)

Inductive TokenType : Set :=
| Identifier
| Keyword
| NumberLiteral
| StringLiteral
| CharacterLiteral
| Operator
| Separator
| Comment
| EndOfFile
| Unknown
| BooleanLiteral
| NullLiteral
| FloatingPointLiteral.

#[global] Instance TokenType_eq_dec : EqDecision TokenType.
Proof. solve_decision. Defined.

Record Token : Set := mkToken {
  tok_type : TokenType;
  tok_value : string;
  tok_line : nat;
  tok_column : nat
}.

Definition tokenTypeToString (t : TokenType) : string :=
  match t with
  | Identifier => "Identifier"
  | Keyword => "Keyword"
  | NumberLiteral => "NumberLiteral"
  | StringLiteral => "StringLiteral"
  | CharacterLiteral => "CharacterLiteral"
  | Operator => "Operator"
  | Separator => "Separator"
  | Comment => "Comment"
  | EndOfFile => "EndOfFile"
  | Unknown => "Unknown"
  | BooleanLiteral => "BooleanLiteral"
  | NullLiteral => "NullLiteral"
  | FloatingPointLiteral => "FloatingPointLiteral"
  end.

Definition Token_toString (t : Token) : string :=
  "Token(" +:+ tokenTypeToString (tok_type t) +:+ ", " +:+ String dquote "" +:+
  tok_value t +:+ String dquote "" +:+ ", Line: " +:+ to_string (tok_line t) +:+
  ", Column: " +:+ to_string (tok_column t) +:+ ")".

(** ** Lexer.cpp

    The scanner state [(source, index, line, column)] is kept as the part of
    [source] from [index] on, with [line] and [column]: [index <
    source.size()] is "the rest is not empty". *)

Record Lexer : Set := mkLexer {
  source : string;
  line : nat;
  column : nat
}.

Definition setSource (src : string) : Lexer := mkLexer src 1 1.

Definition hd_char (s : string) : ascii :=
  match s with String c _ => c | EmptyString => NUL end.

Definition currentChar (lx : Lexer) : ascii := hd_char (source lx).

Definition peekChar (lx : Lexer) : ascii :=
  match source lx with String _ rest => hd_char rest | EmptyString => NUL end.

(** Line and column after consuming the character [c]. *)
Definition nextLine (c : ascii) (ln : nat) : nat := if (c =? LF)%char then S ln else ln.
Definition nextColumn (c : ascii) (col : nat) : nat := if (c =? LF)%char then 1 else S col.

Definition advance (lx : Lexer) : Lexer :=
  match source lx with
  | String c rest => mkLexer rest (nextLine c (line lx)) (nextColumn c (column lx))
  | EmptyString => lx
  end.

(** [while (std::isspace(currentChar())) advance();] *)
Fixpoint skipWhitespace_from (s : string) (ln col : nat) : Lexer :=
  match s with
  | String c rest =>
      if isspace c then skipWhitespace_from rest (nextLine c ln) (nextColumn c col)
      else mkLexer s ln col
  | EmptyString => mkLexer s ln col
  end.

Definition skipWhitespace (lx : Lexer) : Lexer :=
  skipWhitespace_from (source lx) (line lx) (column lx).

(** [while (currentChar() != '\n' && currentChar() != '\0') advance();] *)
Fixpoint lineComment_from (s : string) (ln col : nat) : Lexer :=
  match s with
  | String c rest =>
      if negb (c =? LF)%char && negb (c =? NUL)%char
      then lineComment_from rest (nextLine c ln) (nextColumn c col)
      else mkLexer s ln col
  | EmptyString => mkLexer s ln col
  end.

(** [while (!(currentChar() == '*' && peekChar() == '/')) { advance(); if
    (currentChar() == '\0') break; }] *)
Fixpoint blockComment_from (s : string) (ln col : nat) : Lexer :=
  match s with
  | String c rest =>
      if (c =? "*")%char && (hd_char rest =? "/")%char then mkLexer s ln col
      else if (hd_char rest =? NUL)%char
           then mkLexer rest (nextLine c ln) (nextColumn c col)
           else blockComment_from rest (nextLine c ln) (nextColumn c col)
  | EmptyString => mkLexer s ln col
  end.

Definition skipComment (lx : Lexer) : Lexer :=
  if (currentChar lx =? "/")%char && (peekChar lx =? "/")%char then
    advance (lineComment_from (source lx) (line lx) (column lx))
  else if (currentChar lx =? "/")%char && (peekChar lx =? "*")%char then
    let lx1 := advance (advance lx) in
    advance (advance (blockComment_from (source lx1) (line lx1) (column lx1)))
  else lx.

(** The loop of [Lexer::number]: digits and at most one '.'. *)
Fixpoint number_from (s : string) (ln col : nat) (value : string)
    (isFloatingPoint : bool) : string * bool * Lexer :=
  match s with
  | String c rest =>
      if isdigit c || (c =? ".")%char then
        if (c =? ".")%char && isFloatingPoint
        then (value, isFloatingPoint, mkLexer s ln col)
        else number_from rest (nextLine c ln) (nextColumn c col) (push_back value c)
               (isFloatingPoint || (c =? ".")%char)
      else (value, isFloatingPoint, mkLexer s ln col)
  | EmptyString => (value, isFloatingPoint, mkLexer s ln col)
  end.

Definition number (lx : Lexer) : Token * Lexer :=
  let tokenColumn := column lx in
  let '(value, isFloatingPoint, lx') :=
    number_from (source lx) (line lx) (column lx) "" false in
  if isFloatingPoint
  then (mkToken FloatingPointLiteral value (line lx') tokenColumn, lx')
  else (mkToken NumberLiteral value (line lx') tokenColumn, lx').

(** The loop of [Lexer::identifierOrKeyword]: after each accepted character
    a following "::" is absorbed into the lexeme. *)
Fixpoint identifier_from (s : string) (ln col : nat) (value : string) : string * Lexer :=
  match s with
  | String c rest =>
      if isalnum c || (c =? "_")%char then
        let ln1 := nextLine c ln in
        let col1 := nextColumn c col in
        match rest with
        | String c1 (String c2 rest2) =>
            if (c1 =? ":")%char && (c2 =? ":")%char
            then identifier_from rest2 (nextLine c2 (nextLine c1 ln1))
                   (nextColumn c2 (nextColumn c1 col1)) (push_back value c +:+ "::")
            else identifier_from rest ln1 col1 (push_back value c)
        | _ => identifier_from rest ln1 col1 (push_back value c)
        end
      else (value, mkLexer s ln col)
  | EmptyString => (value, mkLexer s ln col)
  end.

Definition keywords (value : string) : option TokenType :=
  if (value =? "true")%string then Some BooleanLiteral
  else if (value =? "false")%string then Some BooleanLiteral
  else if (value =? "nullptr")%string then Some NullLiteral
  else if (value =? "int")%string then Some Keyword
  else if (value =? "return")%string then Some Keyword
  else if (value =? "if")%string then Some Keyword
  else if (value =? "else")%string then Some Keyword
  else if (value =? "for")%string then Some Keyword
  else if (value =? "while")%string then Some Keyword
  else if (value =? "float")%string then Some Keyword
  else if (value =? "char")%string then Some Keyword
  else if (value =? "std::string")%string then Some Keyword
  else None.

Definition identifierOrKeyword (lx : Lexer) : Token * Lexer :=
  let tokenColumn := column lx in
  let '(value, lx') := identifier_from (source lx) (line lx) (column lx) "" in
  match keywords value with
  | Some ty => (mkToken ty value (line lx') tokenColumn, lx')
  | None => (mkToken Identifier value (line lx') tokenColumn, lx')
  end.

(** The loop of [Lexer::stringLiteral]: up to the closing quote or the end
    of the buffer; a backslash followed by a quote is kept as two
    characters. *)
Fixpoint string_from (s : string) (ln col : nat) (value : string) : string * Lexer :=
  match s with
  | String c rest =>
      if negb (c =? dquote)%char && negb (c =? NUL)%char then
        let ln1 := nextLine c ln in
        let col1 := nextColumn c col in
        match rest with
        | String c2 rest2 =>
            if (c =? backslash)%char && (c2 =? dquote)%char
            then string_from rest2 (nextLine c2 ln1) (nextColumn c2 col1)
                   (push_back (push_back value c) c2)
            else string_from rest ln1 col1 (push_back value c)
        | EmptyString => string_from rest ln1 col1 (push_back value c)
        end
      else (value, mkLexer s ln col)
  | EmptyString => (value, mkLexer s ln col)
  end.

Definition stringLiteral (lx : Lexer) : Token * Lexer :=
  let tokenColumn := column lx in
  let value := push_back "" (currentChar lx) in
  let lx1 := advance lx in
  let '(value, lx2) := string_from (source lx1) (line lx1) (column lx1) value in
  let value := push_back value (currentChar lx2) in
  let lx3 := advance lx2 in
  (mkToken StringLiteral value (line lx3) tokenColumn, lx3).

Definition characterLiteral (lx : Lexer) : outcome (Token * Lexer) :=
  let tokenColumn := column lx in
  let value := push_back "" (currentChar lx) in
  let lx1 := advance lx in
  let '(value, lx2) :=
    if (currentChar lx1 =? backslash)%char && (peekChar lx1 =? squote)%char
    then (push_back value (currentChar lx1), advance lx1)
    else (push_back value (currentChar lx1), lx1) in
  let lx3 := advance lx2 in
  if negb (currentChar lx3 =? squote)%char
  then Throw "Expected closing single quote for character literal"
  else
    let value := push_back value (currentChar lx3) in
    let lx4 := advance lx3 in
    Ok (mkToken CharacterLiteral value (line lx4) tokenColumn, lx4).

Definition isOperator (c : ascii) : bool :=
  existsb (fun o => (c =? o)%char) (list_ascii_of_string "+-*/%=<>!&|^~").

Definition multiCharOperators (value : string) : option ascii :=
  if (value =? "=")%string then Some "="%char
  else if (value =? "!")%string then Some "="%char
  else if (value =? "<")%string then Some "="%char
  else if (value =? ">")%string then Some "="%char
  else None.

(** The loop of [Lexer::operatorToken]. *)
Fixpoint operator_from (s : string) (ln col : nat) (value : string) : string * Lexer :=
  match s with
  | String c rest =>
      if isOperator c then
        let value1 := push_back value c in
        let ln1 := nextLine c ln in
        let col1 := nextColumn c col in
        match multiCharOperators value1, rest with
        | Some second, String c2 rest2 =>
            if (c2 =? second)%char
            then (push_back value1 c2, mkLexer rest2 (nextLine c2 ln1) (nextColumn c2 col1))
            else operator_from rest ln1 col1 value1
        | _, _ => operator_from rest ln1 col1 value1
        end
      else (value, mkLexer s ln col)
  | EmptyString => (value, mkLexer s ln col)
  end.

Definition operatorToken (lx : Lexer) : Token * Lexer :=
  let tokenColumn := column lx in
  let '(value, lx') := operator_from (source lx) (line lx) (column lx) "" in
  (mkToken Operator value (line lx') tokenColumn, lx').

Definition isSeparator (c : ascii) : bool :=
  (c =? ";")%char || (c =? ",")%char || (c =? "(")%char ||
  (c =? ")")%char || (c =? "{")%char || (c =? "}")%char.

Definition nextToken (lx0 : Lexer) : outcome (Token * Lexer) :=
  let lx := skipComment (skipWhitespace lx0) in
  let c := currentChar lx in
  if isdigit c then Ok (number lx)
  else if isalpha c || (c =? "_")%char then Ok (identifierOrKeyword lx)
  else if (c =? dquote)%char then Ok (stringLiteral lx)
  else if (c =? squote)%char then characterLiteral lx
  else if isOperator c then Ok (operatorToken lx)
  else if isSeparator c then
    Ok (mkToken Separator (String c "") (line lx) (column lx), advance lx)
  else if (c =? NUL)%char then Ok (mkToken EndOfFile "" (line lx) (column lx), lx)
  else
    let lx' := advance lx in
    Ok (mkToken Unknown (String c "") (line lx') (column lx'), lx').

(** The loop of [Lexer::tokenize]. Every iteration that does not stop
    consumes a character, so [String.length source] iterations are enough
    (lemma [tokenize_terminates]). *)
Fixpoint tokenize_loop (fuel : nat) (lx : Lexer) (tokens : list Token)
    : outcome (list Token) :=
  match source lx with
  | EmptyString => Ok tokens
  | String _ _ =>
      match fuel with
      | O => OutOfFuel
      | S fuel' =>
          bind (nextToken lx) (fun '(token, lx') =>
          let tokens' :=
            if bool_decide (tok_type token <> Unknown) then tokens ++ [token] else tokens in
          if bool_decide (tok_type token = EndOfFile) then Ok tokens'
          else tokenize_loop fuel' lx' tokens')
      end
  end.

Definition tokenize (lx : Lexer) : outcome (list Token) :=
  tokenize_loop (String.length (source lx)) lx [].


(** ** SymbolTable.hpp *)

Abbreviation SymbolTable := (gmap string string).

Definition declareVariable (name type : string) (symbols : SymbolTable)
    : outcome SymbolTable :=
  match symbols !! name with
  | Some _ => Throw ("Variable '" +:+ name +:+ "' is already declared")
  | None => Ok (<[name := type]> symbols)
  end.

Definition lookupVariable (name : string) (symbols : SymbolTable) : outcome string :=
  match symbols !! name with
  | None => Throw ("Variable '" +:+ name +:+ "' is not declared")
  | Some type => Ok type
  end.

(** ** AST.hpp *)

Inductive BinaryOp : Set :=
| Add
| Subtract
| Multiply
| Divide
| Modulo
| LessThan
| GreaterThan
| Equal
| NotEqual
| And
| Or.

#[global] Instance BinaryOp_eq_dec : EqDecision BinaryOp.
Proof. solve_decision. Defined.

Definition opToString (op : BinaryOp) : string :=
  match op with
  | Add => "+"
  | Subtract => "-"
  | Multiply => "*"
  | Divide => "/"
  | Modulo => "%"
  | LessThan => "<"
  | GreaterThan => ">"
  | Equal => "=="
  | NotEqual => "!="
  | And => "&&"
  | Or => "||"
  end.

Inductive Expression : Set :=
| BinaryExpression (left_ : Expression) (op : BinaryOp) (right_ : Expression)
| LiteralExpression (value : string)
| VariableExpression (name : string).

#[warnings="-register-all"] Inductive Statement : Set :=
| BlockStatement (statements : list Statement)
| VariableDeclaration (type name : string) (initializer : option Expression)
| AssignmentStatement (name : string) (value : Expression)
| ReturnStatement (value : option Expression)
| FunctionDeclaration (returnType name : string) (parameters : list string)
    (body : list Statement)
| IfStatement (condition : Expression) (thenBranch : Statement)
    (elseBranch : option Statement).

(** [std::string::back]; [NUL] stands for the undefined result on an empty
    string, which no lexeme is. *)
Fixpoint back (s : string) : ascii :=
  match s with
  | EmptyString => NUL
  | String c EmptyString => c
  | String _ rest => back rest
  end.

Definition front (s : string) : ascii := hd_char s.

Fixpoint contains (c : ascii) (s : string) : bool :=
  match s with
  | EmptyString => false
  | String d rest => (d =? c)%char || contains c rest
  end.

Definition isCharacterLiteral (value : string) : bool :=
  (String.length value =? 3) && (front value =? squote)%char && (back value =? squote)%char.

Definition isStringLiteral (value : string) : bool :=
  (front value =? dquote)%char && (back value =? dquote)%char.

Definition isFloatingPointLiteral (value : string) : bool := contains "." value.

Definition Literal_getType (value : string) : string :=
  if isCharacterLiteral value then "char"
  else if isStringLiteral value then "std::string"
  else if isFloatingPointLiteral value then "float"
  else "int".

Fixpoint getType (e : Expression) (symTable : SymbolTable) : outcome string :=
  match e with
  | BinaryExpression left_ op right_ =>
      leftType <- getType left_ symTable ;;
      rightType <- getType right_ symTable ;;
      if bool_decide (op = And) || bool_decide (op = Or) then Ok "bool"
      else if ((leftType =? "int")%string && (rightType =? "float")%string) ||
              ((leftType =? "float")%string && (rightType =? "int")%string)
      then Ok "float"
      else if negb (leftType =? rightType)%string
      then Throw ("Type mismatch in binary expression: " +:+ leftType +:+ " " +:+
                  opToString op +:+ " " +:+ rightType)
      else Ok leftType
  | LiteralExpression value => Ok (Literal_getType value)
  | VariableExpression name => lookupVariable name symTable
  end.

(** [Expression::checkSemantics]: the symbol table is passed by reference
    but no expression changes it. *)
Fixpoint checkExpression (e : Expression) (symTable : SymbolTable) : outcome unit :=
  match e with
  | BinaryExpression left_ _ right_ =>
      _ <- checkExpression left_ symTable ;;
      checkExpression right_ symTable
  | LiteralExpression _ => Ok tt
  | VariableExpression name =>
      _ <- lookupVariable name symTable ;;
      Ok tt
  end.

Fixpoint Expression_toString (e : Expression) : string :=
  match e with
  | BinaryExpression left_ op right_ =>
      "(" +:+ Expression_toString left_ +:+ " " +:+ opToString op +:+ " " +:+
      Expression_toString right_ +:+ ")"
  | LiteralExpression value => value
  | VariableExpression name => name
  end.

(** An exception that reaches the boundary of a [noexcept] function calls
    [std::terminate]. *)
Definition noexcept {A : Type} (m : outcome A) : outcome A :=
  match m with
  | Throw _ => Terminate
  | _ => m
  end.

(** The promotion step shared by [VariableDeclaration::checkSemantics] and
    [AssignmentStatement::checkSemantics]: the type of the value after
    [if (valueType == "int" && type == "float") valueType = "float"; else if
    (valueType == "float" && type == "int") throw ...]. *)
Definition promote (valueType type : string) : outcome string :=
  if (valueType =? "int")%string && (type =? "float")%string then Ok "float"
  else if (valueType =? "float")%string && (type =? "int")%string
  then Throw "Cannot assign float to int without explicit cast"
  else Ok valueType.

Fixpoint checkSemantics (stmt : Statement) (symTable : SymbolTable)
    : outcome SymbolTable :=
  match stmt with
  | BlockStatement statements =>
      (fix each (l : list Statement) (symTable : SymbolTable) : outcome SymbolTable :=
         match l with
         | [] => Ok symTable
         | s :: l' => symTable' <- checkSemantics s symTable ;; each l' symTable'
         end) statements symTable
  | VariableDeclaration type name initializer =>
      symTable <- declareVariable name type symTable ;;
      match initializer with
      | Some init =>
          _ <- checkExpression init symTable ;;
          initType <- getType init symTable ;;
          initType <- promote initType type ;;
          if negb (initType =? type)%string then
            Throw ("Type mismatch: Cannot initialize variable of type '" +:+ type +:+
                   "' with value of type '" +:+ initType +:+ "'")
          else Ok symTable
      | None => Ok symTable
      end
  | AssignmentStatement name value =>
      _ <- checkExpression value symTable ;;
      varType <- lookupVariable name symTable ;;
      valueType <- getType value symTable ;;
      valueType <- promote valueType varType ;;
      if negb (varType =? valueType)%string then
        Throw ("Type mismatch in assignment: Cannot assign " +:+ valueType +:+
               " to " +:+ varType)
      else Ok symTable
  | ReturnStatement value =>
      match value with
      | Some v => _ <- checkExpression v symTable ;; Ok symTable
      | None => Ok symTable
      end
  | FunctionDeclaration _ _ _ body =>
      noexcept
        ((fix each (l : list Statement) (symTable : SymbolTable) : outcome SymbolTable :=
            match l with
            | [] => Ok symTable
            | s :: l' => symTable' <- checkSemantics s symTable ;; each l' symTable'
            end) body symTable)
  | IfStatement condition thenBranch elseBranch =>
      _ <- checkExpression condition symTable ;;
      conditionType <- getType condition symTable ;;
      if negb (conditionType =? "int")%string && negb (conditionType =? "bool")%string then
        Throw "Condition in 'if' statement must be of type int or bool"
      else
        symTable <- checkSemantics thenBranch symTable ;;
        match elseBranch with
        | Some e => checkSemantics e symTable
        | None => Ok symTable
        end
  end.

(** ** Parser.cpp

    The cursor [(tokens, index)] is kept as the tokens from [index] on.
    The statement parser is recursive through blocks, [if] branches and
    function bodies: [parseStatement] takes the depth of recursion it may
    use, and the functions it calls take the recursive call as [self]. *)

Definition currentToken (ts : list Token) : Token :=
  match ts with
  | t :: _ => t
  | [] => mkToken EndOfFile "" 0 0
  end.

Definition advanceToken (ts : list Token) : list Token :=
  match ts with
  | _ :: rest => rest
  | [] => []
  end.

Definition match_ (ty : TokenType) (ts : list Token) : bool :=
  bool_decide (tok_type (currentToken ts) = ty).

(** [match(TokenType::Separator) && currentToken().getValue() == v] *)
Definition atSeparator (v : string) (ts : list Token) : bool :=
  match_ Separator ts && (tok_value (currentToken ts) =? v)%string.

(** [match(TokenType::Operator) && currentToken().getValue() == v] *)
Definition atOperator (v : string) (ts : list Token) : bool :=
  match_ Operator ts && (tok_value (currentToken ts) =? v)%string.

Definition getPrecedence (token : Token) : Z :=
  let value := tok_value token in
  if bool_decide (tok_type token = Operator) then
    if (value =? "+")%string || (value =? "-")%string then 10%Z
    else if (value =? "*")%string || (value =? "/")%string || (value =? "%")%string then 20%Z
    else if (value =? "==")%string || (value =? "!=")%string then 5%Z
    else if (value =? "&&")%string || (value =? "||")%string then 3%Z
    else if (value =? "<")%string || (value =? ">")%string ||
            (value =? "<=")%string || (value =? ">=")%string then 15%Z
    else (-1)%Z
  else (-1)%Z.

Definition tokenToBinaryOp (token : Token) : outcome BinaryOp :=
  let value := tok_value token in
  if (value =? "+")%string then Ok Add
  else if (value =? "-")%string then Ok Subtract
  else if (value =? "*")%string then Ok Multiply
  else if (value =? "/")%string then Ok Divide
  else if (value =? "%")%string then Ok Modulo
  else if (value =? "<")%string then Ok LessThan
  else if (value =? ">")%string then Ok GreaterThan
  else if (value =? "==")%string then Ok Equal
  else if (value =? "!=")%string then Ok NotEqual
  else if (value =? "&&")%string then Ok And
  else if (value =? "||")%string then Ok Or
  else Throw ("Unknown binary operator: " +:+ Token_toString token).

Definition parsePrimaryExpression (ts : list Token) : outcome (Expression * list Token) :=
  if match_ NumberLiteral ts || match_ FloatingPointLiteral ts ||
     match_ StringLiteral ts || match_ CharacterLiteral ts then
    Ok (LiteralExpression (tok_value (currentToken ts)), advanceToken ts)
  else if match_ Identifier ts then
    Ok (VariableExpression (tok_value (currentToken ts)), advanceToken ts)
  else Throw ("Unexpected token in expression: " +:+ Token_toString (currentToken ts)).

(** The [while (true)] loop of [parseBinaryExpression]; [n] bounds the
    number of iterations, each of which consumes the operator token. *)
Fixpoint binaryLoop (self : Z -> list Token -> outcome (Expression * list Token))
    (n : nat) (precedence : Z) (left_ : Expression) (ts : list Token)
    : outcome (Expression * list Token) :=
  let tokenPrecedence := getPrecedence (currentToken ts) in
  if (tokenPrecedence <? precedence)%Z then Ok (left_, ts)
  else
    match n with
    | O => OutOfFuel
    | S n' =>
        op <- tokenToBinaryOp (currentToken ts) ;;
        bind (self (tokenPrecedence + 1)%Z (advanceToken ts)) (fun '(right_, ts') =>
        binaryLoop self n' precedence (BinaryExpression left_ op right_) ts')
    end.

Fixpoint parseBinaryExpression (fuel : nat) (precedence : Z) (ts : list Token)
    : outcome (Expression * list Token) :=
  match fuel with
  | O => OutOfFuel
  | S fuel' =>
      bind (parsePrimaryExpression ts) (fun '(left_, ts') =>
      binaryLoop (parseBinaryExpression fuel') (S (length ts')) precedence left_ ts')
  end.

(** [parseExpression] calls [parseBinaryExpression] with the default
    precedence 0; a nested call is made only after two tokens have been
    consumed, so the number of tokens bounds the depth (lemma
    [parseExpression_terminates]). *)
Definition parseExpression (ts : list Token) : outcome (Expression * list Token) :=
  parseBinaryExpression (S (length ts)) 0 ts.

Definition parseReturn (ts : list Token) : outcome (Statement * list Token) :=
  let ts := advanceToken ts in
  bind (parseExpression ts) (fun '(value, ts) =>
  if negb (atSeparator ";" ts) then Throw "Expected ';' after return statement"
  else Ok (ReturnStatement (Some value), advanceToken ts)).

Definition parseAssignmentOrFunctionCall (ts : list Token)
    : outcome (Statement * list Token) :=
  let name := tok_value (currentToken ts) in
  let ts := advanceToken ts in
  if atOperator "=" ts then
    let ts := advanceToken ts in
    bind (parseExpression ts) (fun '(value, ts) =>
    if negb (atSeparator ";" ts) then Throw "Expected ';' after assignment"
    else Ok (AssignmentStatement name value, advanceToken ts))
  else if atSeparator "(" ts then Throw "Function calls not yet supported."
  else Throw ("Unexpected token after identifier: " +:+ Token_toString (currentToken ts)).

(** The loops [while (!match(Separator) || value != "}")
    statements.push_back(parseStatement());] of [parseBlockStatement] and
    [parseFunctionDeclaration]; [n] bounds the number of iterations, each of
    which consumes a token. *)
Fixpoint statementsLoop (self : list Token -> outcome (Statement * list Token))
    (n : nat) (ts : list Token) (statements : list Statement)
    : outcome (list Statement * list Token) :=
  if negb (atSeparator "}" ts) then
    match n with
    | O => OutOfFuel
    | S n' =>
        bind (self ts) (fun '(stmt, ts') =>
        statementsLoop self n' ts' (statements ++ [stmt]))
    end
  else Ok (statements, ts).

Definition parseBlockStatement (self : list Token -> outcome (Statement * list Token))
    (ts : list Token) : outcome (Statement * list Token) :=
  let ts := advanceToken ts in
  bind (statementsLoop self (S (length ts)) ts []) (fun '(statements, ts) =>
  Ok (BlockStatement statements, advanceToken ts)).

Definition parseIfStatement (self : list Token -> outcome (Statement * list Token))
    (ts : list Token) : outcome (Statement * list Token) :=
  let ts := advanceToken ts in
  if negb (atSeparator "(" ts) then Throw "Expected '(' after 'if'"
  else
    let ts := advanceToken ts in
    bind (parseExpression ts) (fun '(condition, ts) =>
    if negb (atSeparator ")" ts) then Throw "Expected ')' after 'if' condition"
    else
      let ts := advanceToken ts in
      bind (self ts) (fun '(thenBranch, ts) =>
      if match_ Keyword ts && (tok_value (currentToken ts) =? "else")%string then
        let ts := advanceToken ts in
        bind (self ts) (fun '(elseBranch, ts) =>
        Ok (IfStatement condition thenBranch (Some elseBranch), ts))
      else Ok (IfStatement condition thenBranch None, ts))).

(** The parameter loop of [parseFunctionDeclaration]: every iteration
    consumes the two tokens of a parameter, so it is a structural recursion
    on the tokens. *)
Fixpoint parametersLoop (ts : list Token) (parameters : list string)
    : outcome (list string * list Token) :=
  if negb (atSeparator ")" ts) then
    if match_ Identifier ts then
      let paramType := tok_value (currentToken ts) in
      match ts with
      | [] => (* not reached: the current token is an Identifier *)
          Throw "Expected parameter name after type in function declaration"
      | _ :: ts1 => (* advance() *)
          if negb (match_ Identifier ts1)
          then Throw "Expected parameter name after type in function declaration"
          else
            let paramName := tok_value (currentToken ts1) in
            let parameters := parameters ++ [paramType +:+ " " +:+ paramName] in
            match ts1 with
            | [] => (* not reached *) Ok (parameters, [])
            | _ :: ts2 => (* advance() *)
                if atSeparator "," ts2 then
                  match ts2 with
                  | [] => (* not reached *) Ok (parameters, ts2)
                  | _ :: ts3 => (* advance() *) parametersLoop ts3 parameters
                  end
                else (* break *) Ok (parameters, ts2)
            end
      end
    else Throw "Expected parameter type in function declaration"
  else Ok (parameters, ts).

Definition parseFunctionDeclaration (self : list Token -> outcome (Statement * list Token))
    (returnType name : string) (ts : list Token) : outcome (Statement * list Token) :=
  let ts := advanceToken ts in
  bind (parametersLoop ts []) (fun '(parameters, ts) =>
  if negb (atSeparator ")" ts) then Throw "Expected ')' after function parameters"
  else
    let ts := advanceToken ts in
    if negb (atSeparator "{" ts) then Throw "Expected '{' at the beginning of function body"
    else
      let ts := advanceToken ts in
      bind (statementsLoop self (S (length ts)) ts []) (fun '(body, ts) =>
      Ok (FunctionDeclaration returnType name parameters body, advanceToken ts))).

Definition parseVariableDeclaration (self : list Token -> outcome (Statement * list Token))
    (ts : list Token) : outcome (Statement * list Token) :=
  let type := tok_value (currentToken ts) in
  let ts := advanceToken ts in
  if negb (match_ Identifier ts)
  then Throw "Expected identifier after type in variable declaration"
  else
    let name := tok_value (currentToken ts) in
    let ts := advanceToken ts in
    if atSeparator "(" ts then parseFunctionDeclaration self type name ts
    else
      bind (if atOperator "=" ts
            then bind (parseExpression (advanceToken ts))
                   (fun '(e, ts) => Ok (Some e, ts))
            else Ok (None, ts)) (fun '(initializer, ts) =>
      if negb (atSeparator ";" ts) then Throw "Expected ';' after variable declaration"
      else Ok (VariableDeclaration type name initializer, advanceToken ts)).

(** In [parseStatement] the reference [value] is bound to the lexeme of the
    token returned by [currentToken()]; it is read here as that lexeme. *)
Fixpoint parseStatement (fuel : nat) (ts : list Token) : outcome (Statement * list Token) :=
  match fuel with
  | O => OutOfFuel
  | S fuel' =>
      let value := tok_value (currentToken ts) in
      if atSeparator "{" ts then parseBlockStatement (parseStatement fuel') ts
      else if match_ Keyword ts then
        if (value =? "int")%string || (value =? "float")%string ||
           (value =? "char")%string || (value =? "std::string")%string
        then parseVariableDeclaration (parseStatement fuel') ts
        else if (value =? "return")%string then parseReturn ts
        else if (value =? "if")%string then parseIfStatement (parseStatement fuel') ts
        else Throw ("Unexpected token: " +:+ Token_toString (currentToken ts))
      else if match_ Identifier ts then parseAssignmentOrFunctionCall ts
      else Throw ("Unexpected token: " +:+ Token_toString (currentToken ts))
  end.

(** [Parser::parse]: one call of [parseStatement], then the semantic
    analysis of its result with a fresh symbol table. A nested statement is
    parsed only after a token has been consumed, so the number of tokens
    bounds the depth (lemma [parse_terminates]). *)
Definition parse (tokens : list Token) : outcome Statement :=
  bind (parseStatement (S (length tokens)) tokens) (fun '(ast, _) =>
  _ <- checkSemantics ast ∅ ;;
  Ok ast).

(** ** IRGenerator.cpp *)

Record TACInstruction : Set := mkTAC {
  op : string;
  arg1 : string;
  arg2 : string;
  result : string
}.

Record IRGenerator : Set := mkIRGenerator {
  code : list TACInstruction;
  tempVarCount : nat
}.

Definition emplace_back (i : TACInstruction) (g : IRGenerator) : IRGenerator :=
  mkIRGenerator (code g ++ [i]) (tempVarCount g).

Definition getNewTempVar (g : IRGenerator) : string * IRGenerator :=
  ("t" +:+ to_string (tempVarCount g), mkIRGenerator (code g) (S (tempVarCount g))).

(** [generateExpression(expr, resultVar)]: the value left in [resultVar] and
    the generator after the call. *)
Fixpoint generateExpression (expr : Expression) (g : IRGenerator) : string * IRGenerator :=
  match expr with
  | BinaryExpression left_ o right_ =>
      let '(leftVar, g) := generateExpression left_ g in
      let '(rightVar, g) := generateExpression right_ g in
      let '(resultVar, g) := getNewTempVar g in
      (resultVar, emplace_back (mkTAC (opToString o) leftVar rightVar resultVar) g)
  | LiteralExpression value => (value, g)
  | VariableExpression name => (name, g)
  end.

(** [code.back().op == "RET"], false on an empty list. *)
Definition endsWithRET (g : IRGenerator) : bool :=
  match last (code g) with
  | Some i => (op i =? "RET")%string
  | None => false
  end.

Fixpoint generateStatement (stmt : Statement) (g : IRGenerator) : IRGenerator :=
  match stmt with
  | VariableDeclaration _ name initializer =>
      match initializer with
      | Some init =>
          let '(tempVar, g) := generateExpression init g in
          emplace_back (mkTAC "MOV" tempVar "" name) g
      | None => g
      end
  | AssignmentStatement name value =>
      let '(tempVar, g) := generateExpression value g in
      emplace_back (mkTAC "MOV" tempVar "" name) g
  | IfStatement condition thenBranch elseBranch =>
      let '(conditionVar, g) := generateExpression condition g in
      let g := emplace_back (mkTAC "IF_FALSE" conditionVar "" "L1") g in
      let g := generateStatement thenBranch g in
      let g := emplace_back (mkTAC "GOTO" "" "" "L2") g in
      let g := emplace_back (mkTAC "LABEL" "" "" "L1") g in
      let g := match elseBranch with
               | Some e => generateStatement e g
               | None => g
               end in
      emplace_back (mkTAC "LABEL" "" "" "L2") g
  | BlockStatement statements =>
      (fix each (l : list Statement) (g : IRGenerator) : IRGenerator :=
         match l with
         | [] => g
         | innerStmt :: l' => each l' (generateStatement innerStmt g)
         end) statements g
  | ReturnStatement value =>
      match value with
      | Some returnValue =>
          let '(tempVar, g) := generateExpression returnValue g in
          emplace_back (mkTAC "RET" tempVar "" "") g
      | None => emplace_back (mkTAC "RET" "" "" "") g
      end
  | FunctionDeclaration _ name _ body =>
      let g := emplace_back (mkTAC "LABEL" "" "" name) g in
      (fix each (l : list Statement) (g : IRGenerator) : IRGenerator :=
         match l with
         | [] => if endsWithRET g then g else emplace_back (mkTAC "RET" "" "" "") g
         | bodyStmt :: l' =>
             let g := generateStatement bodyStmt g in
             if endsWithRET g then g else each l' g
         end) body g
  end.

(** The loop over the body in the [FunctionDeclaration] case, which stops
    after a statement that leaves a "RET" last, and the closing "RET". *)
Fixpoint generateBody (body : list Statement) (g : IRGenerator) : IRGenerator :=
  match body with
  | [] => if endsWithRET g then g else emplace_back (mkTAC "RET" "" "" "") g
  | bodyStmt :: l' =>
      let g := generateStatement bodyStmt g in
      if endsWithRET g then g else generateBody l' g
  end.

(** The loop of [generateCode] and of the [BlockStatement] case. *)
Definition generateStatements (l : list Statement) (g : IRGenerator) : IRGenerator :=
  fold_left (fun g stmt => generateStatement stmt g) l g.

Definition generateCode (ast : Statement) (g : IRGenerator) : IRGenerator :=
  match ast with
  | BlockStatement statements => generateStatements statements g
  | _ => generateStatement ast g
  end.

(** ** Compiler.cpp *)

Definition newIRGenerator : IRGenerator := mkIRGenerator [] 0.

(** [Compiler::compile] between [readFile] and [writeAssemblyToFile], with
    the lexer, parser and generator that [main] creates. *)
Definition compile (sourceCode : string) : outcome (list TACInstruction) :=
  tokens <- tokenize (setSource sourceCode) ;;
  ast <- parse tokens ;;
  Ok (code (generateCode ast newIRGenerator)).

(** A line of the output file. *)
Definition writeLine (i : TACInstruction) : string :=
  op i +:+ " " +:+ arg1 i +:+ " " +:+ arg2 i +:+ " " +:+ result i.

(** ** Vocabulary of the specification *)

(** The primitive type names, which [parseStatement] accepts as the start
    of a declaration. *)
Definition primitiveTypeNames : list string := ["int"; "float"; "char"; "std::string"].

(** The name that [getNewTempVar] returns when the counter is [n]. *)
Definition tempName (n : nat) : string := "t" +:+ to_string n.

Definition isTempName (s : string) : Prop := exists n, s = tempName n.

Definition notTemp (s : string) : Prop := ~ isTempName s.

(** A binary-operator instruction: its [op] is an operator symbol. *)
Definition isBinaryInstruction (i : TACInstruction) : Prop :=
  exists o : BinaryOp, op i = opToString o.

Definition uses (i : TACInstruction) (name : string) : Prop :=
  arg1 i = name \/ arg2 i = name.

Definition occurs (i : TACInstruction) (name : string) : Prop :=
  result i = name \/ uses i name.

(** Invariant 1 of the specification, for a list of instructions: a
    temporary name that occurs in the list is the result of exactly one
    instruction, a binary-operator one, placed before every use. *)
Definition singleAssignment (c : list TACInstruction) : Prop :=
  forall n k i, c !! k = Some i -> occurs i (tempName n) ->
    exists d def, c !! d = Some def /\ result def = tempName n /\
      isBinaryInstruction def /\
      (forall d' i', c !! d' = Some i' -> result i' = tempName n -> d' = d) /\
      (forall u i', c !! u = Some i' -> uses i' (tempName n) -> d < u).

(** The strings that an expression or a statement hands to the generator:
    literal spellings and the names of variables and functions. *)
Fixpoint expressionNames (e : Expression) : list string :=
  match e with
  | BinaryExpression left_ _ right_ => expressionNames left_ ++ expressionNames right_
  | LiteralExpression value => [value]
  | VariableExpression name => [name]
  end.

Definition optionNames {A : Type} (names : A -> list string) (o : option A) : list string :=
  match o with
  | Some a => names a
  | None => []
  end.

Fixpoint statementNames (stmt : Statement) : list string :=
  match stmt with
  | BlockStatement statements => flat_map statementNames statements
  | VariableDeclaration _ name initializer => name :: optionNames expressionNames initializer
  | AssignmentStatement name value => name :: expressionNames value
  | ReturnStatement value => optionNames expressionNames value
  | FunctionDeclaration _ name _ body => name :: flat_map statementNames body
  | IfStatement condition thenBranch elseBranch =>
      expressionNames condition ++ statementNames thenBranch ++
      match elseBranch with
      | Some e => statementNames e
      | None => []
      end
  end.

(** The variables an expression refers to. *)
Fixpoint variables (e : Expression) : list string :=
  match e with
  | BinaryExpression left_ _ right_ => variables left_ ++ variables right_
  | LiteralExpression _ => []
  | VariableExpression name => [name]
  end.

(** The instructions appended by lowering an expression or a statement. *)
Definition emittedBy (before after : IRGenerator) : list TACInstruction :=
  drop (length (code before)) (code after).

(** The assignability rule of the specification for a value of type
    [valueType] and a target of declared type [targetType], as a relation
    with the outcome [r] of the check: [int] into [float] is accepted,
    [float] into [int] is rejected with its own message, any other pair is
    accepted exactly when the types are equal and is a type mismatch
    otherwise. *)
Definition assignmentRule (valueType targetType : string) (symTable : SymbolTable)
    (r : outcome SymbolTable) : Prop :=
  if decide (valueType = "int" /\ targetType = "float") then r = Ok symTable
  else if decide (valueType = "float" /\ targetType = "int")
  then r = Throw "Cannot assign float to int without explicit cast"
  else if decide (valueType = targetType) then r = Ok symTable
  else exists detail, r = Throw ("Type mismatch" +:+ detail).

(** The typing rule of the specification for a binary expression whose
    operands have the types [L] and [R]. *)
Definition binaryTypeRule (o : BinaryOp) (L R : string) : outcome string :=
  if decide (o = And \/ o = Or) then Ok "bool"
  else if decide ((L = "int" /\ R = "float") \/ (L = "float" /\ R = "int")) then Ok "float"
  else if decide (L = R) then Ok L
  else Throw ("Type mismatch in binary expression: " +:+ L +:+ " " +:+ opToString o +:+
              " " +:+ R).

(** Reading a list of instructions from left to right with the counter of
    temporaries at [c]: an instruction either defines the next temporary,
    [tempName c], and is a binary-operator instruction, or has a result that
    is no temporary name; its arguments only name temporaries defined
    before. The counter is [c'] at the end of the list. *)
Definition usesBelow (c : nat) (i : TACInstruction) : Prop :=
  forall n, uses i (tempName n) -> n < c.

Inductive tempsFrom : nat -> list TACInstruction -> nat -> Prop :=
| tempsFrom_nil (c : nat) : tempsFrom c [] c
| tempsFrom_def (c : nat) (i : TACInstruction) (l : list TACInstruction) (c' : nat) :
    isBinaryInstruction i -> result i = tempName c -> usesBelow c i ->
    tempsFrom (S c) l c' -> tempsFrom c (i :: l) c'
| tempsFrom_other (c : nat) (i : TACInstruction) (l : list TACInstruction) (c' : nat) :
    ~ isTempName (result i) -> usesBelow c i ->
    tempsFrom c l c' -> tempsFrom c (i :: l) c'.

(** The tokens that the parameter loop of [parseFunctionDeclaration] can
    pass over, and the string it stores for a parameter. *)
Definition isComma (t : Token) : Prop := tok_type t = Separator /\ tok_value t = ",".
Definition isClosingParen (t : Token) : Prop := tok_type t = Separator /\ tok_value t = ")".
Definition isParameterToken (t : Token) : Prop := tok_type t = Identifier \/ isComma t.
Definition parameterString (p : Token * Token) : string :=
  tok_value p.1 +:+ " " +:+ tok_value p.2.

(** The number of characters the lexer has not consumed yet. *)
Definition remaining (lx : Lexer) : nat := String.length (source lx).

(** The call returned or threw: the bound of the model was not reached. *)
Definition returns {A : Type} (m : outcome A) : Prop := m <> OutOfFuel.

(** A parsing function returned or threw, and on success it left fewer
    tokens ([consumes]) or no more tokens ([keeps]) than it was given. *)
Definition consumes {A : Type} (ts : list Token) (m : outcome (A * list Token)) : Prop :=
  match m with
  | Ok (_, rest) => length rest < length ts
  | Throw _ => True
  | _ => False
  end.

Definition keeps {A : Type} (ts : list Token) (m : outcome (A * list Token)) : Prop :=
  match m with
  | Ok (_, rest) => length rest <= length ts
  | Throw _ => True
  | _ => False
  end.

(** The number of binary operators of an expression. *)
Fixpoint operators (e : Expression) : nat :=
  match e with
  | BinaryExpression left_ _ right_ => operators left_ + operators right_ + 1
  | LiteralExpression _ => 0
  | VariableExpression _ => 0
  end.

(** Counting the instructions of a kind in a list. *)
Definition countIf (f : TACInstruction -> bool) (l : list TACInstruction) : nat :=
  length (List.filter f l).

Definition hasOp (o : string) (i : TACInstruction) : bool := (op i =? o)%string.

Definition isLabel (name : string) (i : TACInstruction) : bool :=
  (op i =? "LABEL")%string && (result i =? name)%string.

(** The names of the functions declared in a statement. *)
Fixpoint functionNames (stmt : Statement) : list string :=
  match stmt with
  | BlockStatement statements => flat_map functionNames statements
  | FunctionDeclaration _ name _ body => name :: flat_map functionNames body
  | IfStatement _ thenBranch elseBranch =>
      functionNames thenBranch ++
      match elseBranch with
      | Some e => functionNames e
      | None => []
      end
  | _ => []
  end.

(** The instructions that lowering an [if] appends come in fours: in a list
    [l], as many "GOTO" as "IF_FALSE" instructions and, when [labels] holds,
    as many labels "L1" and as many labels "L2". *)
Definition balanced (labels : Prop) (l : list TACInstruction) : Prop :=
  countIf (hasOp "IF_FALSE") l = countIf (hasOp "GOTO") l /\
  (labels -> countIf (isLabel "L1") l = countIf (hasOp "IF_FALSE") l /\
             countIf (isLabel "L2") l = countIf (hasOp "IF_FALSE") l).

Definition notIfLabel (name : string) : Prop := name <> "L1" /\ name <> "L2".

(** The tokens that [parsePrimaryExpression] accepts, and the expression
    it makes of one. *)
Definition isOperand (t : Token) : bool :=
  bool_decide (tok_type t = NumberLiteral) || bool_decide (tok_type t = FloatingPointLiteral) ||
  bool_decide (tok_type t = StringLiteral) || bool_decide (tok_type t = CharacterLiteral) ||
  bool_decide (tok_type t = Identifier).

Definition operandExpression (t : Token) : Expression :=
  if bool_decide (tok_type t = Identifier) then VariableExpression (tok_value t)
  else LiteralExpression (tok_value t).

(** The shape of the statements that the parser builds: a declared type
    and a return type are primitive type names, and a [return] has a
    value. *)
Fixpoint parserShape (stmt : Statement) : Prop :=
  match stmt with
  | BlockStatement statements =>
      (fix all (l : list Statement) : Prop :=
         match l with
         | [] => True
         | s :: l' => parserShape s /\ all l'
         end) statements
  | VariableDeclaration type _ _ => In type primitiveTypeNames
  | AssignmentStatement _ _ => True
  | ReturnStatement value => value <> None
  | FunctionDeclaration returnType _ _ body =>
      In returnType primitiveTypeNames /\
      (fix all (l : list Statement) : Prop :=
         match l with
         | [] => True
         | s :: l' => parserShape s /\ all l'
         end) body
  | IfStatement _ thenBranch elseBranch =>
      parserShape thenBranch /\
      match elseBranch with
      | Some e => parserShape e
      | None => True
      end
  end.

(** * Properties *)

(** ** Induction on statements, through the lists and options they hold *)

Section Statement_induction.
Variable P : Statement -> Prop.
Hypothesis HBlock : forall l, Forall P l -> P (BlockStatement l).
Hypothesis HDecl : forall t n i, P (VariableDeclaration t n i).
Hypothesis HAssign : forall n v, P (AssignmentStatement n v).
Hypothesis HReturn : forall v, P (ReturnStatement v).
Hypothesis HFun : forall rt n ps body, Forall P body -> P (FunctionDeclaration rt n ps body).
Hypothesis HIf : forall c t e,
  P t -> match e with Some s => P s | None => True end -> P (IfStatement c t e).

Lemma Statement_induction : forall s, P s.
Proof.
  fix IH 1. intros [l | t n i | n v | v | rt n ps body | c t e].
  - apply HBlock. induction l as [| s l IHl]; constructor; [apply IH | exact IHl].
  - apply HDecl.
  - apply HAssign.
  - apply HReturn.
  - apply HFun. induction body as [| s l IHl]; constructor; [apply IH | exact IHl].
  - apply HIf; [apply IH |]. destruct e as [s |]; [apply IH | exact I].
Qed.
End Statement_induction.

(** ** Strings *)

Lemma eqb_decide (a b : string) : (a =? b)%string = bool_decide (a = b).
Proof.
  destruct (String.eqb_spec a b) as [H | H].
  - symmetry. apply bool_decide_eq_true. exact H.
  - symmetry. apply bool_decide_eq_false. exact H.
Qed.

Ltac string_cases :=
  repeat match goal with
  | |- context [(?a =? ?b)%string] => destruct (String.eqb_spec a b); subst
  | H : context [(?a =? ?b)%string] |- _ => destruct (String.eqb_spec a b); subst
  end.

(** ** Typing of binary expressions *)

Lemma getType_binary (l r : Expression) (o : BinaryOp) (st : SymbolTable) (L R : string) :
  getType l st = Ok L -> getType r st = Ok R ->
  getType (BinaryExpression l o r) st = binaryTypeRule o L R.
Proof.
  intros HL HR. cbn [getType]. rewrite HL, HR. cbn [bind].
  unfold binaryTypeRule.
  destruct (decide (o = And \/ o = Or)) as [Hlog | Hlog].
  - destruct Hlog; subst; reflexivity.
  - assert (bool_decide (o = And) || bool_decide (o = Or) = false) as ->.
    { apply orb_false_iff. split; apply bool_decide_eq_false; tauto. }
    rewrite !eqb_decide.
    repeat case_decide; repeat case_bool_decide; cbn; try reflexivity;
      try congruence; try tauto.
Qed.

(** C3. A binary expression whose operands have the types [L] and [R] has
    the type [bool] when the operator is [And] or [Or], whatever [L] and [R]
    are; otherwise [float] when one of [L], [R] is [int] and the other
    [float]; otherwise [L] when [L = R]; otherwise computing its type throws
    "Type mismatch in binary expression". In particular [a < b] with two
    [int] operands has the type [int]. *)
Theorem C3_binary_expression_type (l r : Expression) (o : BinaryOp)
    (st : SymbolTable) (L R : string) :
  getType l st = Ok L -> getType r st = Ok R ->
  getType (BinaryExpression l o r) st = binaryTypeRule o L R /\
  (L = "int" -> R = "int" -> getType (BinaryExpression l LessThan r) st = Ok "int").
Proof.
  intros HL HR. split.
  - apply getType_binary; assumption.
  - intros -> ->. rewrite (getType_binary l r LessThan st "int" "int" HL HR). reflexivity.
Qed.

Lemma C3_witness :
  let st : SymbolTable := <["a" := "int"]> (<["b" := "int"]> ∅) in
  getType (VariableExpression "a") st = Ok "int" /\
  getType (VariableExpression "b") st = Ok "int" /\
  getType (BinaryExpression (VariableExpression "a") LessThan (VariableExpression "b")) st =
    Ok "int".
Proof.
  intros st. split; [reflexivity |]. split; [reflexivity |].
  refine (proj2 (C3_binary_expression_type (VariableExpression "a") (VariableExpression "b")
                   LessThan st "int" "int" _ _) _ _); reflexivity.
Defined.

(** ** Semantic checks of declarations, assignments and returns *)

Lemma assignmentRule_decl (initType type : string) (st : SymbolTable) :
  assignmentRule initType type st
    (initType' <- promote initType type ;;
     if negb (initType' =? type)%string
     then Throw ("Type mismatch: Cannot initialize variable of type '" +:+ type +:+
                 "' with value of type '" +:+ initType' +:+ "'")
     else Ok st).
Proof.
  unfold assignmentRule, promote. rewrite !eqb_decide.
  repeat case_decide; repeat case_bool_decide; cbn [andb bind negb];
    rewrite ?eqb_decide; repeat case_bool_decide; cbn [negb];
    try reflexivity; try congruence; try tauto.
  all: eexists; reflexivity.
Qed.

Lemma assignmentRule_assign (valueType varType : string) (st : SymbolTable) :
  assignmentRule valueType varType st
    (valueType' <- promote valueType varType ;;
     if negb (varType =? valueType')%string
     then Throw ("Type mismatch in assignment: Cannot assign " +:+ valueType' +:+
                 " to " +:+ varType)
     else Ok st).
Proof.
  unfold assignmentRule, promote. rewrite !eqb_decide.
  repeat case_decide; repeat case_bool_decide; cbn [andb bind negb];
    rewrite ?eqb_decide; repeat case_bool_decide; cbn [negb];
    try reflexivity; try congruence; try tauto.
  all: eexists; reflexivity.
Qed.

(** C6. A declaration with an initializer whose type is [valueType], and an
    assignment of a value of type [valueType] to a variable declared with
    [targetType], are checked by the same rule: [int] into [float] is
    accepted, [float] into [int] throws "Cannot assign float to int without
    explicit cast", and any other pair is accepted exactly when the two
    types are equal and throws a type-mismatch error otherwise. *)
Theorem C6_assignability (targetType name : string) (e : Expression)
    (st : SymbolTable) (valueType : string) :
  (forall st', declareVariable name targetType st = Ok st' ->
     checkExpression e st' = Ok tt -> getType e st' = Ok valueType ->
     assignmentRule valueType targetType st'
       (checkSemantics (VariableDeclaration targetType name (Some e)) st)) /\
  (checkExpression e st = Ok tt -> lookupVariable name st = Ok targetType ->
     getType e st = Ok valueType ->
     assignmentRule valueType targetType st
       (checkSemantics (AssignmentStatement name e) st)).
Proof.
  split.
  - intros st' Hdecl Hcheck Htype. cbn [checkSemantics].
    rewrite Hdecl. cbn [bind]. rewrite Hcheck. cbn [bind]. rewrite Htype. cbn [bind].
    apply assignmentRule_decl.
  - intros Hcheck Hlookup Htype. cbn [checkSemantics].
    rewrite Hcheck. cbn [bind]. rewrite Hlookup. cbn [bind]. rewrite Htype. cbn [bind].
    apply assignmentRule_assign.
Qed.

Lemma C6_witness :
  let st : SymbolTable := <["y" := "float"]> ∅ in
  declareVariable "y" "float" ∅ = Ok st /\
  checkExpression (LiteralExpression "3") st = Ok tt /\
  getType (LiteralExpression "3") st = Ok "int" /\
  lookupVariable "y" st = Ok "float" /\
  checkSemantics (VariableDeclaration "float" "y" (Some (LiteralExpression "3"))) ∅ = Ok st /\
  checkSemantics (AssignmentStatement "y" (LiteralExpression "3")) st = Ok st.
Proof.
  intros st. do 4 (split; [reflexivity |]). split.
  - exact (proj1 (C6_assignability "float" "y" (LiteralExpression "3") ∅ "int") st
             eq_refl eq_refl eq_refl).
  - exact (proj2 (C6_assignability "float" "y" (LiteralExpression "3") st "int")
             eq_refl eq_refl eq_refl).
Defined.

Lemma checkExpression_declared (e : Expression) (st : SymbolTable) :
  checkExpression e st = Ok tt <-> Forall (fun x => is_Some (st !! x)) (variables e).
Proof.
  induction e as [l IHl o r IHr | v | x]; cbn [checkExpression variables].
  - rewrite Forall_app, <- IHl, <- IHr.
    destruct (checkExpression l st) as [[] | | |]; cbn [bind];
      intuition (try discriminate; auto).
  - split; [intros _; constructor | reflexivity].
  - unfold lookupVariable. split.
    + destruct (st !! x) as [t |] eqn:Hx; cbn [bind]; [| discriminate].
      intros _. constructor; [exists t; exact Hx | constructor].
    + intros H. inversion H as [| ? ? [t Ht] ?]; subst.
      rewrite Ht. reflexivity.
Qed.

Lemma checkExpression_undeclared (e : Expression) (st : SymbolTable) :
  checkExpression e st <> Ok tt ->
  exists x, In x (variables e) /\ st !! x = None /\
    checkExpression e st = Throw ("Variable '" +:+ x +:+ "' is not declared").
Proof.
  induction e as [l IHl o r IHr | v | x]; cbn [checkExpression variables]; intros H.
  - destruct (checkExpression l st) as [[] | msg | |] eqn:Hl; cbn [bind] in *.
    + destruct (IHr H) as (x & Hin & Hx & Hr).
      exists x. rewrite in_app_iff. auto.
    + destruct IHl as (x & Hin & Hx & Hr); [discriminate |].
      exists x. rewrite in_app_iff. auto.
    + destruct IHl as (x & Hin & Hx & Hr); [discriminate | discriminate].
    + destruct IHl as (x & Hin & Hx & Hr); [discriminate | discriminate].
  - congruence.
  - unfold lookupVariable in *. destruct (st !! x) eqn:Hx; cbn [bind] in *; [congruence |].
    exists x. split; [left; reflexivity |]. split; [exact Hx | reflexivity].
Qed.

(** C10. The semantic check of a [return] only requires the variables of
    its value to be declared: it succeeds, with the symbol table unchanged,
    exactly when they all are, and otherwise throws "Variable ... is not
    declared"; the type of the value is not computed. So [return x + c;]
    with [x] an [int] and [c] a [char] passes the analysis and is lowered,
    while the same expression as an initializer is a fatal type mismatch. *)
Theorem C10_return_not_typed :
  (forall (e : Expression) (st : SymbolTable),
     checkSemantics (ReturnStatement (Some e)) st = Ok st <->
     Forall (fun x => is_Some (st !! x)) (variables e)) /\
  (forall (e : Expression) (st : SymbolTable),
     checkSemantics (ReturnStatement (Some e)) st <> Ok st ->
     exists x, In x (variables e) /\ st !! x = None /\
       checkSemantics (ReturnStatement (Some e)) st =
         Throw ("Variable '" +:+ x +:+ "' is not declared")) /\
  (let st : SymbolTable := <["c" := "char"]> (<["x" := "int"]> ∅) in
   let e := BinaryExpression (VariableExpression "x") Add (VariableExpression "c") in
   getType e st = Throw "Type mismatch in binary expression: int + char" /\
   checkSemantics (ReturnStatement (Some e)) st = Ok st) /\
  compile "{ int x; char c; return x + c; }" =
    Ok [mkTAC "+" "x" "c" "t0"; mkTAC "RET" "t0" "" ""] /\
  compile "{ int x; char c; int y = x + c; }" =
    Throw "Type mismatch in binary expression: int + char".
Proof.
  split; [| split; [| split; [| split]]].
  - intros e st. rewrite <- checkExpression_declared. cbn [checkSemantics].
    destruct (checkExpression e st) as [[] | | |]; cbn [bind];
      intuition (try discriminate; auto).
  - intros e st H. cbn [checkSemantics] in *.
    destruct (checkExpression_undeclared e st) as (x & Hin & Hx & Hr).
    + intros Hok. rewrite Hok in H. cbn [bind] in H. congruence.
    + exists x. rewrite Hr. cbn [bind]. auto.
  - split; vm_compute; reflexivity.
  - vm_compute. reflexivity.
  - vm_compute. reflexivity.
Qed.

Lemma C10_witness :
  let st : SymbolTable := <["c" := "char"]> (<["x" := "int"]> ∅) in
  let e := BinaryExpression (VariableExpression "x") Add (VariableExpression "c") in
  Forall (fun x => is_Some (st !! x)) (variables e) /\
  checkSemantics (ReturnStatement (Some e)) st = Ok st.
Proof.
  intros st e.
  assert (Forall (fun x => is_Some (st !! x)) (variables e)) as Hdecl.
  { repeat constructor; eexists; reflexivity. }
  split; [exact Hdecl |].
  exact (proj2 (proj1 C10_return_not_typed e st) Hdecl).
Defined.

(** ** The generator only appends *)

Lemma emittedBy_app (g g' : IRGenerator) (l : list TACInstruction) :
  code g' = code g ++ l -> emittedBy g g' = l.
Proof. intros H. unfold emittedBy. rewrite H. apply drop_app_length. Qed.

Lemma generateStatement_block (l : list Statement) (g : IRGenerator) :
  generateStatement (BlockStatement l) g = generateStatements l g.
Proof.
  revert g. induction l as [| s l IH]; intros g; [reflexivity |].
  unfold generateStatements in *. cbn [fold_left]. rewrite <- IH. reflexivity.
Qed.

Lemma generateStatement_function (rt name : string) (ps : list string)
    (body : list Statement) (g : IRGenerator) :
  generateStatement (FunctionDeclaration rt name ps body) g =
  generateBody body (emplace_back (mkTAC "LABEL" "" "" name) g).
Proof.
  cbn [generateStatement]. generalize (emplace_back (mkTAC "LABEL" "" "" name) g).
  induction body as [| s l IH]; intros g'; [reflexivity |].
  cbn [generateBody]. destruct (endsWithRET (generateStatement s g')); [reflexivity | apply IH].
Qed.

Lemma generateExpression_appends (e : Expression) (g : IRGenerator) :
  exists l, code (generateExpression e g).2 = code g ++ l.
Proof.
  revert g. induction e as [l IHl o r IHr | v | x]; intros g; cbn [generateExpression].
  - destruct (IHl g) as [l1 H1]. destruct (generateExpression l g) as [lv g1].
    destruct (IHr g1) as [l2 H2]. destruct (generateExpression r g1) as [rv g2].
    cbn in *. exists (l1 ++ l2 ++ [mkTAC (opToString o) lv rv ("t" +:+ to_string (tempVarCount g2))]).
    rewrite H2, H1, <- !app_assoc. reflexivity.
  - exists []. cbn. rewrite app_nil_r. reflexivity.
  - exists []. cbn. rewrite app_nil_r. reflexivity.
Qed.

Lemma generateStatement_appends (s : Statement) :
  forall g, exists l, code (generateStatement s g) = code g ++ l.
Proof.
  induction s as [l IH | t n i | n v | v | rt n ps body IH | c t e IHt IHe]
    using Statement_induction; intros g.
  - rewrite generateStatement_block. unfold generateStatements.
    revert g. induction IH as [| s l Hs _ IHl]; intros g; cbn [fold_left].
    + exists []. rewrite app_nil_r. reflexivity.
    + destruct (Hs g) as [l1 H1]. destruct (IHl (generateStatement s g)) as [l2 H2].
      exists (l1 ++ l2). rewrite H2, H1, app_assoc. reflexivity.
  - cbn [generateStatement]. destruct i as [e |].
    + destruct (generateExpression_appends e g) as [l1 H1].
      destruct (generateExpression e g) as [tv g1]. cbn in *.
      exists (l1 ++ [mkTAC "MOV" tv "" n]). rewrite H1, app_assoc. reflexivity.
    + exists []. rewrite app_nil_r. reflexivity.
  - cbn [generateStatement].
    destruct (generateExpression_appends v g) as [l1 H1].
    destruct (generateExpression v g) as [tv g1]. cbn in *.
    exists (l1 ++ [mkTAC "MOV" tv "" n]). rewrite H1, app_assoc. reflexivity.
  - cbn [generateStatement]. destruct v as [e |].
    + destruct (generateExpression_appends e g) as [l1 H1].
      destruct (generateExpression e g) as [tv g1]. cbn in *.
      exists (l1 ++ [mkTAC "RET" tv "" ""]). rewrite H1, app_assoc. reflexivity.
    + eexists. reflexivity.
  - rewrite generateStatement_function.
    assert (forall g', exists l, code (generateBody body g') = code g' ++ l) as Hbody.
    { induction IH as [| s l Hs _ IHl]; intros g'; cbn [generateBody].
      - destruct (endsWithRET g'); [exists []; rewrite app_nil_r; reflexivity |].
        eexists. reflexivity.
      - destruct (Hs g') as [l1 H1].
        destruct (endsWithRET (generateStatement s g')); [exists l1; exact H1 |].
        destruct (IHl (generateStatement s g')) as [l2 H2].
        exists (l1 ++ l2). rewrite H2, H1, app_assoc. reflexivity. }
    destruct (Hbody (emplace_back (mkTAC "LABEL" "" "" n) g)) as [l H].
    exists (mkTAC "LABEL" "" "" n :: l). rewrite H. cbn. rewrite <- app_assoc. reflexivity.
  - cbn [generateStatement].
    destruct (generateExpression_appends c g) as [l1 H1].
    destruct (generateExpression c g) as [cv g1]. cbn in H1.
    set (g2 := emplace_back (mkTAC "IF_FALSE" cv "" "L1") g1).
    destruct (IHt g2) as [l2 H2].
    set (g4 := emplace_back (mkTAC "LABEL" "" "" "L1")
                 (emplace_back (mkTAC "GOTO" "" "" "L2") (generateStatement t g2))).
    assert (exists l3, code (match e with Some s => generateStatement s g4 | None => g4 end)
                       = code g4 ++ l3) as [l3 H3].
    { destruct e as [s |]; [apply IHe |]. exists []. rewrite app_nil_r. reflexivity. }
    eexists. cbn [emplace_back code]. rewrite H3. subst g4. cbn [emplace_back code].
    rewrite H2. subst g2. cbn [emplace_back code]. rewrite H1.
    rewrite <- !app_assoc. reflexivity.
Qed.

(** C4. Lowering an [if] statement appends, in this order: the
    instructions of the condition, which leave its value in [c]; [IF_FALSE c
    "" L1]; the instructions of the then-branch; [GOTO "" "" L2]; [LABEL ""
    "" L1]; the instructions of the else-branch, none when there is no
    else-branch; [LABEL "" "" L2]. The labels are the strings "L1" and "L2"
    for every [if] statement and every state of the generator. *)
Theorem C4_if_lowering (condition : Expression) (thenBranch : Statement)
    (elseBranch : option Statement) (g : IRGenerator) :
  let c := (generateExpression condition g).1 in
  let g1 := (generateExpression condition g).2 in
  let g2 := emplace_back (mkTAC "IF_FALSE" c "" "L1") g1 in
  let g3 := generateStatement thenBranch g2 in
  let g4 := emplace_back (mkTAC "LABEL" "" "" "L1")
              (emplace_back (mkTAC "GOTO" "" "" "L2") g3) in
  let g5 := match elseBranch with
            | Some e => generateStatement e g4
            | None => g4
            end in
  code (generateStatement (IfStatement condition thenBranch elseBranch) g) =
    code g ++ emittedBy g g1 ++ [mkTAC "IF_FALSE" c "" "L1"] ++ emittedBy g2 g3 ++
    [mkTAC "GOTO" "" "" "L2"; mkTAC "LABEL" "" "" "L1"] ++ emittedBy g4 g5 ++
    [mkTAC "LABEL" "" "" "L2"] /\
  match elseBranch with
  | Some e => code (generateStatement e g4) = code g4 ++ emittedBy g4 g5
  | None => emittedBy g4 g5 = []
  end /\
  code g1 = code g ++ emittedBy g g1 /\
  code g3 = code g2 ++ emittedBy g2 g3.
Proof.
  intros c g1 g2 g3 g4 g5.
  destruct (generateExpression_appends condition g) as [l1 H1]. fold g1 in H1.
  destruct (generateStatement_appends thenBranch g2) as [l2 H2]. fold g3 in H2.
  assert (exists l3, code g5 = code g4 ++ l3) as [l3 H3].
  { subst g5. destruct elseBranch as [s |]; [apply generateStatement_appends |].
    exists []. rewrite app_nil_r. reflexivity. }
  rewrite (emittedBy_app g g1 l1 H1), (emittedBy_app g2 g3 l2 H2), (emittedBy_app g4 g5 l3 H3).
  split; [| split; [| split]].
  - cbn [generateStatement].
    destruct (generateExpression condition g) as [cv gc] eqn:Hc.
    subst c g1 g2 g3 g4 g5. cbn [fst snd] in *.
    cbn [emplace_back code]. rewrite H3. cbn [emplace_back code].
    rewrite H2. cbn [emplace_back code]. rewrite H1.
    rewrite <- !app_assoc. reflexivity.
  - destruct elseBranch as [s |].
    + exact H3.
    + subst g5. symmetry. apply (app_inv_head (code g4)).
      rewrite app_nil_r. exact H3.
  - exact H1.
  - exact H2.
Qed.

(** ** Temporaries *)

Lemma to_string_inj (a b : nat) : to_string a = to_string b -> a = b.
Proof.
  unfold to_string. intros H.
  apply (f_equal NilEmpty.uint_of_string) in H. rewrite !NilEmpty.usu in H.
  injection H as H. apply (f_equal Nat.of_uint) in H.
  rewrite !DecimalNat.Unsigned.of_to in H. exact H.
Qed.

Lemma tempName_inj (a b : nat) : tempName a = tempName b -> a = b.
Proof. unfold tempName. cbn. intros H. injection H as H. apply to_string_inj, H. Qed.

Lemma getNewTempVar_tempName (g : IRGenerator) :
  getNewTempVar g = (tempName (tempVarCount g), mkIRGenerator (code g) (S (tempVarCount g))).
Proof. reflexivity. Qed.

Lemma notTemp_empty : ~ isTempName "".
Proof. intros [n H]. discriminate H. Qed.

Lemma notTemp_L (s : string) : ~ isTempName (String "L" s).
Proof. intros [n H]. discriminate H. Qed.

Lemma tempsFrom_le (c c' : nat) (l : list TACInstruction) : tempsFrom c l c' -> c <= c'.
Proof. induction 1; lia. Qed.

Lemma usesBelow_mono (c c' : nat) (i : TACInstruction) :
  c <= c' -> usesBelow c i -> usesBelow c' i.
Proof. intros Hle H n Hn. specialize (H n Hn). lia. Qed.

Lemma tempsFrom_app (c1 c2 c3 : nat) (l1 l2 : list TACInstruction) :
  tempsFrom c1 l1 c2 -> tempsFrom c2 l2 c3 -> tempsFrom c1 (l1 ++ l2) c3.
Proof.
  intros H1 H2. induction H1; cbn [app].
  - exact H2.
  - apply tempsFrom_def; auto.
  - apply tempsFrom_other; auto.
Qed.

Lemma tempsFrom_one (c : nat) (i : TACInstruction) :
  ~ isTempName (result i) -> usesBelow c i -> tempsFrom c [i] c.
Proof. intros. apply tempsFrom_other; auto. constructor. Qed.

(** Results and uses of temporaries stay in the range of the counter. *)
Lemma tempsFrom_result_range (c c' : nat) (l : list TACInstruction) :
  tempsFrom c l c' ->
  forall k i n, l !! k = Some i -> result i = tempName n ->
    c <= n < c' /\ isBinaryInstruction i.
Proof.
  induction 1 as [c | c i l c' Hbin Hres Huse Hl IH | c i l c' Hnot Huse Hl IH];
    intros k j n Hk Hn.
  - discriminate Hk.
  - destruct k as [| k]; cbn in Hk.
    + injection Hk as <-. rewrite Hres in Hn. apply tempName_inj in Hn. subst n.
      apply tempsFrom_le in Hl. split; [lia | exact Hbin].
    + destruct (IH k j n Hk Hn) as [Hr Hb]. split; [lia | exact Hb].
  - destruct k as [| k]; cbn in Hk.
    + injection Hk as <-. exfalso. apply Hnot. exists n. exact Hn.
    + apply (IH k j n Hk Hn).
Qed.

Lemma tempsFrom_use_range (c c' : nat) (l : list TACInstruction) :
  tempsFrom c l c' ->
  forall k i n, l !! k = Some i -> uses i (tempName n) -> n < c'.
Proof.
  induction 1 as [c | c i l c' Hbin Hres Huse Hl IH | c i l c' Hnot Huse Hl IH];
    intros k j n Hk Hn.
  - discriminate Hk.
  - destruct k as [| k]; cbn in Hk.
    + injection Hk as <-. specialize (Huse n Hn). apply tempsFrom_le in Hl. lia.
    + apply (IH k j n Hk Hn).
  - destruct k as [| k]; cbn in Hk.
    + injection Hk as <-. specialize (Huse n Hn). apply tempsFrom_le in Hl. lia.
    + apply (IH k j n Hk Hn).
Qed.

(** Every temporary of the range has one definition, before its uses. *)
Lemma tempsFrom_definition (c c' : nat) (l : list TACInstruction) :
  tempsFrom c l c' ->
  forall n, c <= n < c' ->
    exists d def, l !! d = Some def /\ result def = tempName n /\
      isBinaryInstruction def /\
      (forall d' i', l !! d' = Some i' -> result i' = tempName n -> d' = d) /\
      (forall u i', l !! u = Some i' -> uses i' (tempName n) -> d < u).
Proof.
  induction 1 as [c | c i l c' Hbin Hres Huse Hl IH | c i l c' Hnot Huse Hl IH];
    intros n Hn.
  - lia.
  - destruct (decide (n = c)) as [-> | Hne].
    + exists 0, i. split; [reflexivity |]. split; [exact Hres |]. split; [exact Hbin |]. split.
      * intros [| d'] i' Hd' Hr; [reflexivity |]. cbn in Hd'.
        destruct (tempsFrom_result_range _ _ _ Hl d' i' c Hd' Hr) as [Hrange _]. lia.
      * intros [| u] i' Hu Huses; [| lia]. cbn in Hu. injection Hu as <-.
        specialize (Huse c Huses). lia.
    + destruct (IH n ltac:(lia)) as (d & def & Hd & Hr & Hb & Huniq & Hbefore).
      exists (S d), def. split; [exact Hd |]. split; [exact Hr |]. split; [exact Hb |]. split.
      * intros [| d'] i' Hd' Hr'; cbn in Hd'.
        -- injection Hd' as <-. rewrite Hres in Hr'. apply tempName_inj in Hr'. lia.
        -- f_equal. apply (Huniq d' i' Hd' Hr').
      * intros [| u] i' Hu Huses; cbn in Hu.
        -- injection Hu as <-. specialize (Huse n Huses). lia.
        -- specialize (Hbefore u i' Hu Huses). lia.
  - destruct (IH n Hn) as (d & def & Hd & Hr & Hb & Huniq & Hbefore).
    exists (S d), def. split; [exact Hd |]. split; [exact Hr |]. split; [exact Hb |]. split.
    + intros [| d'] i' Hd' Hr'; cbn in Hd'.
      * injection Hd' as <-. exfalso. apply Hnot. exists n. exact Hr'.
      * f_equal. apply (Huniq d' i' Hd' Hr').
    + intros [| u] i' Hu Huses; cbn in Hu.
      * injection Hu as <-. specialize (Huse n Huses). lia.
      * specialize (Hbefore u i' Hu Huses). lia.
Qed.

Lemma tempsFrom_singleAssignment (c' : nat) (l : list TACInstruction) :
  tempsFrom 0 l c' -> singleAssignment l.
Proof.
  intros H n k i Hk Hocc.
  apply (tempsFrom_definition 0 c' l H). split; [lia |].
  destruct Hocc as [Hres | Huse].
  - apply (tempsFrom_result_range 0 c' l H k i n Hk Hres).
  - apply (tempsFrom_use_range 0 c' l H k i n Hk Huse).
Qed.

Lemma generateExpression_temps (e : Expression) :
  forall g, Forall notTemp (expressionNames e) ->
  exists l, code (generateExpression e g).2 = code g ++ l /\
    tempsFrom (tempVarCount g) l (tempVarCount (generateExpression e g).2) /\
    (forall n, (generateExpression e g).1 = tempName n ->
               n < tempVarCount (generateExpression e g).2).
Proof.
  induction e as [l IHl o r IHr | v | x]; intros g Hnames;
    cbn [generateExpression expressionNames] in *.
  - apply Forall_app in Hnames as [Hl Hr].
    destruct (IHl g Hl) as (l1 & H1 & T1 & R1).
    destruct (generateExpression l g) as [lv g1]. cbn [fst snd] in *.
    destruct (IHr g1 Hr) as (l2 & H2 & T2 & R2).
    destruct (generateExpression r g1) as [rv g2]. cbn [fst snd] in *.
    rewrite getNewTempVar_tempName. cbn [fst snd emplace_back code tempVarCount].
    exists (l1 ++ l2 ++ [mkTAC (opToString o) lv rv (tempName (tempVarCount g2))]).
    split; [rewrite H2, H1, <- !app_assoc; reflexivity |]. split.
    + apply (tempsFrom_app _ _ _ _ _ T1). apply (tempsFrom_app _ _ _ _ _ T2).
      apply tempsFrom_def; [exists o; reflexivity | reflexivity | | constructor].
      intros n [Hn | Hn]; cbn in Hn.
      * specialize (R1 n Hn). apply tempsFrom_le in T2. lia.
      * apply (R2 n Hn).
    + intros n Hn. apply tempName_inj in Hn. lia.
  - exists []. rewrite app_nil_r. split; [reflexivity |]. split; [constructor |].
    intros n Hn. exfalso. inversion Hnames as [| ? ? Hv _]; subst. apply Hv. exists n. exact Hn.
  - exists []. rewrite app_nil_r. split; [reflexivity |]. split; [constructor |].
    intros n Hn. exfalso. inversion Hnames as [| ? ? Hv _]; subst. apply Hv. exists n. exact Hn.
Qed.

(** An instruction of a statement: its result is not a temporary and its
    argument comes from an expression lowered before. *)
Lemma tempsFrom_expression_then (e : Expression) (g : IRGenerator) (o r : string) :
  Forall notTemp (expressionNames e) -> ~ isTempName r ->
  exists l,
    code (emplace_back (mkTAC o (generateExpression e g).1 "" r) (generateExpression e g).2) =
      code g ++ l /\
    tempsFrom (tempVarCount g) l (tempVarCount (generateExpression e g).2).
Proof.
  intros He Hr. destruct (generateExpression_temps e g He) as (l & H & T & R).
  exists (l ++ [mkTAC o (generateExpression e g).1 "" r]). cbn [emplace_back code].
  split; [rewrite H, app_assoc; reflexivity |].
  apply (tempsFrom_app _ _ _ _ _ T). apply tempsFrom_one; [exact Hr |].
  intros n [Hn | Hn]; cbn in Hn; [apply (R n Hn) |].
  exfalso. apply notTemp_empty. exists n. exact Hn.
Qed.

Lemma usesBelow_no_args (c : nat) (o r : string) : usesBelow c (mkTAC o "" "" r).
Proof. intros n [Hn | Hn]; cbn in Hn; exfalso; apply notTemp_empty; exists n; exact Hn. Qed.

Lemma generateStatement_temps (s : Statement) :
  forall g, Forall notTemp (statementNames s) ->
  exists l, code (generateStatement s g) = code g ++ l /\
    tempsFrom (tempVarCount g) l (tempVarCount (generateStatement s g)).
Proof.
  induction s as [l IH | t n i | n v | v | rt n ps body IH | c t e IHt IHe]
    using Statement_induction; intros g Hnames; cbn [statementNames] in Hnames.
  - rewrite generateStatement_block. unfold generateStatements.
    revert g Hnames. induction IH as [| s l Hs _ IHl]; intros g Hnames; cbn [fold_left].
    + exists []. rewrite app_nil_r. split; [reflexivity | constructor].
    + cbn [flat_map] in Hnames. apply Forall_app in Hnames as [H1 H2].
      destruct (Hs g H1) as (l1 & E1 & T1).
      destruct (IHl (generateStatement s g) H2) as (l2 & E2 & T2).
      exists (l1 ++ l2). split; [rewrite E2, E1, app_assoc; reflexivity |].
      apply (tempsFrom_app _ _ _ _ _ T1 T2).
  - cbn [generateStatement]. inversion Hnames as [| ? ? Hn Hi]; subst.
    destruct i as [e |]; cbn [optionNames] in Hi.
    + destruct (tempsFrom_expression_then e g "MOV" n Hi Hn) as (l & E & T).
      destruct (generateExpression e g) as [tv g1]. cbn [fst snd] in *.
      exists l. split; [exact E | exact T].
    + exists []. rewrite app_nil_r. split; [reflexivity | constructor].
  - cbn [generateStatement]. inversion Hnames as [| ? ? Hn Hi]; subst.
    destruct (tempsFrom_expression_then v g "MOV" n Hi Hn) as (l & E & T).
    destruct (generateExpression v g) as [tv g1]. cbn [fst snd] in *.
    exists l. split; [exact E | exact T].
  - cbn [generateStatement]. destruct v as [e |]; cbn [optionNames] in Hnames.
    + destruct (tempsFrom_expression_then e g "RET" "" Hnames notTemp_empty) as (l & E & T).
      destruct (generateExpression e g) as [tv g1]. cbn [fst snd] in *.
      exists l. split; [exact E | exact T].
    + eexists. split; [reflexivity |].
      apply tempsFrom_one; [exact notTemp_empty | apply usesBelow_no_args].
  - rewrite generateStatement_function. inversion Hnames as [| ? ? Hn Hbody]; subst.
    assert (forall g', Forall notTemp (flat_map statementNames body) ->
              exists l, code (generateBody body g') = code g' ++ l /\
                tempsFrom (tempVarCount g') l (tempVarCount (generateBody body g'))) as Hloop.
    { clear Hbody Hnames. induction IH as [| s l Hs _ IHl]; intros g' Hb; cbn [generateBody].
      - destruct (endsWithRET g').
        + exists []. rewrite app_nil_r. split; [reflexivity | constructor].
        + eexists. split; [reflexivity |].
          apply tempsFrom_one; [exact notTemp_empty | apply usesBelow_no_args].
      - cbn [flat_map] in Hb. apply Forall_app in Hb as [H1 H2].
        destruct (Hs g' H1) as (l1 & E1 & T1).
        destruct (endsWithRET (generateStatement s g')).
        + exists l1. split; [exact E1 | exact T1].
        + destruct (IHl (generateStatement s g') H2) as (l2 & E2 & T2).
          exists (l1 ++ l2). split; [rewrite E2, E1, app_assoc; reflexivity |].
          apply (tempsFrom_app _ _ _ _ _ T1 T2). }
    destruct (Hloop (emplace_back (mkTAC "LABEL" "" "" n) g) Hbody) as (l & E & T).
    exists (mkTAC "LABEL" "" "" n :: l).
    split; [rewrite E; cbn; rewrite <- app_assoc; reflexivity |].
    apply tempsFrom_other; [exact Hn | apply usesBelow_no_args | exact T].
  - cbn [generateStatement].
    apply Forall_app in Hnames as [Hc Hrest]. apply Forall_app in Hrest as [Ht He].
    destruct (tempsFrom_expression_then c g "IF_FALSE" "L1" Hc (notTemp_L "1")) as (l1 & E1 & T1).
    destruct (generateExpression c g) as [cv g1]. cbn [fst snd] in *.
    set (g2 := emplace_back (mkTAC "IF_FALSE" cv "" "L1") g1) in *.
    destruct (IHt g2 Ht) as (l2 & E2 & T2).
    set (g3 := generateStatement t g2) in *.
    set (g4 := emplace_back (mkTAC "LABEL" "" "" "L1")
                 (emplace_back (mkTAC "GOTO" "" "" "L2") g3)).
    assert (exists l3, code (match e with Some s => generateStatement s g4 | None => g4 end)
                         = code g4 ++ l3 /\
              tempsFrom (tempVarCount g4) l3
                (tempVarCount (match e with Some s => generateStatement s g4 | None => g4 end)))
      as (l3 & E3 & T3).
    { destruct e as [s |]; [apply IHe, He |].
      exists []. rewrite app_nil_r. split; [reflexivity | constructor]. }
    exists (l1 ++ l2 ++ [mkTAC "GOTO" "" "" "L2"; mkTAC "LABEL" "" "" "L1"] ++ l3 ++
            [mkTAC "LABEL" "" "" "L2"]).
    split.
    + cbn [emplace_back code]. rewrite E3. subst g4. cbn [emplace_back code].
      rewrite E2, E1, <- !app_assoc. reflexivity.
    + cbn [emplace_back tempVarCount].
      apply (tempsFrom_app _ _ _ _ _ T1). apply (tempsFrom_app _ _ _ _ _ T2).
      apply tempsFrom_other; [apply notTemp_L | apply usesBelow_no_args |].
      apply tempsFrom_other; [apply notTemp_L | apply usesBelow_no_args |].
      apply (tempsFrom_app _ _ _ _ _ T3).
      apply tempsFrom_one; [apply notTemp_L | apply usesBelow_no_args].
Qed.

Lemma generateCode_generateStatement (ast : Statement) (g : IRGenerator) :
  generateCode ast g = generateStatement ast g.
Proof.
  destruct ast; try reflexivity.
Qed.

(** C8, as amended. When no literal spelling and no variable or function
    name of the program is itself a temporary name [tN], every temporary
    name that occurs in the instructions produced by a new generator is the
    result of exactly one instruction, that instruction is a
    binary-operator instruction, and it comes before every instruction that
    has the name as [arg1] or [arg2]. *)
Theorem C8_temporaries_assigned_once (ast : Statement) :
  Forall notTemp (statementNames ast) ->
  singleAssignment (code (generateCode ast newIRGenerator)).
Proof.
  intros Hnames. rewrite generateCode_generateStatement.
  destruct (generateStatement_temps ast newIRGenerator Hnames) as (l & E & T).
  rewrite E. cbn [newIRGenerator code app tempVarCount] in *.
  apply (tempsFrom_singleAssignment _ l T).
Qed.

Lemma C8_witness :
  let ast := VariableDeclaration "int" "x"
               (Some (BinaryExpression (LiteralExpression "1") Add (LiteralExpression "2"))) in
  parse [mkToken Keyword "int" 1 1; mkToken Identifier "x" 1 5; mkToken Operator "=" 1 7;
         mkToken NumberLiteral "1" 1 9; mkToken Operator "+" 1 11;
         mkToken NumberLiteral "2" 1 13; mkToken Separator ";" 1 14] = Ok ast /\
  Forall notTemp (statementNames ast) /\
  singleAssignment (code (generateCode ast newIRGenerator)).
Proof.
  intros ast.
  assert (Forall notTemp (statementNames ast)) as Hnames.
  { repeat constructor; intros [n H]; discriminate H. }
  split; [vm_compute; reflexivity |]. split; [exact Hnames |].
  exact (C8_temporaries_assigned_once ast Hnames).
Defined.

(** C8 as stated fails when the program has a variable named like a
    temporary: in the instructions for [int t0 = 1 + 2;] the name [t0] is
    the result of the "+" instruction and of the "MOV" instruction. *)
Lemma C8_counterexample :
  exists c, compile "int t0 = 1 + 2;" = Ok c /\ ~ singleAssignment c.
Proof.
  exists [mkTAC "+" "1" "2" "t0"; mkTAC "MOV" "t0" "" "t0"].
  split; [vm_compute; reflexivity |].
  intros H.
  destruct (H 0 0 (mkTAC "+" "1" "2" "t0") eq_refl (or_introl eq_refl))
    as (d & def & _ & _ & _ & Huniq & _).
  pose proof (Huniq 0 (mkTAC "+" "1" "2" "t0") eq_refl eq_refl) as H0.
  pose proof (Huniq 1 (mkTAC "MOV" "t0" "" "t0") eq_refl eq_refl) as H1.
  lia.
Qed.

(** ** Function parameters *)

Lemma match_true (ty : TokenType) (t : Token) (ts : list Token) :
  match_ ty (t :: ts) = true -> tok_type t = ty.
Proof. unfold match_. cbn. apply bool_decide_eq_true. Qed.

Lemma match_nil (ty : TokenType) : ty <> EndOfFile -> match_ ty [] = false.
Proof. intros H. unfold match_. cbn. apply bool_decide_eq_false. congruence. Qed.

Lemma atSeparator_true (v : string) (ts : list Token) :
  atSeparator v ts = true ->
  exists t rest, ts = t :: rest /\ tok_type t = Separator /\ tok_value t = v.
Proof.
  unfold atSeparator. intros H. apply andb_true_iff in H as [Hty Hv].
  destruct ts as [| t rest].
  - rewrite match_nil in Hty; [discriminate | discriminate].
  - exists t, rest. split; [reflexivity |]. split; [apply (match_true _ _ _ Hty) |].
    apply String.eqb_eq. exact Hv.
Qed.

Lemma parametersLoop_spec (n : nat) :
  forall ts ps0, length ts <= n ->
  match parametersLoop ts ps0 with
  | Ok (ps, rest) =>
      exists consumed accepted,
        ts = consumed ++ rest /\ Forall isParameterToken consumed /\
        ps = ps0 ++ map parameterString accepted /\
        Forall (fun p => tok_type p.1 = Identifier /\ tok_type p.2 = Identifier /\
                         exists pre post, consumed = pre ++ p.1 :: p.2 :: post) accepted
  | Throw _ => True
  | _ => False
  end.
Proof.
  induction n as [| n IH]; intros ts ps0 Hlen.
  - destruct ts; [| cbn in Hlen; lia]. cbn. exact I.
  - destruct ts as [| a ts1]; [cbn; exact I |].
    cbn [parametersLoop].
    destruct (atSeparator ")" (a :: ts1)) eqn:Hclose; cbn [negb].
    { exists [], []. cbn. rewrite app_nil_r. auto. }
    destruct (match_ Identifier (a :: ts1)) eqn:Ha; [| exact I].
    apply match_true in Ha.
    destruct (match_ Identifier ts1) eqn:Hb; cbn [negb]; [| exact I].
    destruct ts1 as [| b ts2]; [rewrite match_nil in Hb; discriminate |].
    apply match_true in Hb.
    destruct (atSeparator "," ts2) eqn:Hcomma.
    + destruct (atSeparator_true _ _ Hcomma) as (c & ts3 & -> & Hc1 & Hc2).
      specialize (IH ts3 (ps0 ++ [tok_value a +:+ " " +:+ tok_value b])
                    ltac:(cbn in Hlen; lia)).
      cbn [currentToken] in *.
      destruct (parametersLoop ts3 (ps0 ++ [tok_value a +:+ " " +:+ tok_value b]))
        as [[ps rest] | | |]; try exact IH.
      destruct IH as (consumed & accepted & -> & Hcons & -> & Hacc).
      exists (a :: b :: c :: consumed), ((a, b) :: accepted).
      split; [reflexivity |]. split.
      { constructor; [left; exact Ha |]. constructor; [left; exact Hb |].
        constructor; [right; split; assumption | exact Hcons]. }
      split; [cbn [map]; rewrite <- app_assoc; reflexivity |].
      constructor.
      * cbn. split; [exact Ha |]. split; [exact Hb |]. exists [], (c :: consumed). reflexivity.
      * eapply Forall_impl; [exact Hacc |].
        intros p (H1 & H2 & pre & post & ->).
        split; [exact H1 |]. split; [exact H2 |].
        exists (a :: b :: c :: pre), post. reflexivity.
    + exists [a; b], [(a, b)]. split; [reflexivity |]. split.
      { constructor; [left; exact Ha |]. constructor; [left; exact Hb | constructor]. }
      split; [reflexivity |]. constructor; [| constructor].
      cbn. split; [exact Ha |]. split; [exact Hb |]. exists [], []. reflexivity.
Qed.

Lemma parseFunctionDeclaration_keyword
    (self : list Token -> outcome (Statement * list Token)) (returnType name : string)
    (ts pre post : list Token) (t : Token) :
  advanceToken ts = pre ++ t :: post -> Forall (fun u => ~ isClosingParen u) pre ->
  tok_type t = Keyword ->
  exists msg, parseFunctionDeclaration self returnType name ts = Throw msg.
Proof.
  intros Hts Hpre Ht. unfold parseFunctionDeclaration.
  pose proof (parametersLoop_spec (length (advanceToken ts)) (advanceToken ts) []
                (Nat.le_refl _)) as Hspec.
  destruct (parametersLoop (advanceToken ts) []) as [[ps rest] | msg | |];
    cbn [bind]; [| exists msg; reflexivity | contradiction | contradiction].
  destruct (atSeparator ")" rest) eqn:Hclose; cbn [negb]; [| eexists; reflexivity].
  exfalso.
  destruct Hspec as (consumed & accepted & Hsplit & Hcons & _).
  destruct (atSeparator_true _ _ Hclose) as (c & rest' & -> & Hc1 & Hc2).
  rewrite Hts in Hsplit. apply app_eq_app in Hsplit as [l [[H1 H2] | [H1 H2]]].
  - (* the closing parenthesis lies in [pre] *)
    destruct l as [| u l].
    + cbn in H2. injection H2 as -> _. congruence.
    + cbn in H2. injection H2 as -> _. subst pre.
      apply Forall_app in Hpre as [_ Hpre]. inversion Hpre as [| ? ? Hu _]; subst.
      apply Hu. split; assumption.
  - (* the keyword lies in [consumed] *)
    destruct l as [| u l].
    + cbn in H2. injection H2 as -> _. congruence.
    + cbn in H2. injection H2 as -> _. subst consumed.
      apply Forall_app in Hcons as [_ Hcons]. inversion Hcons as [| ? ? Hu _]; subst.
      destruct Hu as [Hu | [Hu _]]; congruence.
Qed.

(** ** The lexer: lexemes *)

Lemma append_assoc (a b c : string) : (a +:+ b) +:+ c = a +:+ (b +:+ c).
Proof.
  induction a as [| x a IH]; [reflexivity |].
  change (String x ((a +:+ b) +:+ c) = String x (a +:+ (b +:+ c))). rewrite IH. reflexivity.
Qed.

Lemma append_empty (v : string) : v +:+ "" = v.
Proof.
  induction v as [| x v IH]; [reflexivity |].
  change (String x (v +:+ "") = String x v). rewrite IH. reflexivity.
Qed.

Lemma push_back_append (v s : string) (c : ascii) : push_back v c +:+ s = v +:+ String c s.
Proof. unfold push_back. rewrite append_assoc. reflexivity. Qed.

Lemma front_append (c : ascii) (s t : string) : front (String c s +:+ t) = c.
Proof. reflexivity. Qed.

Lemma number_from_prefix (s : string) :
  forall ln col v f, exists suffix, (number_from s ln col v f).1.1 = v +:+ suffix.
Proof.
  induction s as [| c rest IH]; intros ln col v f; cbn [number_from].
  - exists "". cbn. symmetry. apply append_empty.
  - destruct (isdigit c || (c =? ".")%char);
      [| exists ""; cbn; symmetry; apply append_empty].
    destruct ((c =? ".")%char && f); [exists ""; cbn; symmetry; apply append_empty |].
    destruct (IH (nextLine c ln) (nextColumn c col) (push_back v c) (f || (c =? ".")%char))
      as [suffix H].
    exists (String c suffix). rewrite H. apply push_back_append.
Qed.

Lemma string_from_prefix_bounded (n : nat) :
  forall s ln col v, String.length s <= n ->
    exists suffix, (string_from s ln col v).1 = v +:+ suffix.
Proof.
  induction n as [| n IH]; intros s ln col v Hlen.
  - destruct s; [| cbn in Hlen; lia]. exists "". cbn. symmetry. apply append_empty.
  - destruct s as [| c rest]; cbn [string_from].
    { exists "". cbn. symmetry. apply append_empty. }
    destruct (negb (c =? dquote)%char && negb (c =? NUL)%char);
      [| exists ""; cbn; symmetry; apply append_empty].
    destruct rest as [| c2 rest2].
    + cbn [string_from]. exists (String c ""). reflexivity.
    + destruct ((c =? backslash)%char && (c2 =? dquote)%char).
      * destruct (IH rest2 (nextLine c2 (nextLine c ln))
                    (nextColumn c2 (nextColumn c col)) (push_back (push_back v c) c2)
                    ltac:(cbn in Hlen |- *; lia)) as [suffix H].
        exists (String c (String c2 suffix)). rewrite H.
        rewrite !push_back_append. reflexivity.
      * destruct (IH (String c2 rest2) (nextLine c ln) (nextColumn c col)
                    (push_back v c) ltac:(cbn in Hlen |- *; lia)) as [suffix H].
        exists (String c suffix). rewrite H. apply push_back_append.
Qed.

Lemma string_from_prefix (s : string) (ln col : nat) (v : string) :
  exists suffix, (string_from s ln col v).1 = v +:+ suffix.
Proof. apply (string_from_prefix_bounded (String.length s)). lia. Qed.

Lemma operator_from_prefix (s : string) :
  forall ln col v, exists suffix, (operator_from s ln col v).1 = v +:+ suffix.
Proof.
  induction s as [| c rest IH]; intros ln col v; cbn [operator_from].
  - exists "". cbn. symmetry. apply append_empty.
  - destruct (isOperator c); [| exists ""; cbn; symmetry; apply append_empty].
    destruct (IH (nextLine c ln) (nextColumn c col) (push_back v c)) as [suffix H].
    destruct (multiCharOperators (push_back v c)) as [second |];
      [| exists (String c suffix); rewrite H; apply push_back_append].
    destruct rest as [| c2 rest2];
      [exists (String c suffix); rewrite H; apply push_back_append |].
    destruct (c2 =? second)%char;
      [| exists (String c suffix); rewrite H; apply push_back_append].
    exists (String c (String c2 "")). cbn [fst].
    unfold push_back at 1. apply push_back_append.
Qed.

Lemma currentChar_source (lx : Lexer) :
  currentChar lx <> NUL -> exists rest, source lx = String (currentChar lx) rest.
Proof.
  unfold currentChar. destruct (source lx) as [| c rest]; cbn; [congruence |].
  intros _. exists rest. reflexivity.
Qed.

Lemma isdigit_not_NUL (c : ascii) : isdigit c = true -> c <> NUL.
Proof. intros H ->. discriminate H. Qed.

Lemma isdigit_not_alpha (c : ascii) : isdigit c = true -> isalpha c = false.
Proof.
  unfold isdigit, isalpha, char_in. intros H.
  apply andb_true_iff in H as [H1 H2]. apply Nat.leb_le in H1, H2.
  apply orb_false_iff. split; apply andb_false_iff; left; apply Nat.leb_gt; lia.
Qed.

Lemma number_front (lx : Lexer) :
  isdigit (currentChar lx) = true -> front (tok_value (number lx).1) = currentChar lx.
Proof.
  intros Hd. destruct (currentChar_source lx (isdigit_not_NUL _ Hd)) as [rest Hs].
  unfold number. rewrite Hs. cbn [number_from]. rewrite Hd. cbn [orb andb].
  rewrite andb_false_r.
  destruct (number_from_prefix rest (nextLine (currentChar lx) (line lx))
              (nextColumn (currentChar lx) (column lx)) (push_back "" (currentChar lx))
              (false || (currentChar lx =? ".")%char)) as [suffix H].
  destruct (number_from rest _ _ _ _) as [[value isF] lx'].
  cbn [fst] in H. subst value. destruct isF; reflexivity.
Qed.

Lemma stringLiteral_front (lx : Lexer) :
  front (tok_value (stringLiteral lx).1) = currentChar lx.
Proof.
  unfold stringLiteral.
  destruct (string_from_prefix (source (advance lx)) (line (advance lx))
              (column (advance lx)) (push_back "" (currentChar lx))) as [suffix H].
  destruct (string_from _ _ _ _) as [value lx2]. cbn [fst] in H. subst value.
  cbn [tok_value fst]. rewrite push_back_append. reflexivity.
Qed.

Lemma characterLiteral_front (lx lx' : Lexer) (tok : Token) :
  characterLiteral lx = Ok (tok, lx') -> front (tok_value tok) = currentChar lx.
Proof.
  unfold characterLiteral.
  destruct ((currentChar (advance lx) =? backslash)%char && (peekChar (advance lx) =? squote)%char);
    match goal with |- context [negb ?b] => destruct b end; cbn [negb]; intros H;
    try discriminate H; injection H as <- _; reflexivity.
Qed.

Lemma operatorToken_front (lx : Lexer) :
  isOperator (currentChar lx) = true ->
  front (tok_value (operatorToken lx).1) = currentChar lx.
Proof.
  intros Ho.
  destruct (currentChar_source lx) as [rest Hs]; [intros E; rewrite E in Ho; discriminate Ho |].
  unfold operatorToken.
  destruct (operator_from (source lx) (line lx) (column lx) "") as [value lx'] eqn:Hop.
  cbn [tok_value fst].
  rewrite Hs in Hop. cbn [operator_from] in Hop. rewrite Ho in Hop.
  destruct (operator_from_prefix rest (nextLine (currentChar lx) (line lx))
              (nextColumn (currentChar lx) (column lx)) (push_back "" (currentChar lx)))
    as [suffix H].
  assert (operator_from rest (nextLine (currentChar lx) (line lx))
            (nextColumn (currentChar lx) (column lx)) (push_back "" (currentChar lx)) =
          (value, lx') -> front value = currentChar lx) as Hloop.
  { intros E. rewrite E in H. cbn [fst] in H. rewrite H. reflexivity. }
  destruct (multiCharOperators (push_back "" (currentChar lx))) as [second |];
    [| apply Hloop, Hop].
  destruct rest as [| c2 rest2]; [apply Hloop, Hop |].
  destruct (c2 =? second)%char; [| apply Hloop, Hop].
  injection Hop as <- _. reflexivity.
Qed.

Lemma primitive_front (v : string) :
  In v primitiveTypeNames -> isalpha (front v) = true.
Proof. cbn. intros [<- | [<- | [<- | [<- | []]]]]; reflexivity. Qed.

Lemma identifierOrKeyword_keyword (lx : Lexer) :
  In (tok_value (identifierOrKeyword lx).1) primitiveTypeNames ->
  tok_type (identifierOrKeyword lx).1 = Keyword.
Proof.
  unfold identifierOrKeyword.
  destruct (identifier_from (source lx) (line lx) (column lx) "") as [value lx'].
  assert (In value primitiveTypeNames -> keywords value = Some Keyword) as Hk.
  { cbn. intros [<- | [<- | [<- | [<- | []]]]]; reflexivity. }
  destruct (keywords value) as [ty |] eqn:Hkw; cbn [fst tok_value tok_type]; intros Hin;
    specialize (Hk Hin); congruence.
Qed.

Ltac token_of H tok :=
  apply (f_equal (fun r => match r with Ok p => p.1 | _ => tok end)) in H;
  cbn [fst] in H; subst tok.

(** A token whose lexeme is a primitive type name is a [Keyword]. *)
Lemma nextToken_keyword (lx lx' : Lexer) (tok : Token) :
  nextToken lx = Ok (tok, lx') -> In (tok_value tok) primitiveTypeNames ->
  tok_type tok = Keyword.
Proof.
  unfold nextToken. set (lx1 := skipComment (skipWhitespace lx)).
  intros H Hin. pose proof (primitive_front _ Hin) as Hfront.
  destruct (isdigit (currentChar lx1)) eqn:Hdigit.
  { token_of H tok. rewrite (number_front lx1 Hdigit) in Hfront.
    rewrite (isdigit_not_alpha _ Hdigit) in Hfront. discriminate. }
  destruct (isalpha (currentChar lx1) || (currentChar lx1 =? "_")%char) eqn:Hident.
  { token_of H tok. apply identifierOrKeyword_keyword, Hin. }
  apply orb_false_iff in Hident as [Halpha _].
  destruct (currentChar lx1 =? dquote)%char.
  { token_of H tok. rewrite stringLiteral_front in Hfront. congruence. }
  destruct (currentChar lx1 =? squote)%char.
  { rewrite (characterLiteral_front _ _ _ H) in Hfront. congruence. }
  destruct (isOperator (currentChar lx1)) eqn:Hop.
  { token_of H tok. rewrite (operatorToken_front lx1 Hop) in Hfront. congruence. }
  destruct (isSeparator (currentChar lx1)).
  { token_of H tok. cbn in Hfront. congruence. }
  destruct (currentChar lx1 =? NUL)%char.
  { token_of H tok. cbn in Hin. intuition discriminate. }
  token_of H tok. cbn in Hfront. congruence.
Qed.

Lemma tokenize_loop_keyword (fuel : nat) :
  forall lx acc toks,
    tokenize_loop fuel lx acc = Ok toks ->
    Forall (fun t => In (tok_value t) primitiveTypeNames -> tok_type t = Keyword) acc ->
    Forall (fun t => In (tok_value t) primitiveTypeNames -> tok_type t = Keyword) toks.
Proof.
  induction fuel as [| fuel IH]; intros lx acc toks H Hacc; cbn [tokenize_loop] in H.
  - destruct (source lx); [injection H as <-; exact Hacc | discriminate H].
  - destruct (source lx); [injection H as <-; exact Hacc |].
    destruct (nextToken lx) as [[token lx'] | | |] eqn:Hnext; cbn [bind] in H;
      try discriminate H.
    assert (Forall (fun t => In (tok_value t) primitiveTypeNames -> tok_type t = Keyword)
              (if bool_decide (tok_type token <> Unknown) then acc ++ [token] else acc))
      as Hacc'.
    { destruct (bool_decide (tok_type token <> Unknown)); [| exact Hacc].
      apply Forall_app. split; [exact Hacc |]. constructor; [| constructor].
      apply (nextToken_keyword _ _ _ Hnext). }
    destruct (bool_decide (tok_type token = EndOfFile)).
    + injection H as <-. exact Hacc'.
    + apply (IH _ _ _ H Hacc').
Qed.

Lemma parseStatement_function_keyword (fuel : nat) (ty nm lp t : Token)
    (pre post : list Token) :
  In (tok_value ty) primitiveTypeNames -> tok_type ty = Keyword ->
  tok_type nm = Identifier -> tok_type lp = Separator -> tok_value lp = "(" ->
  Forall (fun u => ~ isClosingParen u) pre -> tok_type t = Keyword ->
  exists msg, parseStatement (S fuel) (ty :: nm :: lp :: pre ++ t :: post) = Throw msg.
Proof.
  intros Hprim Hty Hnm Hlp1 Hlp2 Hpre Ht.
  cbn [parseStatement]. unfold atSeparator at 1, match_. cbn [currentToken].
  rewrite Hty. cbn [bool_decide decide_rel andb].
  replace (bool_decide (Keyword = Separator)) with false by reflexivity.
  replace (bool_decide (Keyword = Keyword)) with true by reflexivity.
  cbn [andb].
  assert ((tok_value ty =? "int")%string || (tok_value ty =? "float")%string ||
          (tok_value ty =? "char")%string || (tok_value ty =? "std::string")%string = true)
    as ->.
  { cbn in Hprim. destruct Hprim as [<- | [<- | [<- | [<- | []]]]]; reflexivity. }
  unfold parseVariableDeclaration. cbn [advanceToken currentToken].
  unfold match_. cbn [currentToken]. rewrite Hnm.
  replace (bool_decide (Identifier = Identifier)) with true by reflexivity. cbn [negb].
  unfold atSeparator at 1, match_. cbn [currentToken]. rewrite Hlp1, Hlp2.
  replace (bool_decide (Separator = Separator)) with true by reflexivity.
  cbn [andb String.eqb Ascii.eqb Bool.eqb].
  apply (parseFunctionDeclaration_keyword _ _ _ _ pre post t); [reflexivity | exact Hpre | exact Ht].
Qed.

(** C7. A primitive type name is tokenized as a [Keyword]; a function
    declaration in whose parameter list, before its closing parenthesis, a
    [Keyword] token stands is rejected by the parser with a fatal error; and
    the parameter loop accepts a parameter only from a type token and a
    name token that are both [Identifier]s. So [int f(int a, int b) { return
    a + b; }] is rejected. *)
Theorem C7_primitive_parameter_rejected :
  (forall src toks, tokenize (setSource src) = Ok toks ->
     Forall (fun t => In (tok_value t) primitiveTypeNames -> tok_type t = Keyword) toks) /\
  (forall (ty nm lp t : Token) (pre post : list Token),
     In (tok_value ty) primitiveTypeNames -> tok_type ty = Keyword ->
     tok_type nm = Identifier -> tok_type lp = Separator -> tok_value lp = "(" ->
     Forall (fun u => ~ isClosingParen u) pre -> tok_type t = Keyword ->
     exists msg, parse (ty :: nm :: lp :: pre ++ t :: post) = Throw msg) /\
  (forall ts parameters rest, parametersLoop ts [] = Ok (parameters, rest) ->
     exists accepted, parameters = map parameterString accepted /\
       Forall (fun p => tok_type p.1 = Identifier /\ tok_type p.2 = Identifier /\
                        exists pre post, ts = pre ++ p.1 :: p.2 :: post) accepted) /\
  compile "int f(int a, int b) { return a + b; }" =
    Throw "Expected parameter type in function declaration".
Proof.
  split; [| split; [| split]].
  - intros src toks H. apply (tokenize_loop_keyword _ _ _ _ H). constructor.
  - intros ty nm lp t pre post Hprim Hty Hnm Hlp1 Hlp2 Hpre Ht. unfold parse.
    destruct (parseStatement_function_keyword
                (length (ty :: nm :: lp :: pre ++ t :: post)) ty nm lp t pre post
                Hprim Hty Hnm Hlp1 Hlp2 Hpre Ht) as [msg ->].
    exists msg. reflexivity.
  - intros ts parameters rest H.
    pose proof (parametersLoop_spec (length ts) ts [] (Nat.le_refl _)) as Hspec.
    rewrite H in Hspec. destruct Hspec as (consumed & accepted & -> & _ & -> & Hacc).
    exists accepted. split; [reflexivity |].
    eapply Forall_impl; [exact Hacc |].
    intros p (H1 & H2 & pre & post & ->). split; [exact H1 |]. split; [exact H2 |].
    exists pre, (post ++ rest). rewrite <- app_assoc. reflexivity.
  - vm_compute. reflexivity.
Qed.

Lemma C7_witness :
  tokenize (setSource "int f(int a) { }") =
    Ok [mkToken Keyword "int" 1 1; mkToken Identifier "f" 1 5; mkToken Separator "(" 1 6;
        mkToken Keyword "int" 1 7; mkToken Identifier "a" 1 11; mkToken Separator ")" 1 12;
        mkToken Separator "{" 1 14; mkToken Separator "}" 1 16] /\
  exists msg,
    parse ([mkToken Keyword "int" 1 1; mkToken Identifier "f" 1 5; mkToken Separator "(" 1 6]
           ++ [] ++ mkToken Keyword "int" 1 7 ::
           [mkToken Identifier "a" 1 11; mkToken Separator ")" 1 12;
            mkToken Separator "{" 1 14; mkToken Separator "}" 1 16]) = Throw msg.
Proof.
  split; [vm_compute; reflexivity |].
  apply (proj1 (proj2 C7_primitive_parameter_rejected)
           (mkToken Keyword "int" 1 1) (mkToken Identifier "f" 1 5)
           (mkToken Separator "(" 1 6) (mkToken Keyword "int" 1 7) []
           [mkToken Identifier "a" 1 11; mkToken Separator ")" 1 12;
            mkToken Separator "{" 1 14; mkToken Separator "}" 1 16]);
    try reflexivity.
  - cbn. left. reflexivity.
  - constructor.
Defined.

(** ** The statements of a program *)

(** C1, as amended. [parse] makes one call of [parseStatement]: of [int x =
    1; x = 2;] only the first statement is parsed, checked and lowered,
    whatever tokens follow it, and the output is the single instruction [MOV
    1 "" x]. The two statements in one block, [{ int x = 1; x = 2; }], give
    [MOV 1 "" x] and [MOV 2 "" x] in this order. *)
Theorem C1_first_statement_only :
  let first := [mkToken Keyword "int" 1 1; mkToken Identifier "x" 1 5;
                mkToken Operator "=" 1 7; mkToken NumberLiteral "1" 1 9;
                mkToken Separator ";" 1 10] in
  tokenize (setSource "int x = 1; x = 2;") =
    Ok (first ++ [mkToken Identifier "x" 1 12; mkToken Operator "=" 1 14;
                  mkToken NumberLiteral "2" 1 16; mkToken Separator ";" 1 17]) /\
  (forall rest, parse (first ++ rest) =
                Ok (VariableDeclaration "int" "x" (Some (LiteralExpression "1")))) /\
  compile "int x = 1; x = 2;" = Ok [mkTAC "MOV" "1" "" "x"] /\
  compile "{ int x = 1; x = 2; }" = Ok [mkTAC "MOV" "1" "" "x"; mkTAC "MOV" "2" "" "x"].
Proof.
  intros first. split; [vm_compute; reflexivity |]. split; [| split].
  - intros rest. reflexivity.
  - vm_compute. reflexivity.
  - vm_compute. reflexivity.
Qed.

(** C1 as stated fails: the output for [int x = 1; x = 2;] is not the two
    instructions. *)
Lemma C1_counterexample :
  compile "int x = 1; x = 2;" <> Ok [mkTAC "MOV" "1" "" "x"; mkTAC "MOV" "2" "" "x"].
Proof. vm_compute. discriminate. Qed.

(** C2 at the failing inputs. [tokenize] leaves its loop as soon as the
    whole buffer is consumed, without a last call of [nextToken]: for [int
    x;] the last token is the separator, and for the empty text there is no
    token at all. An [EndOfFile] token ends the sequence only when
    something that is not part of a token, such as a space, follows the
    last token. *)
Theorem C2_no_EndOfFile_token :
  tokenize (setSource "int x;") =
    Ok [mkToken Keyword "int" 1 1; mkToken Identifier "x" 1 5; mkToken Separator ";" 1 6] /\
  tokenize (setSource "") = Ok [] /\
  tokenize (setSource "int x; ") =
    Ok [mkToken Keyword "int" 1 1; mkToken Identifier "x" 1 5; mkToken Separator ";" 1 6;
        mkToken EndOfFile "" 1 8].
Proof. repeat split; vm_compute; reflexivity. Qed.

Lemma endsWithRET_return (v : option Expression) (g : IRGenerator) :
  endsWithRET (generateStatement (ReturnStatement v) g) = true.
Proof.
  cbn [generateStatement]. destruct v as [e |].
  - destruct (generateExpression e g) as [tv g1]. unfold endsWithRET, emplace_back.
    cbn [code]. rewrite last_snoc. reflexivity.
  - unfold endsWithRET, emplace_back. cbn [code]. rewrite last_snoc. reflexivity.
Qed.

(** In a function body the statements after a [return] are not lowered. *)
Lemma generateBody_stops_at_return (pre post : list Statement) (v : option Expression) :
  forall g, generateBody (pre ++ ReturnStatement v :: post) g =
            generateBody (pre ++ [ReturnStatement v]) g.
Proof.
  induction pre as [| s pre IH]; intros g; cbn [app generateBody].
  - rewrite endsWithRET_return. reflexivity.
  - destruct (endsWithRET (generateStatement s g)); [reflexivity | apply IH].
Qed.

(** C5 at the failing input. The loop over a function body stops after a
    statement that leaves a "RET" last, but the loops over the statements of
    a block and over the top-level statements do not: for [{ int x = 1;
    return x; x = 2; }] the assignment after the [return] is lowered to [MOV
    2 "" x], after the "RET". *)
Theorem C5_block_continues_after_return :
  compile "{ int x = 1; return x; x = 2; }" =
    Ok [mkTAC "MOV" "1" "" "x"; mkTAC "RET" "x" "" ""; mkTAC "MOV" "2" "" "x"] /\
  compile "int f() { { int x = 1; return x; x = 2; } }" =
    Ok [mkTAC "LABEL" "" "" "f"; mkTAC "MOV" "1" "" "x"; mkTAC "RET" "x" "" "";
        mkTAC "MOV" "2" "" "x"; mkTAC "RET" "" "" ""] /\
  compile "int f() { int x = 1; return x; x = 2; }" =
    Ok [mkTAC "LABEL" "" "" "f"; mkTAC "MOV" "1" "" "x"; mkTAC "RET" "x" "" ""].
Proof. repeat split; vm_compute; reflexivity. Qed.

(** C9 at the failing input. The lexeme of the character literal with the
    escape sequence, four characters in the source text, is kept without
    the escaped quote: [char c = '\'';] is parsed into a declaration whose
    initializer is the literal of three characters, and tokenizing the
    pretty-printed form of that literal throws. *)
Theorem C9_escaped_character_literal :
  let literal := LiteralExpression (String squote (String backslash (String squote ""))) in
  (tokens <- tokenize (setSource "char c = '\'';") ;; parse tokens) =
    Ok (VariableDeclaration "char" "c" (Some literal)) /\
  tokenize (setSource (Expression_toString literal)) =
    Throw "Expected closing single quote for character literal" /\
  tokenize (setSource "'\''") =
    Ok [mkToken CharacterLiteral (Expression_toString literal) 1 1].
Proof. repeat split; vm_compute; reflexivity. Qed.

(** ** Termination of the lexer

    The loops of the lexer are structural; the loop of [tokenize] runs at
    most once per character. *)

Lemma advance_remaining (lx : Lexer) : remaining (advance lx) = pred (remaining lx).
Proof. destruct lx as [[| c rest] ln col]; reflexivity. Qed.

Lemma advance_le (lx : Lexer) : remaining (advance lx) <= remaining lx.
Proof. rewrite advance_remaining. lia. Qed.

Lemma advance_lt (lx : Lexer) : currentChar lx <> NUL -> remaining (advance lx) < remaining lx.
Proof.
  intros H. destruct (currentChar_source lx H) as [rest Hs].
  rewrite advance_remaining. unfold remaining. rewrite Hs. cbn. lia.
Qed.

Lemma remaining_mk (s : string) (ln col : nat) : remaining (mkLexer s ln col) = String.length s.
Proof. reflexivity. Qed.

Lemma skipWhitespace_le (lx : Lexer) : remaining (skipWhitespace lx) <= remaining lx.
Proof.
  unfold skipWhitespace, remaining at 2. generalize (line lx), (column lx).
  induction (source lx) as [| c rest IH]; intros ln col; cbn [skipWhitespace_from].
  - reflexivity.
  - destruct (isspace c); [| reflexivity].
    specialize (IH (nextLine c ln) (nextColumn c col)). cbn [String.length]. lia.
Qed.

Lemma lineComment_from_le (s : string) :
  forall ln col, remaining (lineComment_from s ln col) <= String.length s.
Proof.
  induction s as [| c rest IH]; intros ln col; cbn [lineComment_from].
  - reflexivity.
  - destruct (negb (c =? LF)%char && negb (c =? NUL)%char); [| reflexivity].
    specialize (IH (nextLine c ln) (nextColumn c col)). cbn [String.length]. lia.
Qed.

Lemma blockComment_from_le (s : string) :
  forall ln col, remaining (blockComment_from s ln col) <= String.length s.
Proof.
  induction s as [| c rest IH]; intros ln col; cbn [blockComment_from].
  - reflexivity.
  - destruct ((c =? "*")%char && (hd_char rest =? "/")%char); [reflexivity |].
    destruct (hd_char rest =? NUL)%char; [cbn; lia |].
    specialize (IH (nextLine c ln) (nextColumn c col)). cbn [String.length]. lia.
Qed.

Lemma skipComment_le (lx : Lexer) : remaining (skipComment lx) <= remaining lx.
Proof.
  unfold skipComment.
  destruct ((currentChar lx =? "/")%char && (peekChar lx =? "/")%char).
  - etransitivity; [apply advance_le |]. apply lineComment_from_le.
  - destruct ((currentChar lx =? "/")%char && (peekChar lx =? "*")%char); [| reflexivity].
    etransitivity; [apply advance_le |]. etransitivity; [apply advance_le|].
    etransitivity; [apply blockComment_from_le |].
    etransitivity; [apply advance_le |]. apply advance_le.
Qed.

Lemma number_from_le (s : string) :
  forall ln col v f, remaining (number_from s ln col v f).2 <= String.length s.
Proof.
  induction s as [| c rest IH]; intros ln col v f; cbn [number_from].
  - reflexivity.
  - destruct (isdigit c || (c =? ".")%char); [| reflexivity].
    destruct ((c =? ".")%char && f); [reflexivity |].
    specialize (IH (nextLine c ln) (nextColumn c col) (push_back v c) (f || (c =? ".")%char)).
    cbn [String.length]. lia.
Qed.

Lemma number_lt (lx : Lexer) :
  isdigit (currentChar lx) = true -> remaining (number lx).2 < remaining lx.
Proof.
  intros Hd. destruct (currentChar_source lx (isdigit_not_NUL _ Hd)) as [rest Hs].
  unfold number, remaining at 2. rewrite Hs. cbn [number_from]. rewrite Hd. cbn [orb].
  rewrite andb_false_r.
  pose proof (number_from_le rest (nextLine (currentChar lx) (line lx))
                (nextColumn (currentChar lx) (column lx)) (push_back "" (currentChar lx))
                (false || (currentChar lx =? ".")%char)) as H.
  destruct (number_from rest _ _ _ _) as [[value isF] lx'].
  cbn [snd String.length] in *. destruct isF; cbn [snd]; lia.
Qed.

Lemma identifier_from_le (n : nat) :
  forall s ln col v, String.length s <= n ->
    remaining (identifier_from s ln col v).2 <= String.length s.
Proof.
  induction n as [| n IH]; intros s ln col v Hlen.
  - destruct s; [reflexivity | cbn in Hlen; lia].
  - destruct s as [| c rest]; cbn [identifier_from]; [reflexivity |].
    destruct (isalnum c || (c =? "_")%char); [| reflexivity].
    assert (remaining (identifier_from rest (nextLine c ln) (nextColumn c col)
                         (push_back v c)).2 <= String.length (String c rest)) as Hrest.
    { etransitivity; [apply IH; cbn in Hlen; lia |]. cbn. lia. }
    destruct rest as [| c1 [| c2 rest2]]; try exact Hrest.
    destruct ((c1 =? ":")%char && (c2 =? ":")%char); [| exact Hrest].
    etransitivity; [apply IH; cbn in Hlen |- *; lia |]. cbn. lia.
Qed.

Lemma isalpha_not_NUL (c : ascii) : isalpha c || (c =? "_")%char = true -> c <> NUL.
Proof. intros H ->. discriminate H. Qed.

Lemma identifierOrKeyword_lt (lx : Lexer) :
  isalpha (currentChar lx) || (currentChar lx =? "_")%char = true ->
  remaining (identifierOrKeyword lx).2 < remaining lx.
Proof.
  intros Ha. destruct (currentChar_source lx (isalpha_not_NUL _ Ha)) as [rest Hs].
  assert (isalnum (currentChar lx) || (currentChar lx =? "_")%char = true) as Hn.
  { unfold isalnum. apply orb_true_iff in Ha as [-> | ->]; [reflexivity |].
    apply orb_true_r. }
  unfold identifierOrKeyword, remaining at 2. rewrite Hs. cbn [identifier_from]. rewrite Hn.
  set (c := currentChar lx).
  assert (forall r ln col v, String.length r <= String.length rest ->
            remaining (identifier_from r ln col v).2 < String.length (String c rest))
    as Hgen.
  { intros r ln col v Hr.
    pose proof (identifier_from_le (String.length r) r ln col v (Nat.le_refl _)).
    cbn [String.length]. lia. }
  assert (forall p : string * Lexer, remaining p.2 < String.length (String c rest) ->
            remaining (match keywords p.1 with
                       | Some ty => (mkToken ty p.1 (line p.2) (column lx), p.2)
                       | None => (mkToken Identifier p.1 (line p.2) (column lx), p.2)
                       end).2 < String.length (String c rest)) as Hkw.
  { intros [v l] H. cbn [fst snd] in *. destruct (keywords v); exact H. }
  destruct rest as [| c1 [| c2 rest2]].
  - destruct (identifier_from "" _ _ _) as [v l] eqn:E. apply (Hkw (v, l)).
    rewrite <- E. apply Hgen. reflexivity.
  - destruct (identifier_from (String c1 "") _ _ _) as [v l] eqn:E. apply (Hkw (v, l)).
    rewrite <- E. apply Hgen. reflexivity.
  - destruct ((c1 =? ":")%char && (c2 =? ":")%char).
    + destruct (identifier_from rest2 _ _ _) as [v l] eqn:E. apply (Hkw (v, l)).
      rewrite <- E. apply Hgen. cbn. lia.
    + destruct (identifier_from (String c1 (String c2 rest2)) _ _ _) as [v l] eqn:E.
      apply (Hkw (v, l)). rewrite <- E. apply Hgen. reflexivity.
Qed.

Lemma string_from_le (n : nat) :
  forall s ln col v, String.length s <= n ->
    remaining (string_from s ln col v).2 <= String.length s.
Proof.
  induction n as [| n IH]; intros s ln col v Hlen.
  - destruct s; [reflexivity | cbn in Hlen; lia].
  - destruct s as [| c rest]; cbn [string_from]; [reflexivity |].
    destruct (negb (c =? dquote)%char && negb (c =? NUL)%char); [| reflexivity].
    destruct rest as [| c2 rest2].
    + cbn. lia.
    + destruct ((c =? backslash)%char && (c2 =? dquote)%char).
      * etransitivity; [apply IH; cbn in Hlen |- *; lia |]. cbn. lia.
      * etransitivity; [apply IH; cbn in Hlen |- *; lia |]. cbn. lia.
Qed.

Lemma stringLiteral_lt (lx : Lexer) :
  currentChar lx <> NUL -> remaining (stringLiteral lx).2 < remaining lx.
Proof.
  intros Hc. unfold stringLiteral.
  pose proof (string_from_le (String.length (source (advance lx))) (source (advance lx))
                (line (advance lx)) (column (advance lx)) (push_back "" (currentChar lx))
                (Nat.le_refl _)) as H.
  destruct (string_from _ _ _ _) as [value lx2]. cbn [snd] in *.
  pose proof (advance_lt lx Hc). pose proof (advance_le lx2).
  unfold remaining in *. lia.
Qed.

Lemma characterLiteral_lt (lx lx' : Lexer) (tok : Token) :
  currentChar lx <> NUL -> characterLiteral lx = Ok (tok, lx') ->
  remaining lx' < remaining lx.
Proof.
  intros Hc. unfold characterLiteral.
  pose proof (advance_lt lx Hc) as H1.
  destruct ((currentChar (advance lx) =? backslash)%char && (peekChar (advance lx) =? squote)%char);
    match goal with |- context [negb ?b] => destruct b end; cbn [negb]; intros H;
    try discriminate H; injection H as _ <-;
    rewrite !advance_remaining in *; lia.
Qed.

Lemma operator_from_le (s : string) :
  forall ln col v, remaining (operator_from s ln col v).2 <= String.length s.
Proof.
  induction s as [| c rest IH]; intros ln col v; cbn [operator_from].
  - reflexivity.
  - destruct (isOperator c); [| reflexivity].
    specialize (IH (nextLine c ln) (nextColumn c col) (push_back v c)).
    destruct (multiCharOperators (push_back v c)) as [second |];
      [| cbn [String.length]; lia].
    destruct rest as [| c2 rest2]; [cbn [String.length] in *; lia |].
    destruct (c2 =? second)%char; cbn [String.length snd] in *; [cbn; lia | lia].
Qed.

Lemma operatorToken_lt (lx : Lexer) :
  isOperator (currentChar lx) = true -> remaining (operatorToken lx).2 < remaining lx.
Proof.
  intros Ho.
  destruct (currentChar_source lx) as [rest Hs]; [intros E; rewrite E in Ho; discriminate Ho |].
  unfold operatorToken, remaining at 2. rewrite Hs. cbn [operator_from]. rewrite Ho.
  set (c := currentChar lx).
  pose proof (operator_from_le rest (nextLine c (line lx)) (nextColumn c (column lx))
                (push_back "" c)) as Hloop.
  destruct (multiCharOperators (push_back "" c)) as [second |].
  - destruct rest as [| c2 rest2].
    + destruct (operator_from "" _ _ _) as [v l]. cbn [snd String.length] in *. lia.
    + destruct (c2 =? second)%char.
      * cbn. lia.
      * destruct (operator_from (String c2 rest2) _ _ _) as [v l].
        cbn [snd String.length] in *. lia.
  - destruct (operator_from rest _ _ _) as [v l]. cbn [snd String.length] in *. lia.
Qed.

Lemma nextToken_returns (lx : Lexer) :
  exists r, nextToken lx = Ok r \/ exists msg, nextToken lx = Throw msg.
Proof.
  unfold nextToken. set (lx1 := skipComment (skipWhitespace lx)).
  repeat match goal with
  | |- context [if ?b then _ else _] => destruct b
  end; try (eexists; left; reflexivity).
  unfold characterLiteral.
  repeat match goal with
  | |- context [if ?b then _ else _] => destruct b
  end; try (eexists; left; reflexivity);
  exists (mkToken EndOfFile "" 0 0, lx); right; eexists; reflexivity.
Qed.

(** A call of [nextToken] that does not yield [EndOfFile] consumes a
    character. *)
Lemma nextToken_progress (lx lx' : Lexer) (tok : Token) :
  nextToken lx = Ok (tok, lx') -> tok_type tok <> EndOfFile ->
  remaining lx' < remaining lx.
Proof.
  unfold nextToken. set (lx1 := skipComment (skipWhitespace lx)).
  assert (remaining lx1 <= remaining lx) as Hskip.
  { etransitivity; [apply skipComment_le | apply skipWhitespace_le]. }
  intros H Heof.
  destruct (isdigit (currentChar lx1)) eqn:Hdigit.
  { pose proof (number_lt lx1 Hdigit). injection H as H. rewrite H in *. cbn [snd] in *. lia. }
  destruct (isalpha (currentChar lx1) || (currentChar lx1 =? "_")%char) eqn:Hident.
  { pose proof (identifierOrKeyword_lt lx1 Hident). injection H as H. rewrite H in *.
    cbn [snd] in *. lia. }
  destruct (currentChar lx1 =? dquote)%char eqn:Hdq.
  { apply Ascii.eqb_eq in Hdq.
    pose proof (stringLiteral_lt lx1 ltac:(rewrite Hdq; discriminate)).
    injection H as H. rewrite H in *. cbn [snd] in *. lia. }
  destruct (currentChar lx1 =? squote)%char eqn:Hsq.
  { apply Ascii.eqb_eq in Hsq.
    pose proof (characterLiteral_lt lx1 lx' tok ltac:(rewrite Hsq; discriminate) H). lia. }
  destruct (isOperator (currentChar lx1)) eqn:Hop.
  { pose proof (operatorToken_lt lx1 Hop). injection H as H. rewrite H in *.
    cbn [snd] in *. lia. }
  destruct (isSeparator (currentChar lx1)) eqn:Hsep.
  { injection H as _ <-.
    pose proof (advance_lt lx1 ltac:(intros E; rewrite E in Hsep; discriminate Hsep)). lia. }
  destruct (currentChar lx1 =? NUL)%char eqn:Hnul.
  { injection H as <- _. cbn in Heof. congruence. }
  injection H as _ <-. apply Ascii.eqb_neq in Hnul.
  pose proof (advance_lt lx1 Hnul). lia.
Qed.

Lemma tokenize_loop_returns (fuel : nat) :
  forall lx acc, remaining lx <= fuel ->
    exists r, tokenize_loop fuel lx acc = Ok r \/ exists msg, tokenize_loop fuel lx acc = Throw msg.
Proof.
  induction fuel as [| fuel IH]; intros lx acc Hlen; cbn [tokenize_loop].
  - unfold remaining in Hlen. destruct (source lx); [| cbn in Hlen; lia].
    exists acc. left. reflexivity.
  - destruct (source lx) eqn:Hs; [exists acc; left; reflexivity |].
    destruct (nextToken_returns lx) as [[tok lx'] [Hn | [msg Hn]]]; rewrite Hn; cbn [bind].
    + destruct (bool_decide (tok_type tok = EndOfFile)) eqn:Heof;
        [eexists; left; reflexivity |].
      apply bool_decide_eq_false in Heof.
      apply IH. pose proof (nextToken_progress lx lx' tok Hn Heof). lia.
    + exists acc. right. exists msg. reflexivity.
Qed.

(** [tokenize] returns a list of tokens or throws, for every text. *)
Theorem tokenize_terminates (lx : Lexer) :
  exists r, tokenize lx = Ok r \/ exists msg, tokenize lx = Throw msg.
Proof. apply tokenize_loop_returns. reflexivity. Qed.

(** ** Termination of the parser

    Every parsing function consumes a token before it calls itself, so the
    bounds that [parseExpression] and [parse] give are never reached. *)

Ltac lengths := cbn [consumes keeps length] in *; lia.

Lemma advanceToken_le (ts : list Token) : length (advanceToken ts) <= length ts.
Proof. destruct ts; cbn; lia. Qed.

Lemma match_nonempty (ty : TokenType) (ts : list Token) :
  ty <> EndOfFile -> match_ ty ts = true -> exists t rest, ts = t :: rest.
Proof.
  intros Hty H. destruct ts as [| t rest]; [| eauto].
  rewrite (match_nil ty Hty) in H. discriminate H.
Qed.

Lemma parsePrimaryExpression_consumes (ts : list Token) :
  consumes ts (parsePrimaryExpression ts).
Proof.
  unfold parsePrimaryExpression. destruct ts as [| t rest].
  - rewrite !match_nil by discriminate. cbn. exact I.
  - repeat match goal with |- context [if ?b then _ else _] => destruct b end;
      cbn; try lia; exact I.
Qed.

Lemma tokenToBinaryOp_nonempty (ts : list Token) (o : BinaryOp) :
  tokenToBinaryOp (currentToken ts) = Ok o -> exists t rest, ts = t :: rest.
Proof. destruct ts as [| t rest]; [discriminate | eauto]. Qed.

Lemma binaryLoop_keeps (self : Z -> list Token -> outcome (Expression * list Token))
    (f : nat) :
  (forall p ts, length ts < f -> consumes ts (self p ts)) ->
  forall n precedence left_ ts, length ts < n -> length ts <= f ->
    keeps ts (binaryLoop self n precedence left_ ts).
Proof.
  intros Hself. induction n as [| n IH]; intros precedence left_ ts Hn Hf; [lia |].
  cbn [binaryLoop].
  destruct (getPrecedence (currentToken ts) <? precedence)%Z; [cbn; lengths |].
  destruct (tokenToBinaryOp (currentToken ts)) as [o | msg | |] eqn:Hop; cbn [bind];
    try exact I; try discriminate Hop.
  - destruct (tokenToBinaryOp_nonempty ts o Hop) as (t & rest & ->).
    cbn [advanceToken currentToken length] in *.
    pose proof (Hself (getPrecedence t + 1)%Z rest ltac:(lia)) as Hright.
    destruct (self (getPrecedence t + 1)%Z rest) as [[right_ ts'] | | |];
      cbn [consumes bind] in *; try exact Hright.
    pose proof (IH precedence (BinaryExpression left_ o right_) ts' ltac:(lia) ltac:(lia))
      as Hloop.
    destruct (binaryLoop self n precedence (BinaryExpression left_ o right_) ts')
      as [[e r] | | |]; cbn [keeps] in *; try exact Hloop. lengths.
  - unfold tokenToBinaryOp in Hop.
    repeat match type of Hop with (if ?b then _ else _) = _ => destruct b end;
      discriminate Hop.
  - unfold tokenToBinaryOp in Hop.
    repeat match type of Hop with (if ?b then _ else _) = _ => destruct b end;
      discriminate Hop.
Qed.

Lemma parseBinaryExpression_consumes (fuel : nat) :
  forall precedence ts, length ts < fuel ->
    consumes ts (parseBinaryExpression fuel precedence ts).
Proof.
  induction fuel as [| fuel IH]; intros precedence ts Hlen; [lia |].
  cbn [parseBinaryExpression].
  pose proof (parsePrimaryExpression_consumes ts) as Hprim.
  destruct (parsePrimaryExpression ts) as [[left_ ts'] | | |]; cbn [consumes bind] in *;
    try exact Hprim.
  pose proof (binaryLoop_keeps (parseBinaryExpression fuel) fuel IH (S (length ts'))
                precedence left_ ts' ltac:(lia) ltac:(lia)) as Hloop.
  destruct (binaryLoop _ _ _ _ _) as [[e r] | | |]; cbn [keeps] in *; try exact Hloop. lengths.
Qed.

Theorem parseExpression_terminates (ts : list Token) : consumes ts (parseExpression ts).
Proof. apply parseBinaryExpression_consumes. lia. Qed.

Lemma parseReturn_consumes (t : Token) (ts : list Token) :
  consumes (t :: ts) (parseReturn (t :: ts)).
Proof.
  unfold parseReturn. cbn [advanceToken].
  pose proof (parseExpression_terminates ts) as He.
  destruct (parseExpression ts) as [[value r] | | |]; cbn [consumes bind] in *;
    try exact He.
  destruct (atSeparator ";" r); cbn [negb]; [| exact I].
  pose proof (advanceToken_le r). lengths.
Qed.

Lemma parseAssignmentOrFunctionCall_consumes (t : Token) (ts : list Token) :
  consumes (t :: ts) (parseAssignmentOrFunctionCall (t :: ts)).
Proof.
  unfold parseAssignmentOrFunctionCall. cbn [advanceToken].
  destruct (atOperator "=" ts).
  - pose proof (parseExpression_terminates (advanceToken ts)) as He.
    destruct (parseExpression (advanceToken ts)) as [[value r] | | |];
      cbn [consumes bind] in *; try exact He.
    destruct (atSeparator ";" r); cbn [negb]; [| exact I].
    pose proof (advanceToken_le r). pose proof (advanceToken_le ts). lengths.
  - destruct (atSeparator "(" ts); exact I.
Qed.

Section Statements.
Variable self : list Token -> outcome (Statement * list Token).
Variable f : nat.
Hypothesis Hself : forall ts, length ts < f -> consumes ts (self ts).

Lemma statementsLoop_keeps (n : nat) :
  forall ts statements, length ts < n -> length ts < f ->
    keeps ts (statementsLoop self n ts statements).
Proof.
  induction n as [| n IH]; intros ts statements Hn Hf; [lia |].
  cbn [statementsLoop]. destruct (atSeparator "}" ts); cbn [negb]; [cbn; lengths |].
  pose proof (Hself ts Hf) as Hs.
  destruct (self ts) as [[stmt ts'] | | |]; cbn [consumes bind] in *; try exact Hs.
  pose proof (IH ts' (statements ++ [stmt]) ltac:(lia) ltac:(lia)) as Hloop.
  destruct (statementsLoop self n ts' (statements ++ [stmt])) as [[l r] | | |];
    cbn [keeps] in *; try exact Hloop. lengths.
Qed.

Lemma parseBlockStatement_consumes (t : Token) (ts : list Token) :
  length (t :: ts) <= f -> consumes (t :: ts) (parseBlockStatement self (t :: ts)).
Proof.
  intros Hlen. unfold parseBlockStatement. cbn [advanceToken length] in *.
  pose proof (statementsLoop_keeps (S (length ts)) ts [] ltac:(lia) ltac:(lia)) as Hloop.
  destruct (statementsLoop self (S (length ts)) ts []) as [[l r] | | |];
    cbn [keeps consumes bind] in *; try exact Hloop.
  pose proof (advanceToken_le r). lengths.
Qed.

Lemma parseIfStatement_consumes (t : Token) (ts : list Token) :
  length (t :: ts) <= f -> consumes (t :: ts) (parseIfStatement self (t :: ts)).
Proof.
  intros Hlen. unfold parseIfStatement. cbn [advanceToken length] in *.
  destruct (atSeparator "(" ts); cbn [negb]; [| exact I].
  pose proof (advanceToken_le ts) as H1.
  pose proof (parseExpression_terminates (advanceToken ts)) as He.
  destruct (parseExpression (advanceToken ts)) as [[condition r] | | |];
    cbn [consumes bind] in *; try exact He.
  destruct (atSeparator ")" r); cbn [negb]; [| exact I].
  pose proof (advanceToken_le r) as H2.
  pose proof (Hself (advanceToken r) ltac:(lia)) as Hthen.
  destruct (self (advanceToken r)) as [[thenBranch r1] | | |];
    cbn [consumes bind] in *; try exact Hthen.
  destruct (match_ Keyword r1 && (tok_value (currentToken r1) =? "else")%string);
    [| cbn; lengths].
  pose proof (advanceToken_le r1) as H3.
  pose proof (Hself (advanceToken r1) ltac:(lia)) as Helse.
  destruct (self (advanceToken r1)) as [[elseBranch r2] | | |];
    cbn [consumes bind] in *; try exact Helse. lengths.
Qed.

Lemma parametersLoop_keeps (ts : list Token) : keeps ts (parametersLoop ts []).
Proof.
  pose proof (parametersLoop_spec (length ts) ts [] (Nat.le_refl _)) as Hspec.
  destruct (parametersLoop ts []) as [[ps rest] | | |]; cbn [keeps]; try exact Hspec.
  destruct Hspec as (consumed & accepted & -> & _). rewrite length_app. lia.
Qed.

Lemma parseFunctionDeclaration_consumes (returnType name : string) (t : Token)
    (ts : list Token) :
  length (t :: ts) <= f ->
  consumes (t :: ts) (parseFunctionDeclaration self returnType name (t :: ts)).
Proof.
  intros Hlen. unfold parseFunctionDeclaration. cbn [advanceToken length] in *.
  pose proof (parametersLoop_keeps ts) as Hp.
  destruct (parametersLoop ts []) as [[parameters r] | | |]; cbn [keeps bind] in *;
    try exact Hp.
  destruct (atSeparator ")" r); cbn [negb]; [| exact I].
  pose proof (advanceToken_le r) as H1.
  destruct (atSeparator "{" (advanceToken r)); cbn [negb]; [| exact I].
  pose proof (advanceToken_le (advanceToken r)) as H2.
  set (ts4 := advanceToken (advanceToken r)) in *.
  pose proof (statementsLoop_keeps (S (length ts4)) ts4 [] ltac:(lia) ltac:(lia)) as Hloop.
  destruct (statementsLoop self (S (length ts4)) ts4 []) as [[body r'] | | |];
    cbn [keeps consumes bind] in *; try exact Hloop.
  pose proof (advanceToken_le r'). lengths.
Qed.

Lemma parseVariableDeclaration_consumes (t : Token) (ts : list Token) :
  length (t :: ts) <= f -> consumes (t :: ts) (parseVariableDeclaration self (t :: ts)).
Proof.
  intros Hlen. unfold parseVariableDeclaration. cbn [advanceToken].
  destruct (match_ Identifier ts) eqn:Hid; cbn [negb]; [| exact I].
  destruct (match_nonempty Identifier ts ltac:(discriminate) Hid) as (nm & ts2 & ->).
  cbn [advanceToken length] in *.
  destruct (atSeparator "(" ts2) eqn:Hparen.
  - destruct (atSeparator_true _ _ Hparen) as (lp & ts3 & -> & _).
    pose proof (parseFunctionDeclaration_consumes (tok_value t) (tok_value nm) lp ts3
                  ltac:(cbn [length] in *; lia)) as Hfun.
    destruct (parseFunctionDeclaration self _ _ _) as [[s r] | | |];
      cbn [consumes length] in *; try exact Hfun. lengths.
  - assert (keeps ts2 (if atOperator "=" ts2
                       then bind (parseExpression (advanceToken ts2))
                              (fun '(e, ts) => Ok (Some e, ts))
                       else Ok (None, ts2))) as Hinit.
    { destruct (atOperator "=" ts2); [| cbn; lengths].
      pose proof (parseExpression_terminates (advanceToken ts2)) as He.
      pose proof (advanceToken_le ts2).
      destruct (parseExpression (advanceToken ts2)) as [[e r] | | |];
        cbn [consumes keeps bind] in *; try exact He. lengths. }
    destruct (if atOperator "=" ts2 then _ else _) as [[initializer r] | | |];
      cbn [keeps bind] in *; try exact Hinit.
    destruct (atSeparator ";" r); cbn [negb]; [| exact I].
    pose proof (advanceToken_le r). cbn [consumes]. lengths.
Qed.
End Statements.

Lemma parseStatement_consumes (fuel : nat) :
  forall ts, length ts < fuel -> consumes ts (parseStatement fuel ts).
Proof.
  induction fuel as [| fuel IH]; intros ts Hlen; [lia |].
  cbn [parseStatement].
  destruct (atSeparator "{" ts) eqn:Hblock.
  { destruct (atSeparator_true _ _ Hblock) as (t & rest & -> & _).
    apply (parseBlockStatement_consumes _ fuel IH). lia. }
  destruct (match_ Keyword ts) eqn:Hkw.
  - destruct (match_nonempty Keyword ts ltac:(discriminate) Hkw) as (t & rest & ->).
    destruct ((tok_value (currentToken (t :: rest)) =? "int")%string || _ || _ || _).
    { apply (parseVariableDeclaration_consumes _ fuel IH). lia. }
    destruct (tok_value (currentToken (t :: rest)) =? "return")%string.
    { apply parseReturn_consumes. }
    destruct (tok_value (currentToken (t :: rest)) =? "if")%string; [| exact I].
    apply (parseIfStatement_consumes _ fuel IH). lia.
  - destruct (match_ Identifier ts) eqn:Hid; [| exact I].
    destruct (match_nonempty Identifier ts ltac:(discriminate) Hid) as (t & rest & ->).
    apply parseAssignmentOrFunctionCall_consumes.
Qed.

Lemma bind_returns {A B : Type} (m : outcome A) (k : A -> outcome B) :
  returns m -> (forall a, m = Ok a -> returns (k a)) -> returns (bind m k).
Proof.
  unfold returns. intros Hm Hk. destruct m as [a | msg | |]; cbn [bind];
    [apply Hk; reflexivity | discriminate | discriminate | congruence].
Qed.

Lemma lookupVariable_returns (name : string) (st : SymbolTable) :
  returns (lookupVariable name st).
Proof. unfold returns, lookupVariable. destruct (st !! name); discriminate. Qed.

Lemma getType_returns (e : Expression) (st : SymbolTable) : returns (getType e st).
Proof.
  induction e as [l IHl o r IHr | v | x]; cbn [getType].
  - apply bind_returns; [exact IHl |]. intros L _.
    apply bind_returns; [exact IHr |]. intros R _. unfold returns.
    repeat match goal with |- context [if ?b then _ else _] => destruct b end; discriminate.
  - discriminate.
  - apply lookupVariable_returns.
Qed.

Lemma checkExpression_returns (e : Expression) (st : SymbolTable) :
  returns (checkExpression e st).
Proof.
  induction e as [l IHl o r IHr | v | x]; cbn [checkExpression].
  - apply bind_returns; [exact IHl |]. intros _ _. exact IHr.
  - discriminate.
  - apply bind_returns; [apply lookupVariable_returns |]. intros _ _. discriminate.
Qed.

Lemma promote_returns (valueType type : string) : returns (promote valueType type).
Proof.
  unfold returns, promote.
  repeat match goal with |- context [if ?b then _ else _] => destruct b end; discriminate.
Qed.

Lemma checkSemantics_returns (s : Statement) :
  forall st, returns (checkSemantics s st).
Proof.
  induction s as [l IH | t n i | n v | v | rt n ps body IH | c t e IHt IHe]
    using Statement_induction; intros st; cbn [checkSemantics].
  - revert st. induction IH as [| s l Hs _ IHl]; intros st; [discriminate |].
    apply bind_returns; [apply Hs |]. intros st' _. apply IHl.
  - apply bind_returns.
    { unfold returns, declareVariable. destruct (st !! n); discriminate. }
    intros st' _. destruct i as [e |]; [| discriminate].
    apply bind_returns; [apply checkExpression_returns |]. intros _ _.
    apply bind_returns; [apply getType_returns |]. intros T _.
    apply bind_returns; [apply promote_returns |]. intros T' _. unfold returns.
    destruct (negb (T' =? t)%string); discriminate.
  - apply bind_returns; [apply checkExpression_returns |]. intros _ _.
    apply bind_returns; [apply lookupVariable_returns |]. intros D _.
    apply bind_returns; [apply getType_returns |]. intros T _.
    apply bind_returns; [apply promote_returns |]. intros T' _. unfold returns.
    destruct (negb (D =? T')%string); discriminate.
  - destruct v as [e |]; [| discriminate].
    apply bind_returns; [apply checkExpression_returns |]. intros _ _. discriminate.
  - assert (forall st,
              returns ((fix each (l : list Statement) (symTable : SymbolTable) :=
                          match l with
                          | [] => Ok symTable
                          | s :: l' => symTable' <- checkSemantics s symTable ;; each l' symTable'
                          end) body st)) as Hbody.
    { induction IH as [| s l Hs _ IHl]; intros st'; [discriminate |].
      apply bind_returns; [apply Hs |]. intros st'' _. apply IHl. }
    specialize (Hbody st). unfold returns, noexcept in *.
    match goal with |- match ?m with _ => _ end <> _ => destruct m end;
      congruence.
  - apply bind_returns; [apply checkExpression_returns |]. intros _ _.
    apply bind_returns; [apply getType_returns |]. intros T _.
    destruct (negb (T =? "int")%string && negb (T =? "bool")%string); [discriminate |].
    apply bind_returns; [apply IHt |]. intros st' _.
    destruct e as [s |]; [apply IHe | discriminate].
Qed.

(** [parse] returns a statement or fails with an error, for every list of
    tokens. *)
Theorem parse_terminates (tokens : list Token) : returns (parse tokens).
Proof.
  unfold parse.
  pose proof (parseStatement_consumes (S (length tokens)) tokens ltac:(lia)) as Hp.
  destruct (parseStatement (S (length tokens)) tokens) as [[ast r] | | |];
    cbn [consumes bind] in *; try contradiction; try discriminate.
  apply bind_returns; [apply checkSemantics_returns |]. intros _ _. discriminate.
Qed.

(** X21. [compile] returns the instructions or fails with an error, for
    every source text: the loop of [tokenize] and the recursion of the
    parser come to an end within one iteration per character and one level
    per token. *)
Theorem compile_terminates (sourceCode : string) : returns (compile sourceCode).
Proof.
  unfold compile.
  destruct (tokenize_terminates (setSource sourceCode)) as [toks [H | [msg H]]]; rewrite H;
    cbn [bind]; [| discriminate].
  apply bind_returns; [apply parse_terminates |]. intros ast _. discriminate.
Qed.

(** * Further properties of the code *)

(** ** The symbol table and the semantic checks *)

(** X1. A declaration that succeeds is found by the next lookup with its
    type, leaves every other name as it was, was made for a name that no
    lookup found before, and cannot be repeated: a second declaration of the
    name throws "already declared", whatever its type. *)
Theorem declareVariable_then_lookup (name type : string) (st st' : SymbolTable) :
  declareVariable name type st = Ok st' ->
  lookupVariable name st' = Ok type /\
  (forall other, other <> name -> lookupVariable other st' = lookupVariable other st) /\
  lookupVariable name st = Throw ("Variable '" +:+ name +:+ "' is not declared") /\
  (forall type', declareVariable name type' st' =
                 Throw ("Variable '" +:+ name +:+ "' is already declared")).
Proof.
  unfold declareVariable, lookupVariable. destruct (st !! name) eqn:Hname; [discriminate |].
  intros H. injection H as <-. rewrite lookup_insert_eq.
  split; [reflexivity |]. split; [| split; [reflexivity | reflexivity]].
  intros other Hother. rewrite lookup_insert_ne by congruence. reflexivity.
Qed.

Lemma declareVariable_then_lookup_witness :
  declareVariable "x" "int" ∅ = Ok (<["x" := "int"]> ∅) /\
  lookupVariable "x" (<["x" := "int"]> ∅) = Ok "int".
Proof.
  split; [reflexivity |].
  exact (proj1 (declareVariable_then_lookup "x" "int" ∅ (<["x" := "int"]> ∅) eq_refl)).
Defined.







Lemma Literal_getType_cases (v : string) :
  In (Literal_getType v) ["char"; "std::string"; "float"; "int"].
Proof.
  unfold Literal_getType.
  destruct (isCharacterLiteral v); [cbn; auto |].
  destruct (isStringLiteral v); [cbn; auto |].
  destruct (isFloatingPointLiteral v); cbn; auto.
Qed.

(** X3. Typing and checking of expressions agree on declarations: an
    expression that has a type passes the check; an expression that passes
    the check either has a type or makes [getType] throw "Type mismatch in
    binary expression" for two different operand types, never "not
    declared"; and the type is "bool", the type of a literal, or the
    declared type of one of its variables. *)
Theorem getType_and_checkExpression :
  (forall e st T, getType e st = Ok T -> checkExpression e st = Ok tt) /\
  (forall e st, checkExpression e st = Ok tt ->
     (exists T, getType e st = Ok T) \/
     (exists L o R, L <> R /\
        getType e st = Throw ("Type mismatch in binary expression: " +:+ L +:+ " " +:+
                              opToString o +:+ " " +:+ R))) /\
  (forall e (st : SymbolTable) T, getType e st = Ok T ->
     In T ["bool"; "char"; "std::string"; "float"; "int"] \/
     exists x, In x (variables e) /\ st !! x = Some T).
Proof.
  split; [| split].
  - intros e st. induction e as [l IHl o r IHr | v | x]; intros T; cbn [getType checkExpression].
    + destruct (getType l st) as [L | | |]; cbn [bind]; try discriminate.
      destruct (getType r st) as [R | | |]; cbn [bind]; try discriminate.
      intros _. rewrite (IHl L eq_refl). cbn [bind]. apply (IHr R eq_refl).
    + reflexivity.
    + intros ->. reflexivity.
  - intros e st. induction e as [l IHl o r IHr | v | x]; cbn [checkExpression]; intros H.
    + destruct (checkExpression l st) as [[] | | |]; cbn [bind] in H; try discriminate.
      destruct (IHl eq_refl) as [[L HL] | (L1 & o1 & R1 & Hne & HL)].
      * destruct (IHr H) as [[R HR] | (L1 & o1 & R1 & Hne & HR)].
        -- rewrite (getType_binary l r o st L R HL HR). unfold binaryTypeRule.
           repeat case_decide; try (left; eexists; reflexivity).
           right. exists L, o, R. split; [assumption | reflexivity].
        -- right. exists L1, o1, R1. split; [exact Hne |]. cbn [getType].
           rewrite HL, HR. reflexivity.
      * right. exists L1, o1, R1. split; [exact Hne |]. cbn [getType]. rewrite HL. reflexivity.
    + left. eexists. reflexivity.
    + left. cbn [getType]. destruct (lookupVariable x st) as [T | | |]; cbn [bind] in H;
        try discriminate. exists T. reflexivity.
  - intros e st. induction e as [l IHl o r IHr | v | x]; intros T; cbn [getType variables].
    + destruct (getType l st) as [L | | |] eqn:HL; cbn [bind]; try discriminate.
      destruct (getType r st) as [R | | |] eqn:HR; cbn [bind]; try discriminate.
      destruct (bool_decide (o = And) || bool_decide (o = Or));
        [intros H; injection H as <-; left; cbn; auto |].
      match goal with |- context [if ?b then _ else _] => destruct b end;
        [intros H; injection H as <-; left; cbn; auto |].
      destruct (negb (L =? R)%string); [discriminate |].
      intros H. injection H as <-.
      destruct (IHl L eq_refl) as [Hin | (x & Hx & Hst)]; [left; exact Hin |].
      right. exists x. rewrite in_app_iff. auto.
    + intros H. injection H as <-. left.
      pose proof (Literal_getType_cases v) as Hc. cbn in Hc |- *. tauto.
    + unfold lookupVariable. destruct (st !! x) as [t |] eqn:Hx; [| discriminate].
      intros H. injection H as <-. right. exists x. split; [left; reflexivity | exact Hx].
Qed.

Lemma getType_and_checkExpression_witness :
  let st : SymbolTable := <["s" := "std::string"]> ∅ in
  let e := BinaryExpression (VariableExpression "s") Add (LiteralExpression "1") in
  checkExpression e st = Ok tt /\
  ((exists T, getType e st = Ok T) \/
   (exists L o R, L <> R /\
      getType e st = Throw ("Type mismatch in binary expression: " +:+ L +:+ " " +:+
                            opToString o +:+ " " +:+ R))).
Proof.
  intros st e. split; [reflexivity |].
  exact (proj1 (proj2 getType_and_checkExpression) e st eq_refl).
Defined.

(** X4. [FunctionDeclaration::checkSemantics] is [noexcept]: the check of a
    function succeeds exactly when the check of its body as a block does,
    with the same table, but an error that the body throws ends the program
    through [std::terminate]; the check of a function never throws. *)
Theorem function_check_never_throws (returnType name : string)
    (parameters : list string) (body : list Statement) (st : SymbolTable) :
  let f := FunctionDeclaration returnType name parameters body in
  (forall st', checkSemantics f st = Ok st' <->
               checkSemantics (BlockStatement body) st = Ok st') /\
  (forall msg, checkSemantics (BlockStatement body) st = Throw msg ->
               checkSemantics f st = Terminate) /\
  (forall msg, checkSemantics f st <> Throw msg).
Proof.
  intros f.
  assert (checkSemantics f st = noexcept (checkSemantics (BlockStatement body) st)) as ->
    by reflexivity.
  destruct (checkSemantics (BlockStatement body) st) as [st1 | msg1 | |]; cbn [noexcept];
    split; try split; intros; try split; intros; try congruence; try discriminate.
Qed.

Lemma function_check_never_throws_witness :
  checkSemantics (BlockStatement [AssignmentStatement "x" (LiteralExpression "1")]) ∅ =
    Throw "Variable 'x' is not declared" /\
  checkSemantics (FunctionDeclaration "int" "f" []
                    [AssignmentStatement "x" (LiteralExpression "1")]) ∅ = Terminate.
Proof.
  split; [reflexivity |].
  exact (proj1 (proj2 (function_check_never_throws "int" "f" []
                         [AssignmentStatement "x" (LiteralExpression "1")] ∅))
           "Variable 'x' is not declared" eq_refl).
Defined.

(** X5. The condition of an [if] is typed like any expression: a logical
    operator over operands that have types is always accepted as a
    condition, while an arithmetic or comparison operator whose operands
    have the same type other than "int" and "bool", or one "int" and one
    "float" operand, is rejected with "Condition in 'if' statement must be
    of type int or bool"; so two [float] variables cannot be compared in a
    condition. *)
Theorem if_condition_of_binary_expression (l r : Expression) (o : BinaryOp)
    (thenBranch : Statement) (elseBranch : option Statement) (st : SymbolTable)
    (L R : string) :
  getType l st = Ok L -> getType r st = Ok R ->
  (o = And \/ o = Or ->
     checkSemantics (IfStatement (BinaryExpression l o r) thenBranch elseBranch) st =
       (st1 <- checkSemantics thenBranch st ;;
        match elseBranch with
        | Some e => checkSemantics e st1
        | None => Ok st1
        end)) /\
  (o <> And -> o <> Or ->
     (L = R /\ L <> "int" /\ L <> "bool") \/ (L = "int" /\ R = "float") \/
     (L = "float" /\ R = "int") ->
     checkSemantics (IfStatement (BinaryExpression l o r) thenBranch elseBranch) st =
       Throw "Condition in 'if' statement must be of type int or bool").
Proof.
  intros HL HR.
  pose proof (proj1 getType_and_checkExpression l st L HL) as Hcl.
  pose proof (proj1 getType_and_checkExpression r st R HR) as Hcr.
  assert (checkExpression (BinaryExpression l o r) st = Ok tt) as Hc.
  { cbn [checkExpression]. rewrite Hcl. exact Hcr. }
  split.
  - intros Ho. cbn [checkSemantics]. rewrite Hc. cbn [bind].
    rewrite (getType_binary l r o st L R HL HR). unfold binaryTypeRule.
    rewrite decide_True by exact Ho. reflexivity.
  - intros Ho1 Ho2 Hty. cbn [checkSemantics]. rewrite Hc. cbn [bind].
    rewrite (getType_binary l r o st L R HL HR). unfold binaryTypeRule.
    rewrite decide_False by tauto.
    destruct Hty as [(-> & Hi & Hb) | [(-> & ->) | (-> & ->)]].
    + rewrite decide_False by (intros [[? ?] | [? ?]]; congruence).
      rewrite decide_True by reflexivity. cbn [bind].
      rewrite !eqb_decide, !bool_decide_eq_false_2 by assumption. reflexivity.
    + reflexivity.
    + reflexivity.
Qed.

Lemma if_condition_of_binary_expression_witness :
  let st : SymbolTable := <["a" := "float"]> (<["b" := "float"]> ∅) in
  getType (VariableExpression "a") st = Ok "float" /\
  getType (VariableExpression "b") st = Ok "float" /\
  checkSemantics (IfStatement
                    (BinaryExpression (VariableExpression "a") LessThan (VariableExpression "b"))
                    (BlockStatement []) None) st =
    Throw "Condition in 'if' statement must be of type int or bool".
Proof.
  intros st. split; [reflexivity |]. split; [reflexivity |].
  refine (proj2 (if_condition_of_binary_expression (VariableExpression "a")
                   (VariableExpression "b") LessThan (BlockStatement []) None st
                   "float" "float" eq_refl eq_refl) _ _ _); try discriminate.
  left. repeat split; discriminate.
Defined.

(** ** The generator *)

Lemma last_app_one {A : Type} (l : list A) (a : A) : last (l ++ [a]) = Some a.
Proof. apply last_snoc. Qed.

(** X6. Lowering an expression with [k] binary operators appends exactly
    [k] instructions, all of them binary-operator instructions, and takes
    exactly [k] temporaries. A literal or a variable yields its spelling and
    no instruction; a binary expression yields the temporary taken last,
    which is the result of the last instruction appended, whose [op] is the
    symbol of its operator. *)
Theorem generateExpression_operators (e : Expression) (g : IRGenerator) :
  let r := (generateExpression e g).1 in
  let g' := (generateExpression e g).2 in
  tempVarCount g' = tempVarCount g + operators e /\
  exists l, code g' = code g ++ l /\ length l = operators e /\
    Forall isBinaryInstruction l /\
    match e with
    | BinaryExpression _ o _ =>
        r = tempName (tempVarCount g' - 1) /\
        exists a b, last l = Some (mkTAC (opToString o) a b r)
    | LiteralExpression v => r = v
    | VariableExpression x => r = x
    end.
Proof.
  revert g. induction e as [l IHl o r IHr | v | x]; intros g; cbn zeta;
    cbn [generateExpression operators].
  - destruct (IHl g) as (C1 & l1 & E1 & N1 & B1 & _).
    destruct (generateExpression l g) as [lv g1]. cbn [fst snd] in *.
    destruct (IHr g1) as (C2 & l2 & E2 & N2 & B2 & _).
    destruct (generateExpression r g1) as [rv g2]. cbn [fst snd] in *.
    rewrite getNewTempVar_tempName. cbn [fst snd emplace_back code tempVarCount].
    split; [lia |].
    exists (l1 ++ l2 ++ [mkTAC (opToString o) lv rv (tempName (tempVarCount g2))]).
    split; [rewrite E2, E1, <- !app_assoc; reflexivity |].
    split; [rewrite !length_app; cbn [length]; lia |].
    split.
    { apply Forall_app. split; [exact B1 |]. apply Forall_app. split; [exact B2 |].
      constructor; [exists o; reflexivity | constructor]. }
    split; [f_equal; lia |].
    exists lv, rv. rewrite !app_assoc. apply last_snoc.
  - cbn [fst snd]. split; [lia |]. exists []. rewrite app_nil_r.
    split; [reflexivity |]. split; [reflexivity |]. split; [constructor | reflexivity].
  - cbn [fst snd]. split; [lia |]. exists []. rewrite app_nil_r.
    split; [reflexivity |]. split; [reflexivity |]. split; [constructor | reflexivity].
Qed.

Lemma endsWithRET_generateBody (body : list Statement) :
  forall g, endsWithRET (generateBody body g) = true.
Proof.
  induction body as [| s l IH]; intros g; cbn [generateBody].
  - destruct (endsWithRET g) eqn:H; [exact H |].
    unfold endsWithRET, emplace_back. cbn [code]. rewrite last_snoc. reflexivity.
  - destruct (endsWithRET (generateStatement s g)) eqn:H; [exact H | apply IH].
Qed.

(** X7. The instructions of a function declaration start with [LABEL "" ""
    name] and the list ends with a "RET" instruction, whatever the body is
    and whatever was emitted before; an empty body gives the label and a
    bare "RET". *)
Theorem function_lowering_label_and_ret (returnType name : string)
    (parameters : list string) (body : list Statement) (g : IRGenerator) :
  let g' := generateStatement (FunctionDeclaration returnType name parameters body) g in
  (exists l, code g' = code g ++ mkTAC "LABEL" "" "" name :: l) /\
  (exists i, last (code g') = Some i /\ op i = "RET") /\
  (body = [] -> code g' = code g ++ [mkTAC "LABEL" "" "" name; mkTAC "RET" "" "" ""]).
Proof.
  intros g'. subst g'. split; [| split].
  - destruct (generateStatement_appends
                (FunctionDeclaration returnType name parameters body) g) as [l0 H0].
    rewrite generateStatement_function in *.
    assert (forall g1, exists l, code (generateBody body g1) = code g1 ++ l) as Hbody.
    { clear. induction body as [| s l IH]; intros g1; cbn [generateBody].
      - destruct (endsWithRET g1); [exists []; rewrite app_nil_r; reflexivity |].
        eexists. reflexivity.
      - destruct (generateStatement_appends s g1) as [l1 H1].
        destruct (endsWithRET (generateStatement s g1)); [exists l1; exact H1 |].
        destruct (IH (generateStatement s g1)) as [l2 H2].
        exists (l1 ++ l2). rewrite H2, H1, app_assoc. reflexivity. }
    destruct (Hbody (emplace_back (mkTAC "LABEL" "" "" name) g)) as [l H].
    exists l. rewrite H. cbn [emplace_back code]. rewrite <- app_assoc. reflexivity.
  - rewrite generateStatement_function.
    pose proof (endsWithRET_generateBody body (emplace_back (mkTAC "LABEL" "" "" name) g))
      as H.
    unfold endsWithRET in H.
    destruct (last (code (generateBody body (emplace_back (mkTAC "LABEL" "" "" name) g))))
      as [i |]; [| discriminate].
    exists i. split; [reflexivity |]. apply String.eqb_eq. exact H.
  - intros ->. rewrite generateStatement_function. cbn [generateBody].
    unfold endsWithRET. cbn [emplace_back code]. rewrite last_snoc.
    cbn [op String.eqb Ascii.eqb Bool.eqb emplace_back code].
    rewrite <- app_assoc. reflexivity.
Qed.

Lemma function_lowering_label_and_ret_witness :
  code (generateStatement (FunctionDeclaration "int" "main" [] []) newIRGenerator) =
    [mkTAC "LABEL" "" "" "main"; mkTAC "RET" "" "" ""].
Proof.
  exact (proj2 (proj2 (function_lowering_label_and_ret "int" "main" [] [] newIRGenerator))
           eq_refl).
Defined.

Lemma generateStatements_app (l1 l2 : list Statement) (g : IRGenerator) :
  generateStatements (l1 ++ l2) g = generateStatements l2 (generateStatements l1 g).
Proof. unfold generateStatements. apply fold_left_app. Qed.

(** X8. Blocks only group: the special case of [generateCode] for a block
    root gives what [generateStatement] gives for it, the statements of a
    block are lowered one after the other so that a block of two lists is
    the first list and then the second, and a block around a single
    statement is that statement. *)
Theorem block_lowering_is_concatenation :
  (forall ast g, generateCode ast g = generateStatement ast g) /\
  (forall l1 l2 g,
     generateStatement (BlockStatement (l1 ++ l2)) g =
     generateStatement (BlockStatement l2) (generateStatement (BlockStatement l1) g)) /\
  (forall s g, generateStatement (BlockStatement [s]) g = generateStatement s g) /\
  (forall l g, generateStatement (BlockStatement [BlockStatement l]) g =
               generateStatement (BlockStatement l) g).
Proof.
  split; [| split; [| split]].
  - intros ast g. destruct ast; reflexivity.
  - intros l1 l2 g. rewrite !generateStatement_block. apply generateStatements_app.
  - intros s g. reflexivity.
  - intros l g. reflexivity.
Qed.

Lemma countIf_app (f : TACInstruction -> bool) (a b : list TACInstruction) :
  countIf f (a ++ b) = countIf f a + countIf f b.
Proof. unfold countIf. rewrite List.filter_app, length_app. reflexivity. Qed.

Lemma countIf_none (f : TACInstruction -> bool) (l : list TACInstruction) :
  Forall (fun i => f i = false) l -> countIf f l = 0.
Proof.
  unfold countIf. induction 1 as [| i l Hi _ IH]; [reflexivity |].
  cbn [List.filter]. rewrite Hi. exact IH.
Qed.

Lemma countIf_cons (f : TACInstruction -> bool) (i : TACInstruction)
    (l : list TACInstruction) :
  countIf f (i :: l) = (if f i then 1 else 0) + countIf f l.
Proof. unfold countIf. cbn [List.filter]. destruct (f i); reflexivity. Qed.

Lemma countIf_nil (f : TACInstruction -> bool) : countIf f [] = 0.
Proof. reflexivity. Qed.

Ltac count_instructions :=
  rewrite ?countIf_app, ?countIf_cons, ?countIf_nil;
  cbn [hasOp isLabel op result String.eqb Ascii.eqb Bool.eqb andb].

Lemma balanced_weaken (P Q : Prop) (l : list TACInstruction) :
  (Q -> P) -> balanced P l -> balanced Q l.
Proof. intros H [B1 B2]. split; [exact B1 |]. intros HQ. apply B2, H, HQ. Qed.

Lemma balanced_if (labels : Prop) (l1 l2 l3 : list TACInstruction) (cv : string) :
  balanced labels l1 -> balanced labels l2 -> balanced labels l3 ->
  balanced labels (l1 ++ [mkTAC "IF_FALSE" cv "" "L1"] ++ l2 ++
                   [mkTAC "GOTO" "" "" "L2"; mkTAC "LABEL" "" "" "L1"] ++ l3 ++
                   [mkTAC "LABEL" "" "" "L2"]).
Proof.
  intros [A1 A2] [B1 B2] [C1 C2]. unfold balanced. count_instructions.
  split; [lia |]. intros H. specialize (A2 H). specialize (B2 H). specialize (C2 H). lia.
Qed.

Lemma balanced_function_label (name : string) :
  balanced (notIfLabel name) [mkTAC "LABEL" "" "" name].
Proof.
  unfold balanced. count_instructions. split; [reflexivity |]. intros [H1 H2].
  rewrite !eqb_decide, !bool_decide_eq_false_2 by assumption. split; reflexivity.
Qed.

Lemma balanced_plain (labels : Prop) (o a r : string) :
  hasOp "IF_FALSE" (mkTAC o a "" r) = false -> hasOp "GOTO" (mkTAC o a "" r) = false ->
  isLabel "L1" (mkTAC o a "" r) = false -> isLabel "L2" (mkTAC o a "" r) = false ->
  balanced labels [mkTAC o a "" r].
Proof.
  intros H1 H2 H3 H4. unfold balanced. rewrite !countIf_cons, !countIf_nil, H1, H2, H3, H4.
  split; [reflexivity |]. intros _. split; reflexivity.
Qed.

Lemma balanced_app (labels : Prop) (a b : list TACInstruction) :
  balanced labels a -> balanced labels b -> balanced labels (a ++ b).
Proof.
  unfold balanced. intros [Ha1 Ha2] [Hb1 Hb2]. rewrite !countIf_app.
  split; [lia |]. intros H. specialize (Ha2 H). specialize (Hb2 H). lia.
Qed.

Lemma balanced_nil (labels : Prop) : balanced labels [].
Proof. split; [reflexivity |]. intros _. split; reflexivity. Qed.

Lemma balanced_binary (labels : Prop) (l : list TACInstruction) :
  Forall isBinaryInstruction l -> balanced labels l.
Proof.
  intros H.
  assert (forall f, (forall o a b r, f (mkTAC (opToString o) a b r) = false) ->
                    countIf f l = 0) as Hzero.
  { intros f Hf. apply countIf_none. eapply Forall_impl; [exact H |].
    intros [o' a b r] [o Ho]. cbn in Ho. subst o'. apply Hf. }
  unfold balanced.
  rewrite !Hzero; try (intros o a b r; destruct o; reflexivity).
  split; [reflexivity |]. intros _. split; reflexivity.
Qed.

Lemma generateExpression_binary (e : Expression) :
  forall g, exists l, code (generateExpression e g).2 = code g ++ l /\
    Forall isBinaryInstruction l /\
    tempVarCount g <= tempVarCount (generateExpression e g).2.
Proof.
  induction e as [l IHl o r IHr | v | x]; intros g; cbn [generateExpression].
  - destruct (IHl g) as (l1 & E1 & B1 & C1).
    destruct (generateExpression l g) as [lv g1]. cbn [fst snd] in *.
    destruct (IHr g1) as (l2 & E2 & B2 & C2).
    destruct (generateExpression r g1) as [rv g2]. cbn [fst snd] in *.
    rewrite getNewTempVar_tempName. cbn [fst snd emplace_back code tempVarCount].
    exists (l1 ++ l2 ++ [mkTAC (opToString o) lv rv (tempName (tempVarCount g2))]).
    split; [rewrite E2, E1, <- !app_assoc; reflexivity |]. split; [| lia].
    apply Forall_app. split; [exact B1 |]. apply Forall_app. split; [exact B2 |].
    constructor; [exists o; reflexivity | constructor].
  - exists []. cbn [fst snd]. rewrite app_nil_r. split; [reflexivity |]. split; [constructor | lia].
  - exists []. cbn [fst snd]. rewrite app_nil_r. split; [reflexivity |]. split; [constructor | lia].
Qed.

(** An expression followed by one instruction of a statement that is no
    part of an [if]. *)
Lemma balanced_expression_then (labels : Prop) (e : Expression) (g : IRGenerator)
    (o r : string) :
  hasOp "IF_FALSE" (mkTAC o "" "" r) = false -> hasOp "GOTO" (mkTAC o "" "" r) = false ->
  isLabel "L1" (mkTAC o "" "" r) = false -> isLabel "L2" (mkTAC o "" "" r) = false ->
  exists l,
    code (emplace_back (mkTAC o (generateExpression e g).1 "" r) (generateExpression e g).2) =
      code g ++ l /\
    balanced labels l /\ tempVarCount g <= tempVarCount (generateExpression e g).2.
Proof.
  intros H1 H2 H3 H4. destruct (generateExpression_binary e g) as (l & E & B & C).
  exists (l ++ [mkTAC o (generateExpression e g).1 "" r]). cbn [emplace_back code].
  split; [rewrite E, app_assoc; reflexivity |]. split; [| exact C].
  apply balanced_app; [apply balanced_binary, B |].
  apply balanced_plain; assumption.
Qed.

Lemma generateStatement_extends (s : Statement) :
  forall g, exists l, code (generateStatement s g) = code g ++ l /\
    tempVarCount g <= tempVarCount (generateStatement s g) /\
    balanced (Forall notIfLabel (functionNames s)) l.
Proof.
  induction s as [l IH | t n i | n v | v | rt n ps body IH | c t e IHt IHe]
    using Statement_induction; intros g; cbn [functionNames].
  - rewrite generateStatement_block. unfold generateStatements.
    revert g. induction IH as [| s l Hs _ IHl]; intros g; cbn [fold_left flat_map].
    + exists []. rewrite app_nil_r. split; [reflexivity |]. split; [lia | apply balanced_nil].
    + destruct (Hs g) as (l1 & E1 & C1 & B1).
      destruct (IHl (generateStatement s g)) as (l2 & E2 & C2 & B2).
      exists (l1 ++ l2). split; [rewrite E2, E1, app_assoc; reflexivity |]. split; [lia |].
      destruct B1 as [B11 B12], B2 as [B21 B22]. unfold balanced. rewrite !countIf_app.
      split; [lia |]. intros H. apply Forall_app in H as [H1 H2].
      specialize (B12 H1). specialize (B22 H2). lia.
  - cbn [generateStatement]. destruct i as [e |].
    + destruct (balanced_expression_then (Forall notIfLabel []) e g "MOV" n
                  eq_refl eq_refl eq_refl eq_refl) as (l & E & B & C).
      destruct (generateExpression e g) as [tv g1]. cbn [fst snd] in *.
      exists l. split; [exact E |]. split; [exact C | exact B].
    + exists []. rewrite app_nil_r. split; [reflexivity |]. split; [lia | apply balanced_nil].
  - cbn [generateStatement].
    destruct (balanced_expression_then (Forall notIfLabel []) v g "MOV" n
                eq_refl eq_refl eq_refl eq_refl) as (l & E & B & C).
    destruct (generateExpression v g) as [tv g1]. cbn [fst snd] in *.
    exists l. split; [exact E |]. split; [exact C | exact B].
  - cbn [generateStatement]. destruct v as [e |].
    + destruct (balanced_expression_then (Forall notIfLabel []) e g "RET" ""
                  eq_refl eq_refl eq_refl eq_refl) as (l & E & B & C).
      destruct (generateExpression e g) as [tv g1]. cbn [fst snd] in *.
      exists l. split; [exact E |]. split; [exact C | exact B].
    + eexists. split; [reflexivity |]. split; [cbn; lia |].
      apply balanced_plain; reflexivity.
  - rewrite generateStatement_function.
    assert (forall g', exists l, code (generateBody body g') = code g' ++ l /\
              tempVarCount g' <= tempVarCount (generateBody body g') /\
              balanced (Forall notIfLabel (flat_map functionNames body)) l) as Hloop.
    { induction IH as [| s l Hs _ IHl]; intros g'; cbn [generateBody flat_map].
      - destruct (endsWithRET g').
        + exists []. rewrite app_nil_r. split; [reflexivity |]. split; [lia | apply balanced_nil].
        + eexists. split; [reflexivity |]. split; [cbn; lia |].
          apply balanced_plain; reflexivity.
      - destruct (Hs g') as (l1 & E1 & C1 & [B11 B12]).
        destruct (endsWithRET (generateStatement s g')).
        + exists l1. split; [exact E1 |]. split; [exact C1 |]. split; [exact B11 |].
          intros H. apply Forall_app in H as [H1 _]. apply (B12 H1).
        + destruct (IHl (generateStatement s g')) as (l2 & E2 & C2 & [B21 B22]).
          exists (l1 ++ l2). split; [rewrite E2, E1, app_assoc; reflexivity |]. split; [lia |].
          unfold balanced. rewrite !countIf_app. split; [lia |].
          intros H. apply Forall_app in H as [H1 H2].
          specialize (B12 H1). specialize (B22 H2). lia. }
    destruct (Hloop (emplace_back (mkTAC "LABEL" "" "" n) g)) as (l & E & C & [B1 B2]).
    exists (mkTAC "LABEL" "" "" n :: l).
    split; [rewrite E; cbn; rewrite <- app_assoc; reflexivity |]. split; [exact C |].
    change (mkTAC "LABEL" "" "" n :: l) with ([mkTAC "LABEL" "" "" n] ++ l).
    apply balanced_app.
    + eapply balanced_weaken; [| apply (balanced_function_label n)].
      intros H. inversion H; assumption.
    + eapply balanced_weaken; [| split; [exact B1 | exact B2]].
      intros H. inversion H; assumption.
  - cbn [generateStatement].
    destruct (generateExpression_binary c g) as (l1 & E1 & B1 & C1).
    destruct (generateExpression c g) as [cv g1]. cbn [fst snd] in *.
    set (g2 := emplace_back (mkTAC "IF_FALSE" cv "" "L1") g1) in *.
    destruct (IHt g2) as (l2 & E2 & C2 & [B21 B22]).
    set (g3 := generateStatement t g2) in *.
    set (g4 := emplace_back (mkTAC "LABEL" "" "" "L1")
                 (emplace_back (mkTAC "GOTO" "" "" "L2") g3)).
    assert (exists l3,
              code (match e with Some s => generateStatement s g4 | None => g4 end)
                = code g4 ++ l3 /\
              tempVarCount g4 <=
                tempVarCount (match e with Some s => generateStatement s g4 | None => g4 end) /\
              balanced (Forall notIfLabel
                          (match e with Some s => functionNames s | None => [] end)) l3)
      as (l3 & E3 & C3 & B3).
    { destruct e as [s |]; [apply IHe |].
      exists []. rewrite app_nil_r. split; [reflexivity |]. split; [lia | apply balanced_nil]. }
    exists (l1 ++ [mkTAC "IF_FALSE" cv "" "L1"] ++ l2 ++
            [mkTAC "GOTO" "" "" "L2"; mkTAC "LABEL" "" "" "L1"] ++ l3 ++
            [mkTAC "LABEL" "" "" "L2"]).
    split.
    { cbn [emplace_back code]. rewrite E3. subst g4. cbn [emplace_back code].
      rewrite E2. subst g2. cbn [emplace_back code]. rewrite E1, <- !app_assoc. reflexivity. }
    split.
    { cbn [emplace_back tempVarCount]. subst g4 g2. cbn [emplace_back tempVarCount] in *. lia. }
    apply balanced_if.
    + apply balanced_binary, B1.
    + eapply balanced_weaken; [| split; [exact B21 | exact B22]].
      intros H. apply Forall_app in H as [H1 _]. exact H1.
    + eapply balanced_weaken; [| exact B3].
      intros H. apply Forall_app in H as [_ H2]. exact H2.
Qed.

(** X9. Lowering a statement only appends: the instructions emitted before
    stay where they are, unchanged, and the counter of temporaries never
    goes back, so a temporary number is never handed out twice. *)
Theorem lowering_only_appends (s : Statement) (g : IRGenerator) :
  let g' := generateStatement s g in
  code g' = code g ++ emittedBy g g' /\
  (forall k i, code g !! k = Some i -> code g' !! k = Some i) /\
  tempVarCount g <= tempVarCount g'.
Proof.
  intros g'. destruct (generateStatement_extends s g) as (l & E & C & _). fold g' in E, C.
  rewrite (emittedBy_app g g' l E). split; [exact E |]. split; [| exact C].
  intros k i Hk. rewrite E. apply lookup_app_l_Some, Hk.
Qed.

(** X10. In the instructions that lowering a statement appends there are as
    many "GOTO" as "IF_FALSE" instructions; and when no function of the
    statement is named "L1" or "L2", there are as many [LABEL "" "" L1] and
    as many [LABEL "" "" L2] instructions as well, also when a [return]
    cuts a function body short. *)
Theorem if_instructions_balanced (s : Statement) (g : IRGenerator) :
  let l := emittedBy g (generateStatement s g) in
  countIf (hasOp "IF_FALSE") l = countIf (hasOp "GOTO") l /\
  (Forall notIfLabel (functionNames s) ->
   countIf (isLabel "L1") l = countIf (hasOp "IF_FALSE") l /\
   countIf (isLabel "L2") l = countIf (hasOp "IF_FALSE") l).
Proof.
  intros l. destruct (generateStatement_extends s g) as (l' & E & _ & B).
  subst l. rewrite (emittedBy_app _ _ l' E). exact B.
Qed.

Lemma if_instructions_balanced_witness :
  let s := FunctionDeclaration "int" "f" []
             [IfStatement (VariableExpression "x")
                (ReturnStatement (Some (LiteralExpression "1")))
                (Some (IfStatement (VariableExpression "y") (BlockStatement []) None));
              IfStatement (VariableExpression "z") (BlockStatement []) None] in
  let l := emittedBy newIRGenerator (generateStatement s newIRGenerator) in
  Forall notIfLabel (functionNames s) /\
  countIf (isLabel "L1") l = countIf (hasOp "IF_FALSE") l /\
  countIf (isLabel "L2") l = countIf (hasOp "IF_FALSE") l.
Proof.
  intros s l.
  assert (Forall notIfLabel (functionNames s)) as H.
  { repeat constructor; discriminate. }
  split; [exact H |].
  exact (proj2 (if_instructions_balanced s newIRGenerator) H).
Defined.

(** ** The parser: expressions *)

(** X11. [tokenToBinaryOp] and [opToString] are inverse to each other: a
    token whose lexeme is the symbol of an operator is read as that
    operator, whatever its kind and position, a token that is read as an
    operator has the symbol of that operator as lexeme, and an [Operator]
    token with the symbol of an operator has a precedence that is not
    negative. *)
Theorem tokenToBinaryOp_opToString :
  (forall o ty ln col, tokenToBinaryOp (mkToken ty (opToString o) ln col) = Ok o) /\
  (forall t o, tokenToBinaryOp t = Ok o -> tok_value t = opToString o) /\
  (forall o ln col, (0 <= getPrecedence (mkToken Operator (opToString o) ln col))%Z) /\
  (forall o1 o2, opToString o1 = opToString o2 -> o1 = o2).
Proof.
  split; [| split; [| split]].
  - intros o ty ln col. destruct o; reflexivity.
  - intros t o. unfold tokenToBinaryOp.
    repeat match goal with
    | |- context [(?a =? ?b)%string] => destruct (String.eqb_spec a b) as [-> |]
    end; intros H; try discriminate H; injection H as <-; reflexivity.
  - intros o ln col. destruct o; vm_compute; discriminate.
  - intros o1 o2. destruct o1, o2; cbn; intros H; try reflexivity; discriminate H.
Qed.

Lemma tokenToBinaryOp_opToString_witness :
  tokenToBinaryOp (mkToken Operator "!=" 3 7) = Ok NotEqual /\
  tok_value (mkToken Operator "!=" 3 7) = opToString NotEqual.
Proof.
  split; [reflexivity |].
  exact (proj1 (proj2 tokenToBinaryOp_opToString) (mkToken Operator "!=" 3 7) NotEqual eq_refl).
Defined.

Lemma parsePrimaryExpression_operand (a : Token) (ts : list Token) :
  isOperand a = true -> parsePrimaryExpression (a :: ts) = Ok (operandExpression a, ts).
Proof.
  unfold isOperand, parsePrimaryExpression, operandExpression, match_. cbn [currentToken].
  destruct (tok_type a); cbn; intros H; try discriminate H; reflexivity.
Qed.

Lemma binaryLoop_stop (self : Z -> list Token -> outcome (Expression * list Token))
    (n : nat) (p : Z) (e : Expression) (ts : list Token) :
  (getPrecedence (currentToken ts) <? p)%Z = true -> binaryLoop self n p e ts = Ok (e, ts).
Proof. intros H. destruct n; cbn [binaryLoop]; rewrite H; reflexivity. Qed.

Lemma binaryLoop_step (self : Z -> list Token -> outcome (Expression * list Token))
    (n : nat) (p : Z) (e : Expression) (o : Token) (ts : list Token) (b : BinaryOp) :
  (getPrecedence o <? p)%Z = false -> tokenToBinaryOp o = Ok b ->
  binaryLoop self (S n) p e (o :: ts) =
  bind (self (getPrecedence o + 1)%Z ts)
    (fun '(r, ts') => binaryLoop self n p (BinaryExpression e b r) ts').
Proof. intros Hp Hb. cbn [binaryLoop currentToken advanceToken]. rewrite Hp, Hb. reflexivity. Qed.

Lemma parseBinaryExpression_S (fuel : nat) (p : Z) (ts : list Token) :
  parseBinaryExpression (S fuel) p ts =
  bind (parsePrimaryExpression ts) (fun '(e, ts') =>
    binaryLoop (parseBinaryExpression fuel) (S (length ts')) p e ts').
Proof. reflexivity. Qed.

Lemma parseBinaryExpression_operand (fuel : nat) (p : Z) (a : Token) (ts : list Token) :
  isOperand a = true -> (getPrecedence (currentToken ts) <? p)%Z = true ->
  parseBinaryExpression (S fuel) p (a :: ts) = Ok (operandExpression a, ts).
Proof.
  intros Ha Hp. cbn [parseBinaryExpression]. rewrite (parsePrimaryExpression_operand a ts Ha).
  cbn [bind]. apply binaryLoop_stop, Hp.
Qed.

(** X12. Precedence climbing on [a o1 b o2 c]: when the second operator has
    the higher precedence the expression is [a o1 (b o2 c)], otherwise,
    also for equal precedences, it is [(a o1 b) o2 c]: operators of
    one precedence group to the left. The token after [c] must not be an
    operator with a precedence. *)
Theorem precedence_and_associativity (a o1 b o2 c : Token) (rest : list Token)
    (op1 op2 : BinaryOp) :
  isOperand a = true -> isOperand b = true -> isOperand c = true ->
  tokenToBinaryOp o1 = Ok op1 -> tokenToBinaryOp o2 = Ok op2 ->
  (0 <= getPrecedence o1)%Z -> (0 <= getPrecedence o2)%Z ->
  (getPrecedence (currentToken rest) < 0)%Z ->
  parseExpression (a :: o1 :: b :: o2 :: c :: rest) =
    Ok (if (getPrecedence o1 <? getPrecedence o2)%Z
        then BinaryExpression (operandExpression a) op1
               (BinaryExpression (operandExpression b) op2 (operandExpression c))
        else BinaryExpression
               (BinaryExpression (operandExpression a) op1 (operandExpression b))
               op2 (operandExpression c),
        rest).
Proof.
  intros Ha Hb Hc H1 H2 P1 P2 Prest.
  assert (forall p, (p <= getPrecedence o1)%Z -> (getPrecedence o1 <? p)%Z = false) as L1
    by (intros; apply Z.ltb_ge; assumption).
  assert (forall p, (p <= getPrecedence o2)%Z -> (getPrecedence o2 <? p)%Z = false) as L2
    by (intros; apply Z.ltb_ge; assumption).
  assert (forall p, (0 <= p)%Z -> (getPrecedence (currentToken rest) <? p)%Z = true) as L3
    by (intros; apply Z.ltb_lt; lia).
  unfold parseExpression. cbn [length]. rewrite parseBinaryExpression_S.
  rewrite (parsePrimaryExpression_operand a _ Ha). cbn [bind length].
  rewrite (binaryLoop_step _ _ 0%Z _ o1 _ op1 (L1 _ P1) H1).
  destruct (getPrecedence o1 <? getPrecedence o2)%Z eqn:Hcmp.
  - apply Z.ltb_lt in Hcmp.
    rewrite parseBinaryExpression_S. rewrite (parsePrimaryExpression_operand b _ Hb).
    cbn [bind length].
    rewrite (binaryLoop_step _ _ (getPrecedence o1 + 1)%Z _ o2 _ op2
               (L2 (getPrecedence o1 + 1)%Z ltac:(lia)) H2).
    rewrite (parseBinaryExpression_operand _ (getPrecedence o2 + 1)%Z c rest Hc
               (L3 (getPrecedence o2 + 1)%Z ltac:(lia))).
    cbn [bind].
    rewrite (binaryLoop_stop _ _ (getPrecedence o1 + 1)%Z _ rest
               (L3 (getPrecedence o1 + 1)%Z ltac:(lia))).
    cbn [bind].
    rewrite (binaryLoop_stop _ _ 0%Z _ rest (L3 0%Z ltac:(lia))). reflexivity.
  - apply Z.ltb_ge in Hcmp.
    rewrite (parseBinaryExpression_operand _ (getPrecedence o1 + 1)%Z b (o2 :: c :: rest) Hb
               ltac:(cbn [currentToken]; apply Z.ltb_lt; lia)).
    cbn [bind].
    rewrite (binaryLoop_step _ _ 0%Z _ o2 _ op2 (L2 _ P2) H2).
    rewrite (parseBinaryExpression_operand _ (getPrecedence o2 + 1)%Z c rest Hc
               (L3 (getPrecedence o2 + 1)%Z ltac:(lia))).
    cbn [bind].
    rewrite (binaryLoop_stop _ _ 0%Z _ rest (L3 0%Z ltac:(lia))). reflexivity.
Qed.

Lemma precedence_and_associativity_witness :
  let x n := mkToken Identifier n 1 1 in
  let o v := mkToken Operator v 1 1 in
  let semi := mkToken Separator ";" 1 1 in
  parseExpression [x "a"; o "+"; x "b"; o "<"; x "c"; semi] =
    Ok (BinaryExpression (VariableExpression "a") Add
          (BinaryExpression (VariableExpression "b") LessThan (VariableExpression "c")),
        [semi]) /\
  parseExpression [x "a"; o "-"; x "b"; o "+"; x "c"; semi] =
    Ok (BinaryExpression
          (BinaryExpression (VariableExpression "a") Subtract (VariableExpression "b"))
          Add (VariableExpression "c"),
        [semi]).
Proof.
  intros x o semi. split.
  - apply (precedence_and_associativity (x "a") (o "+") (x "b") (o "<") (x "c") [semi]
             Add LessThan); try reflexivity; vm_compute; first [reflexivity | discriminate].
  - apply (precedence_and_associativity (x "a") (o "-") (x "b") (o "+") (x "c") [semi]
             Subtract Add); try reflexivity; vm_compute; first [reflexivity | discriminate].
Defined.

(** X13. The operators [<=] and [>=], which the lexer produces as one token
    and [getPrecedence] ranks with [<] and [>], have no case in
    [tokenToBinaryOp]: an expression that continues with one of them after
    its first operand is rejected with "Unknown binary operator". *)
Theorem less_or_equal_is_rejected (a : Token) (v : string) (ln col : nat)
    (rest : list Token) :
  isOperand a = true -> v = "<=" \/ v = ">=" ->
  getPrecedence (mkToken Operator v ln col) = 15%Z /\
  parseExpression (a :: mkToken Operator v ln col :: rest) =
    Throw ("Unknown binary operator: " +:+ Token_toString (mkToken Operator v ln col)).
Proof.
  intros Ha Hv. split; [destruct Hv as [-> | ->]; reflexivity |].
  unfold parseExpression. cbn [length]. rewrite parseBinaryExpression_S.
  rewrite (parsePrimaryExpression_operand a _ Ha). cbn [bind length binaryLoop currentToken].
  destruct Hv as [-> | ->]; reflexivity.
Qed.

Lemma less_or_equal_is_rejected_witness :
  tokenize (setSource "a<=b") =
    Ok [mkToken Identifier "a" 1 1; mkToken Operator "<=" 1 2; mkToken Identifier "b" 1 4] /\
  parseExpression
    [mkToken Identifier "a" 1 1; mkToken Operator "<=" 1 2; mkToken Identifier "b" 1 4] =
    Throw ("Unknown binary operator: " +:+ Token_toString (mkToken Operator "<=" 1 2)).
Proof.
  split; [vm_compute; reflexivity |].
  exact (proj2 (less_or_equal_is_rejected (mkToken Identifier "a" 1 1) "<=" 1 2
                  [mkToken Identifier "b" 1 4] eq_refl (or_introl eq_refl))).
Defined.

(** ** The parser: statements *)

Lemma parserShape_all (l : list Statement) :
  (fix all (l : list Statement) : Prop :=
     match l with
     | [] => True
     | s :: l' => parserShape s /\ all l'
     end) l <-> Forall parserShape l.
Proof.
  induction l as [| s l IH]; [split; [constructor | exact (fun _ => I)] |].
  rewrite IH. split; [intros [H1 H2]; constructor; assumption |].
  intros H. inversion H; subst. split; assumption.
Qed.

Section Shape.
Variable self : list Token -> outcome (Statement * list Token).
Hypothesis Hself : forall ts s r, self ts = Ok (s, r) -> parserShape s.

Lemma statementsLoop_shape (n : nat) :
  forall ts statements l r, Forall parserShape statements ->
    statementsLoop self n ts statements = Ok (l, r) -> Forall parserShape l.
Proof.
  induction n as [| n IH]; intros ts statements l r Hacc; cbn [statementsLoop];
    destruct (atSeparator "}" ts); cbn [negb]; try discriminate;
    try (intros H; injection H as <- _; exact Hacc).
  destruct (self ts) as [[stmt ts'] | | |] eqn:Hs; cbn [bind]; try discriminate.
  apply IH. apply Forall_app. split; [exact Hacc |].
  constructor; [apply (Hself _ _ _ Hs) | constructor].
Qed.

Lemma parseBlockStatement_shape (ts : list Token) (s : Statement) (r : list Token) :
  parseBlockStatement self ts = Ok (s, r) -> parserShape s.
Proof.
  unfold parseBlockStatement.
  destruct (statementsLoop self _ _ []) as [[l r'] | | |] eqn:Hl; cbn [bind];
    try discriminate.
  intros H. injection H as <- _. cbn [parserShape]. apply parserShape_all.
  apply (statementsLoop_shape _ _ _ _ _ ltac:(constructor) Hl).
Qed.

Lemma parseIfStatement_shape (ts : list Token) (s : Statement) (r : list Token) :
  parseIfStatement self ts = Ok (s, r) -> parserShape s.
Proof.
  unfold parseIfStatement.
  destruct (atSeparator "(" _); cbn [negb]; [| discriminate].
  destruct (parseExpression _) as [[condition r1] | | |]; cbn [bind]; try discriminate.
  destruct (atSeparator ")" r1); cbn [negb]; [| discriminate].
  destruct (self (advanceToken r1)) as [[thenBranch r2] | | |] eqn:Ht; cbn [bind];
    try discriminate.
  destruct (match_ Keyword r2 && _).
  - destruct (self (advanceToken r2)) as [[elseBranch r3] | | |] eqn:He; cbn [bind];
      try discriminate.
    intros H. injection H as <- _. cbn [parserShape].
    split; [apply (Hself _ _ _ Ht) | apply (Hself _ _ _ He)].
  - intros H. injection H as <- _. cbn [parserShape].
    split; [apply (Hself _ _ _ Ht) | exact I].
Qed.

Lemma parseVariableDeclaration_shape (ts : list Token) (s : Statement) (r : list Token) :
  In (tok_value (currentToken ts)) primitiveTypeNames ->
  parseVariableDeclaration self ts = Ok (s, r) -> parserShape s.
Proof.
  intros Hty. unfold parseVariableDeclaration.
  destruct (match_ Identifier _); cbn [negb]; [| discriminate].
  destruct (atSeparator "(" _).
  - unfold parseFunctionDeclaration.
    destruct (parametersLoop _ []) as [[parameters r1] | | |]; cbn [bind]; try discriminate.
    destruct (atSeparator ")" r1); cbn [negb]; [| discriminate].
    destruct (atSeparator "{" _); cbn [negb]; [| discriminate].
    destruct (statementsLoop self _ _ []) as [[body r2] | | |] eqn:Hl; cbn [bind];
      try discriminate.
    intros H. injection H as <- _. cbn [parserShape]. split; [exact Hty |].
    apply parserShape_all. apply (statementsLoop_shape _ _ _ _ _ ltac:(constructor) Hl).
  - destruct (if atOperator "=" _ then _ else _) as [[initializer r1] | | |]; cbn [bind];
      try discriminate.
    destruct (atSeparator ";" r1); cbn [negb]; [| discriminate].
    intros H. injection H as <- _. exact Hty.
Qed.
End Shape.

Lemma parseStatement_shape (fuel : nat) :
  forall ts s r, parseStatement fuel ts = Ok (s, r) -> parserShape s.
Proof.
  induction fuel as [| fuel IH]; intros ts s r; cbn [parseStatement]; [discriminate |].
  destruct (atSeparator "{" ts).
  { apply (parseBlockStatement_shape _ IH). }
  destruct (match_ Keyword ts).
  - destruct (_ || _ || _ || _) eqn:Hty.
    { apply (parseVariableDeclaration_shape _ IH).
      cbn. repeat rewrite orb_true_iff in Hty. rewrite !String.eqb_eq in Hty.
      intuition auto. }
    destruct (_ =? "return")%string.
    { unfold parseReturn.
      destruct (parseExpression _) as [[value r1] | | |]; cbn [bind]; try discriminate.
      destruct (atSeparator ";" r1); cbn [negb]; [| discriminate].
      intros H. injection H as <- _. cbn. discriminate. }
    destruct (_ =? "if")%string; [| discriminate].
    apply (parseIfStatement_shape _ IH).
  - destruct (match_ Identifier ts); [| discriminate].
    unfold parseAssignmentOrFunctionCall.
    destruct (atOperator "=" _).
    + destruct (parseExpression _) as [[value r1] | | |]; cbn [bind]; try discriminate.
      destruct (atSeparator ";" r1); cbn [negb]; [| discriminate].
      intros H. injection H as <- _. exact I.
    + destruct (atSeparator "(" _); discriminate.
Qed.

(** X14. What the parser builds has a fixed shape, at every depth: the type
    of a variable declaration and the return type of a function are among
    [int], [float], [char] and [std::string], and a [return] statement
    always has a value, although the tree allows one without. *)
Theorem parser_output_shape :
  (forall fuel ts s rest, parseStatement fuel ts = Ok (s, rest) -> parserShape s) /\
  (forall tokens ast, parse tokens = Ok ast -> parserShape ast).
Proof.
  split; [apply parseStatement_shape |].
  intros tokens ast. unfold parse.
  destruct (parseStatement _ tokens) as [[s r] | | |] eqn:Hs; cbn [bind]; try discriminate.
  destruct (checkSemantics s ∅) as [st | | |]; cbn [bind]; try discriminate.
  intros H. injection H as <-. apply (parseStatement_shape _ _ _ _ Hs).
Qed.

Lemma parser_output_shape_witness :
  let tokens := [mkToken Separator "{" 1 1; mkToken Keyword "int" 1 3;
                 mkToken Identifier "x" 1 7; mkToken Separator ";" 1 8;
                 mkToken Keyword "return" 1 10; mkToken Identifier "x" 1 17;
                 mkToken Separator ";" 1 18; mkToken Separator "}" 1 20] in
  let ast := BlockStatement [VariableDeclaration "int" "x" None;
                             ReturnStatement (Some (VariableExpression "x"))] in
  parse tokens = Ok ast /\ parserShape ast.
Proof.
  intros tokens ast.
  assert (parse tokens = Ok ast) as H by (vm_compute; reflexivity).
  split; [exact H |]. exact (proj2 parser_output_shape tokens ast H).
Defined.

(** X15. The forms that the parser does not support are rejected with
    their own errors, whatever follows: a statement that starts with an
    identifier and an opening parenthesis throws "Function calls not yet
    supported."; a statement that starts with the keyword [while], [for] or
    [else] throws "Unexpected token"; [return] directly followed by a
    semicolon, and a boolean or null literal where an operand is expected,
    throw "Unexpected token in expression". *)
Theorem unsupported_forms_are_rejected (fuel : nat) (t : Token) (rest : list Token) :
  (tok_type t = Identifier -> atSeparator "(" rest = true ->
   parseStatement (S fuel) (t :: rest) = Throw "Function calls not yet supported.") /\
  (tok_type t = Keyword -> In (tok_value t) ["while"; "for"; "else"] ->
   parseStatement (S fuel) (t :: rest) = Throw ("Unexpected token: " +:+ Token_toString t)) /\
  (tok_type t = Keyword -> tok_value t = "return" -> atSeparator ";" rest = true ->
   parseStatement (S fuel) (t :: rest) =
     Throw ("Unexpected token in expression: " +:+ Token_toString (currentToken rest))) /\
  (tok_type t = BooleanLiteral \/ tok_type t = NullLiteral ->
   parseExpression (t :: rest) =
     Throw ("Unexpected token in expression: " +:+ Token_toString t)).
Proof.
  split; [| split; [| split]].
  - intros Hty Hparen. cbn [parseStatement]. unfold atSeparator at 1, match_.
    cbn [currentToken]. rewrite Hty. cbn [bool_decide decide_rel].
    replace (bool_decide (Identifier = Separator)) with false by reflexivity.
    replace (bool_decide (Identifier = Keyword)) with false by reflexivity.
    replace (bool_decide (Identifier = Identifier)) with true by reflexivity.
    cbn [andb]. unfold parseAssignmentOrFunctionCall. cbn [advanceToken].
    rewrite Hparen.
    destruct (atSeparator_true _ _ Hparen) as (lp & r & -> & Hlp & _).
    unfold atOperator, match_. cbn [currentToken]. rewrite Hlp. reflexivity.
  - intros Hty Hv. cbn [parseStatement]. unfold atSeparator at 1, match_.
    cbn [currentToken]. rewrite Hty.
    replace (bool_decide (Keyword = Separator)) with false by reflexivity.
    replace (bool_decide (Keyword = Keyword)) with true by reflexivity.
    cbn [andb]. cbn in Hv. destruct Hv as [<- | [<- | [<- | []]]]; reflexivity.
  - intros Hty Hv Hsemi. cbn [parseStatement]. unfold atSeparator at 1, match_.
    cbn [currentToken]. rewrite Hty, Hv.
    replace (bool_decide (Keyword = Separator)) with false by reflexivity.
    replace (bool_decide (Keyword = Keyword)) with true by reflexivity.
    cbn [andb orb String.eqb Ascii.eqb Bool.eqb]. unfold parseReturn. cbn [advanceToken].
    destruct (atSeparator_true _ _ Hsemi) as (semi & r & -> & Hs & _).
    unfold parseExpression. rewrite parseBinaryExpression_S.
    unfold parsePrimaryExpression, match_. cbn [currentToken]. rewrite Hs. reflexivity.
  - intros Hty. unfold parseExpression. rewrite parseBinaryExpression_S.
    unfold parsePrimaryExpression, match_. cbn [currentToken].
    destruct Hty as [-> | ->]; reflexivity.
Qed.

Lemma unsupported_forms_are_rejected_witness :
  parseStatement 1 [mkToken Identifier "f" 1 1; mkToken Separator "(" 1 2;
                    mkToken Separator ")" 1 3; mkToken Separator ";" 1 4] =
    Throw "Function calls not yet supported." /\
  parseStatement 1 [mkToken Keyword "while" 1 1; mkToken Separator "(" 1 7] =
    Throw ("Unexpected token: " +:+ Token_toString (mkToken Keyword "while" 1 1)).
Proof.
  split.
  - exact (proj1 (unsupported_forms_are_rejected 0 (mkToken Identifier "f" 1 1)
                    [mkToken Separator "(" 1 2; mkToken Separator ")" 1 3;
                     mkToken Separator ";" 1 4]) eq_refl eq_refl).
  - exact (proj1 (proj2 (unsupported_forms_are_rejected 0 (mkToken Keyword "while" 1 1)
                           [mkToken Separator "(" 1 7])) eq_refl (or_introl eq_refl)).
Defined.

(** ** The lexer: what [nextToken] returns *)

(** The branches of [nextToken], read off a result. *)
Lemma nextToken_cases (lx lx' : Lexer) (tok : Token) :
  nextToken lx = Ok (tok, lx') ->
  let lx1 := skipComment (skipWhitespace lx) in
  let c := currentChar lx1 in
  (isdigit c = true /\ number lx1 = (tok, lx')) \/
  (isdigit c = false /\ isalpha c || (c =? "_")%char = true /\
   identifierOrKeyword lx1 = (tok, lx')) \/
  (c = dquote /\ stringLiteral lx1 = (tok, lx')) \/
  (c = squote /\ characterLiteral lx1 = Ok (tok, lx')) \/
  (isalpha c = false /\ isOperator c = true /\ operatorToken lx1 = (tok, lx')) \/
  (isalpha c = false /\ isSeparator c = true /\
   tok = mkToken Separator (String c "") (line lx1) (column lx1) /\ lx' = advance lx1) \/
  (c = NUL /\ tok = mkToken EndOfFile "" (line lx1) (column lx1) /\ lx' = lx1) \/
  (isalpha c = false /\ c <> NUL /\
   tok = mkToken Unknown (String c "") (line (advance lx1)) (column (advance lx1)) /\
   lx' = advance lx1).
Proof.
  intros H. cbn zeta. unfold nextToken in H.
  set (lx1 := skipComment (skipWhitespace lx)) in *. set (c := currentChar lx1) in *.
  destruct (isdigit c) eqn:Hdigit.
  { left. split; [reflexivity |]. congruence. }
  destruct (isalpha c || (c =? "_")%char) eqn:Hident.
  { right; left. split; [reflexivity |]. split; [reflexivity |]. congruence. }
  apply orb_false_iff in Hident as [Halpha _].
  destruct (c =? dquote)%char eqn:Hdq.
  { apply Ascii.eqb_eq in Hdq. do 2 right; left. split; [exact Hdq |]. congruence. }
  destruct (c =? squote)%char eqn:Hsq.
  { apply Ascii.eqb_eq in Hsq. do 3 right; left. split; [exact Hsq | exact H]. }
  destruct (isOperator c) eqn:Hop.
  { do 4 right; left. split; [exact Halpha |]. split; [reflexivity |]. congruence. }
  destruct (isSeparator c) eqn:Hsep.
  { do 5 right; left. split; [exact Halpha |]. split; [reflexivity |].
    injection H as <- <-. split; reflexivity. }
  destruct (c =? NUL)%char eqn:Hnul.
  { apply Ascii.eqb_eq in Hnul. do 6 right; left. split; [exact Hnul |].
    injection H as <- <-. split; reflexivity. }
  apply Ascii.eqb_neq in Hnul. do 7 right. split; [exact Halpha |]. split; [exact Hnul |].
  injection H as <- <-. split; reflexivity.
Qed.

Lemma number_type (lx : Lexer) :
  tok_type (number lx).1 = NumberLiteral \/ tok_type (number lx).1 = FloatingPointLiteral.
Proof.
  unfold number. destruct (number_from _ _ _ _ _) as [[v f] lx']. destruct f; cbn; auto.
Qed.

Lemma keywords_cases (v : string) (k : TokenType) :
  keywords v = Some k ->
  In k [Keyword; BooleanLiteral; NullLiteral] /\ isalpha (front v) = true.
Proof.
  unfold keywords.
  repeat match goal with
  | |- context [(?a =? ?b)%string] => destruct (String.eqb_spec a b) as [-> |]
  end; intros H; try discriminate H; injection H as <-; cbn; auto.
Qed.

Lemma identifierOrKeyword_type (lx : Lexer) :
  let tok := (identifierOrKeyword lx).1 in
  match keywords (tok_value tok) with
  | Some k => tok_type tok = k
  | None => tok_type tok = Identifier
  end.
Proof.
  unfold identifierOrKeyword. destruct (identifier_from _ _ _ _) as [v lx'].
  destruct (keywords v) as [k |] eqn:Hk; cbn [fst tok_value tok_type]; rewrite Hk; reflexivity.
Qed.

Lemma characterLiteral_type (lx lx' : Lexer) (tok : Token) :
  characterLiteral lx = Ok (tok, lx') -> tok_type tok = CharacterLiteral.
Proof.
  unfold characterLiteral.
  destruct (_ && _); match goal with |- context [negb ?b] => destruct b end; cbn [negb];
    intros H; try discriminate H; injection H as <- _; reflexivity.
Qed.

Lemma stringLiteral_type (lx : Lexer) : tok_type (stringLiteral lx).1 = StringLiteral.
Proof. unfold stringLiteral. destruct (string_from _ _ _ _). reflexivity. Qed.

Lemma operatorToken_type (lx : Lexer) : tok_type (operatorToken lx).1 = Operator.
Proof. unfold operatorToken. destruct (operator_from _ _ _ _). reflexivity. Qed.

(** The kind of a token by the branch of [nextToken] that made it. *)
Lemma nextToken_type (lx lx' : Lexer) (tok : Token) :
  nextToken lx = Ok (tok, lx') ->
  let lx1 := skipComment (skipWhitespace lx) in
  match tok_type tok with
  | NumberLiteral | FloatingPointLiteral => number lx1 = (tok, lx')
  | Identifier | Keyword | BooleanLiteral | NullLiteral =>
      identifierOrKeyword lx1 = (tok, lx') /\
      isalpha (currentChar lx1) || (currentChar lx1 =? "_")%char = true /\
      isdigit (currentChar lx1) = false
  | StringLiteral => stringLiteral lx1 = (tok, lx') /\ currentChar lx1 = dquote
  | CharacterLiteral => characterLiteral lx1 = Ok (tok, lx') /\ currentChar lx1 = squote
  | Operator => operatorToken lx1 = (tok, lx')
  | Separator => isSeparator (currentChar lx1) = true /\ lx' = advance lx1
  | EndOfFile => currentChar lx1 = NUL /\ lx' = lx1 /\ tok_value tok = ""
  | Unknown => currentChar lx1 <> NUL /\ lx' = advance lx1
  | Comment => False
  end.
Proof.
  intros H. pose proof (nextToken_cases lx lx' tok H) as Hcases. cbn zeta in *.
  set (lx1 := skipComment (skipWhitespace lx)) in *.
  destruct Hcases
    as [[Hd E] | [(Hd & Ha & E) | [[Hc E] | [[Hc E] | [(Ha & Ho & E) |
        [(Ha & Hs & -> & ->) | [(Hc & -> & ->) | (Ha & Hc & -> & ->)]]]]]]].
  - pose proof (number_type lx1) as Hty. rewrite E in Hty. cbn [fst] in Hty.
    destruct Hty as [-> | ->]; exact E.
  - pose proof (identifierOrKeyword_type lx1) as Hty. rewrite E in Hty. cbn [fst] in Hty.
    destruct (keywords (tok_value tok)) as [k |] eqn:Hk.
    + destruct (keywords_cases _ _ Hk) as [Hin _]. rewrite Hty.
      cbn in Hin. destruct Hin as [<- | [<- | [<- | []]]]; auto.
    + rewrite Hty. auto.
  - pose proof (stringLiteral_type lx1) as Hty. rewrite E in Hty. cbn [fst] in Hty.
    rewrite Hty. auto.
  - rewrite (characterLiteral_type _ _ _ E). auto.
  - pose proof (operatorToken_type lx1) as Hty. rewrite E in Hty. cbn [fst] in Hty.
    rewrite Hty. exact E.
  - cbn. auto.
  - cbn. auto.
  - cbn. auto.
Qed.

(** X16. A call of [nextToken] never moves back, and it moves forward by at
    least one character unless it returns [EndOfFile]; it returns
    [EndOfFile], with an empty lexeme, only where, after the white space and
    one comment, the current character is the NUL that also stands for the
    end of the buffer, and it stays there. *)
Theorem nextToken_consumes (lx lx' : Lexer) (tok : Token) :
  nextToken lx = Ok (tok, lx') ->
  remaining lx' <= remaining lx /\
  (tok_type tok <> EndOfFile -> remaining lx' < remaining lx) /\
  (tok_type tok = EndOfFile ->
   tok_value tok = "" /\ currentChar lx' = NUL /\ lx' = skipComment (skipWhitespace lx)).
Proof.
  intros H.
  assert (tok_type tok = EndOfFile ->
          tok_value tok = "" /\ currentChar lx' = NUL /\
          lx' = skipComment (skipWhitespace lx)) as Heof.
  { intros Hty. pose proof (nextToken_type lx lx' tok H) as Hc. cbn zeta in Hc.
    rewrite Hty in Hc. destruct Hc as (Hc & -> & Hv). auto. }
  split; [| split; [apply (nextToken_progress lx lx' tok H) | exact Heof]].
  destruct (decide (tok_type tok = EndOfFile)) as [Hty | Hty].
  - destruct (Heof Hty) as (_ & _ & ->).
    etransitivity; [apply skipComment_le | apply skipWhitespace_le].
  - pose proof (nextToken_progress lx lx' tok H Hty). lia.
Qed.

Lemma nextToken_consumes_witness :
  let lx := mkLexer "  x = 1;" 1 1 in
  let tok := mkToken Identifier "x" 1 3 in
  let lx' := mkLexer " = 1;" 1 4 in
  nextToken lx = Ok (tok, lx') /\ remaining lx' < remaining lx.
Proof.
  intros lx tok lx'.
  assert (nextToken lx = Ok (tok, lx')) as H by (vm_compute; reflexivity).
  split; [exact H |].
  exact (proj1 (proj2 (nextToken_consumes lx lx' tok H)) ltac:(discriminate)).
Defined.




(** X18. The keyword table decides the kind of every word: a token whose
    lexeme is in the table ([true], [false], [nullptr], [int], [return],
    [if], [else], [for], [while], [float], [char], [std::string]) has the
    kind the table gives, also when the lexeme is [std::string] with its
    colons; a [Keyword], [BooleanLiteral] or [NullLiteral] token has a
    lexeme of the table with that kind; and the lexeme of an [Identifier]
    is not in the table. *)
Theorem keyword_table_classification (lx lx' : Lexer) (tok : Token) :
  nextToken lx = Ok (tok, lx') ->
  (forall k, keywords (tok_value tok) = Some k -> tok_type tok = k) /\
  (In (tok_type tok) [Keyword; BooleanLiteral; NullLiteral] ->
   keywords (tok_value tok) = Some (tok_type tok)) /\
  (tok_type tok = Identifier -> keywords (tok_value tok) = None).
Proof.
  intros H. pose proof (nextToken_type lx lx' tok H) as Hty. cbn zeta in Hty.
  pose proof (identifierOrKeyword_type (skipComment (skipWhitespace lx))) as Hid.
  cbn zeta in Hid.
  split; [| split].
  - intros k Hk. destruct (keywords_cases _ _ Hk) as [_ Hfront].
    pose proof (nextToken_cases lx lx' tok H) as Hcases. cbn zeta in Hcases.
    set (lx1 := skipComment (skipWhitespace lx)) in *.
    destruct Hcases
      as [[Hd E] | [(Hd & Ha & E) | [[Hc E] | [[Hc E] | [(Ha & Ho & E) |
          [(Ha & Hs & -> & ->) | [(Hc & -> & ->) | (Ha & Hc & -> & ->)]]]]]]].
    + exfalso. pose proof (number_front lx1 Hd) as Hf. rewrite E in Hf. cbn [fst] in Hf.
      rewrite Hf, (isdigit_not_alpha _ Hd) in Hfront. discriminate.
    + rewrite E in Hid. cbn [fst] in Hid. rewrite Hk in Hid. exact Hid.
    + exfalso. pose proof (stringLiteral_front lx1) as Hf. rewrite E in Hf. cbn [fst] in Hf.
      rewrite Hf, Hc in Hfront. discriminate.
    + exfalso. rewrite (characterLiteral_front _ _ _ E), Hc in Hfront. discriminate.
    + exfalso. pose proof (operatorToken_front lx1 Ho) as Hf. rewrite E in Hf.
      cbn [fst] in Hf. rewrite Hf, Ha in Hfront. discriminate.
    + exfalso. cbn in Hfront. rewrite Ha in Hfront. discriminate.
    + discriminate Hk.
    + exfalso. cbn in Hfront. rewrite Ha in Hfront. discriminate.
  - intros Hin.
    assert (identifierOrKeyword (skipComment (skipWhitespace lx)) = (tok, lx')) as E.
    { cbn in Hin. destruct Hin as [Hk | [Hk | [Hk | []]]]; rewrite <- Hk in Hty; apply Hty. }
    rewrite E in Hid. cbn [fst] in Hid.
    destruct (keywords (tok_value tok)) as [k |]; [rewrite Hid; reflexivity |].
    rewrite Hid in Hin. cbn in Hin. intuition discriminate.
  - intros Hk. rewrite Hk in Hty. destruct Hty as [E _].
    rewrite E in Hid. cbn [fst] in Hid.
    destruct (keywords (tok_value tok)) as [k |] eqn:Hkw; [| reflexivity].
    destruct (keywords_cases _ _ Hkw) as [Hin _]. rewrite <- Hid, Hk in Hin.
    cbn in Hin. intuition discriminate.
Qed.

Lemma keyword_table_classification_witness :
  let lx := setSource "std::string s" in
  let tok := mkToken Keyword "std::string" 1 1 in
  nextToken lx = Ok (tok, mkLexer " s" 1 12) /\
  keywords (tok_value tok) = Some Keyword.
Proof.
  intros lx tok.
  assert (nextToken lx = Ok (tok, mkLexer " s" 1 12)) as H by (vm_compute; reflexivity).
  split; [exact H |].
  exact (proj1 (proj2 (keyword_table_classification lx _ tok H))
           (or_introl eq_refl)).
Defined.

Lemma contains_push_back (c d : ascii) (v : string) :
  contains c (push_back v d) = contains c v || (d =? c)%char.
Proof.
  unfold push_back. induction v as [| x v IH].
  - change (((d =? c)%char || false) = (false || (d =? c)%char)).
    destruct (d =? c)%char; reflexivity.
  - change (((x =? c)%char || contains c (v +:+ String d ""))
            = ((x =? c)%char || contains c v) || (d =? c)%char).
    rewrite IH, orb_assoc. reflexivity.
Qed.

Lemma number_from_contains (s : string) :
  forall ln col v f, contains "." v = f ->
    contains "." (number_from s ln col v f).1.1 = (number_from s ln col v f).1.2.
Proof.
  induction s as [| c rest IH]; intros ln col v f Hv; cbn [number_from]; [exact Hv |].
  destruct (isdigit c || (c =? ".")%char); [| exact Hv].
  destruct ((c =? ".")%char && f); [exact Hv |].
  apply IH. rewrite contains_push_back, Hv. reflexivity.
Qed.

Lemma number_literal_type (lx : Lexer) :
  isdigit (currentChar lx) = true ->
  Literal_getType (tok_value (number lx).1) =
    match tok_type (number lx).1 with
    | FloatingPointLiteral => "float"
    | _ => "int"
    end.
Proof.
  intros Hd. pose proof (number_front lx Hd) as Hfront.
  pose proof (number_from_contains (source lx) (line lx) (column lx) "" false eq_refl) as Hc.
  unfold number in *. destruct (number_from _ _ _ _ _) as [[v f] lx'].
  cbn [fst snd] in Hc.
  assert (tok_value (if f then (mkToken FloatingPointLiteral v (line lx') (column lx), lx')
                     else (mkToken NumberLiteral v (line lx') (column lx), lx')).1 = v) as Hv
    by (destruct f; reflexivity).
  rewrite Hv in *. unfold Literal_getType, isCharacterLiteral, isStringLiteral,
    isFloatingPointLiteral.
  rewrite Hfront, Hc.
  assert ((currentChar lx =? squote)%char = false) as ->.
  { apply Ascii.eqb_neq. intros E. rewrite E in Hd. discriminate Hd. }
  assert ((currentChar lx =? dquote)%char = false) as ->.
  { apply Ascii.eqb_neq. intros E. rewrite E in Hd. discriminate Hd. }
  rewrite andb_false_r. cbn [andb]. destruct f; reflexivity.
Qed.

Lemma characterLiteral_value (lx lx' : Lexer) (tok : Token) :
  characterLiteral lx = Ok (tok, lx') ->
  exists x, tok_value tok = String (currentChar lx) (String x (String squote "")).
Proof.
  unfold characterLiteral.
  destruct (_ && _);
    match goal with |- context [negb (?c =? squote)%char] =>
      destruct (Ascii.eqb_spec c squote) as [Hc |] end; cbn [negb];
    intros H; try discriminate H; injection H as <- _; cbn [tok_value]; rewrite Hc;
    eexists; reflexivity.
Qed.

Lemma back_append_one (v : string) (d : ascii) : back (v +:+ String d "") = d.
Proof.
  induction v as [| x v IH]; [reflexivity |].
  change (back (String x (v +:+ String d "")) = d).
  destruct v as [| y v]; [reflexivity |]. exact IH.
Qed.

(** X19. The type that [LiteralExpression::getType] reads off the spelling
    agrees with the kind the lexer gave the token: the lexeme of a
    [NumberLiteral] is typed "int", of a [FloatingPointLiteral] "float", of
    a [CharacterLiteral], which always has three characters, "char"; the
    lexeme of a [StringLiteral] is typed "std::string" exactly when it ends
    with a quote, that is, unless the string was cut by the end of the
    text. *)
Theorem literal_type_of_token (lx lx' : Lexer) (tok : Token) :
  nextToken lx = Ok (tok, lx') ->
  match tok_type tok with
  | NumberLiteral => Literal_getType (tok_value tok) = "int"
  | FloatingPointLiteral => Literal_getType (tok_value tok) = "float"
  | CharacterLiteral =>
      String.length (tok_value tok) = 3 /\ Literal_getType (tok_value tok) = "char"
  | StringLiteral =>
      Literal_getType (tok_value tok) = "std::string" <-> back (tok_value tok) = dquote
  | _ => True
  end.
Proof.
  intros H. pose proof (nextToken_type lx lx' tok H) as Hty. cbn zeta in Hty.
  pose proof (nextToken_cases lx lx' tok H) as Hcases. cbn zeta in Hcases.
  set (lx1 := skipComment (skipWhitespace lx)) in *.
  assert (tok_type tok = NumberLiteral \/ tok_type tok = FloatingPointLiteral ->
          Literal_getType (tok_value tok) =
            match tok_type tok with FloatingPointLiteral => "float" | _ => "int" end) as Hnum.
  { intros Hk.
    assert (number lx1 = (tok, lx')) as E by (destruct Hk as [Hk | Hk]; rewrite Hk in Hty; exact Hty).
    destruct Hcases as [[Hd _] | Hother].
    - pose proof (number_literal_type lx1 Hd) as Hn. rewrite E in Hn. exact Hn.
    - exfalso.
      destruct Hother
        as [(Hd & Ha & E') | [[Hc E'] | [[Hc E'] | [(Ha & Ho & E') |
            [(Ha & Hs & -> & ->) | [(Hc & -> & ->) | (Ha & Hc & -> & ->)]]]]]];
        try (destruct Hk as [Hk | Hk]; discriminate Hk).
      + pose proof (identifierOrKeyword_type lx1) as Hid. cbn zeta in Hid.
        rewrite E' in Hid. cbn [fst] in Hid.
        destruct (keywords (tok_value tok)) as [k |] eqn:Hkw.
        * destruct (keywords_cases _ _ Hkw) as [Hin _]. rewrite <- Hid in Hin.
          cbn in Hin. destruct Hk as [Hk | Hk]; rewrite Hk in Hin; intuition discriminate.
        * destruct Hk as [Hk | Hk]; congruence.
      + pose proof (stringLiteral_type lx1) as Hs. rewrite E' in Hs. cbn [fst] in Hs.
        destruct Hk as [Hk | Hk]; congruence.
      + pose proof (characterLiteral_type _ _ _ E'). destruct Hk as [Hk | Hk]; congruence.
      + pose proof (operatorToken_type lx1) as Hs. rewrite E' in Hs. cbn [fst] in Hs.
        destruct Hk as [Hk | Hk]; congruence. }
  destruct (tok_type tok) eqn:Hk; try exact I.
  - apply Hnum. left. reflexivity.
  - destruct Hty as [E Hc].
    pose proof (stringLiteral_front lx1) as Hf. rewrite E in Hf. cbn [fst] in Hf.
    unfold Literal_getType, isCharacterLiteral, isStringLiteral. rewrite Hf, Hc.
    replace (dquote =? squote)%char with false by reflexivity.
    replace (dquote =? dquote)%char with true by reflexivity.
    rewrite andb_false_r. cbn [andb].
    destruct (Ascii.eqb_spec (back (tok_value tok)) dquote) as [Hb | Hb].
    + split; [intros _; exact Hb | reflexivity].
    + split; [| intros Hb'; contradiction].
      destruct (isFloatingPointLiteral (tok_value tok)); discriminate.
  - destruct Hty as [E Hc]. destruct (characterLiteral_value _ _ _ E) as [x Hv].
    rewrite Hv, Hc. split; reflexivity.
  - apply Hnum. right. reflexivity.
Qed.

Lemma literal_type_of_token_witness :
  nextToken (setSource "3.14*r") =
    Ok (mkToken FloatingPointLiteral "3.14" 1 1, mkLexer "*r" 1 5) /\
  Literal_getType "3.14" = "float".
Proof.
  assert (nextToken (setSource "3.14*r") =
          Ok (mkToken FloatingPointLiteral "3.14" 1 1, mkLexer "*r" 1 5)) as H
    by (vm_compute; reflexivity).
  split; [exact H |]. exact (literal_type_of_token _ _ _ H).
Defined.

(** ** The lexer: lexing a lexeme again *)

Lemma append_cons (c : ascii) (a b : string) : String c a +:+ b = String c (a +:+ b).
Proof. reflexivity. Qed.

Lemma append_nil_l (s : string) : "" +:+ s = s.
Proof. reflexivity. Qed.

Lemma isalpha_not_space (c : ascii) :
  isalpha c || (c =? "_")%char = true -> isspace c = false /\ isdigit c = false /\ c <> "/"%char.
Proof.
  intros H. apply orb_true_iff in H as [H | H].
  - unfold isalpha, isspace, isdigit, char_in in *.
    assert (c <> "/"%char) as Hs by (intros ->; discriminate H).
    apply orb_true_iff in H as [H | H]; apply andb_true_iff in H as [H1 H2];
      apply Nat.leb_le in H1, H2;
      (split; [| split; [| exact Hs]]);
      [apply orb_false_iff; split; [apply andb_false_iff; right; apply Nat.leb_gt; lia
                                  | apply Nat.eqb_neq; lia]
      | apply andb_false_iff; right; apply Nat.leb_gt; lia
      | apply orb_false_iff; split; [apply andb_false_iff; right; apply Nat.leb_gt; lia
                                  | apply Nat.eqb_neq; lia]
      | apply andb_false_iff; right; apply Nat.leb_gt; lia].
  - apply Ascii.eqb_eq in H. subst c. repeat split; try reflexivity. discriminate.
Qed.

Lemma isdigit_not_space (c : ascii) :
  isdigit c = true -> isspace c = false /\ c <> "/"%char.
Proof.
  intros H. split; [| intros ->; discriminate H].
  unfold isspace, isdigit, char_in in *. apply andb_true_iff in H as [H1 H2].
  apply Nat.leb_le in H1, H2. apply orb_false_iff.
  split; [apply andb_false_iff; right; apply Nat.leb_gt; lia | apply Nat.eqb_neq; lia].
Qed.

(** No white space and no comment at the start: [nextToken] dispatches on
    the first character. *)
Lemma skip_nothing (c : ascii) (s : string) :
  isspace c = false -> c <> "/"%char ->
  skipComment (skipWhitespace (setSource (String c s))) = setSource (String c s).
Proof.
  intros Hs Hc. unfold skipWhitespace, setSource. cbn [source line column skipWhitespace_from].
  rewrite Hs. unfold skipComment, currentChar. cbn [source hd_char].
  apply Ascii.eqb_neq in Hc. rewrite Hc. reflexivity.
Qed.

Lemma identifier_from_relex (n : nat) :
  forall s ln col acc, String.length s <= n ->
    exists w, (identifier_from s ln col acc).1 = acc +:+ w /\
      (exists r, s = w +:+ r) /\
      forall ln' col' acc',
        (identifier_from w ln' col' acc').1 = acc' +:+ w /\
        source (identifier_from w ln' col' acc').2 = "".
Proof.
  induction n as [| n IH]; intros s ln col acc Hlen.
  - destruct s; [| cbn in Hlen; lia]. exists "". cbn [identifier_from fst snd source].
    rewrite append_empty. split; [reflexivity |]. split; [exists ""; reflexivity |].
    intros ln' col' acc'. rewrite append_empty. split; reflexivity.
  - destruct s as [| c rest].
    { exists "". cbn [identifier_from fst snd source]. rewrite append_empty.
      split; [reflexivity |]. split; [exists ""; reflexivity |].
      intros ln' col' acc'. rewrite append_empty. split; reflexivity. }
    cbn [identifier_from]. destruct (isalnum c || (c =? "_")%char) eqn:Hc.
    2:{ exists "". cbn [identifier_from fst snd source]. rewrite append_empty.
        split; [reflexivity |]. split; [exists (String c rest); reflexivity |].
        intros ln' col' acc'. rewrite append_empty. split; reflexivity. }
    assert (forall w1 : string,
              (identifier_from rest (nextLine c ln) (nextColumn c col) (push_back acc c)).1
                = push_back acc c +:+ w1 ->
              (exists r, rest = w1 +:+ r) ->
              (forall ln' col' acc',
                 (identifier_from w1 ln' col' acc').1 = acc' +:+ w1 /\
                 source (identifier_from w1 ln' col' acc').2 = "") ->
              (forall c1 c2 t, w1 = String c1 (String c2 t) ->
                 (c1 =? ":")%char && (c2 =? ":")%char = false) ->
              exists w,
                (identifier_from rest (nextLine c ln) (nextColumn c col) (push_back acc c)).1
                  = acc +:+ w /\
                (exists r, String c rest = w +:+ r) /\
                forall ln' col' acc',
                  (identifier_from w ln' col' acc').1 = acc' +:+ w /\
                  source (identifier_from w ln' col' acc').2 = "") as Hplain.
    { intros w1 H1 [r Hr] Hre Hno. exists (String c w1).
      split; [rewrite H1; apply push_back_append |].
      split; [exists r; rewrite Hr; reflexivity |].
      intros ln' col' acc'. cbn [identifier_from]. rewrite Hc.
      assert (forall p : string * Lexer,
                p = identifier_from w1 (nextLine c ln') (nextColumn c col') (push_back acc' c) ->
                p.1 = acc' +:+ String c w1 /\ source p.2 = "") as Hp.
      { intros p ->. destruct (Hre (nextLine c ln') (nextColumn c col') (push_back acc' c))
          as [Hv Hsrc]. rewrite Hv, push_back_append. split; [reflexivity | exact Hsrc]. }
      destruct w1 as [| c1 [| c2 t]]; try (apply Hp; reflexivity).
      rewrite (Hno c1 c2 t eq_refl). apply Hp. reflexivity. }
    destruct rest as [| c1 [| c2 rest2]].
    + destruct (IH "" (nextLine c ln) (nextColumn c col) (push_back acc c) ltac:(cbn; lia))
        as (w1 & H1 & Hr & Hre).
      apply (Hplain w1 H1 Hr Hre). intros c1 c2 t ->. destruct Hr as [r Hr]. discriminate Hr.
    + destruct (IH (String c1 "") (nextLine c ln) (nextColumn c col) (push_back acc c)
                  ltac:(cbn in *; lia)) as (w1 & H1 & Hr & Hre).
      apply (Hplain w1 H1 Hr Hre). intros d1 d2 t ->. destruct Hr as [r Hr].
      rewrite !append_cons in Hr. discriminate Hr.
    + destruct ((c1 =? ":")%char && (c2 =? ":")%char) eqn:Hcolon.
      * apply andb_true_iff in Hcolon as [E1 E2].
        apply Ascii.eqb_eq in E1, E2. subst c1 c2.
        destruct (IH rest2 (nextLine ":" (nextLine ":" (nextLine c ln)))
                    (nextColumn ":" (nextColumn ":" (nextColumn c col)))
                    (push_back acc c +:+ "::") ltac:(cbn in *; lia))
          as (w2 & H2 & [r Hr] & Hre).
        exists (String c (String ":" (String ":" w2))).
        split; [rewrite H2, append_assoc, push_back_append; reflexivity |].
        split; [exists r; rewrite Hr; reflexivity |].
        intros ln' col' acc'. cbn [identifier_from]. rewrite Hc.
        replace ((":" =? ":")%char && (":" =? ":")%char) with true by reflexivity.
        destruct (Hre (nextLine ":" (nextLine ":" (nextLine c ln')))
                    (nextColumn ":" (nextColumn ":" (nextColumn c col')))
                    (push_back acc' c +:+ "::")) as [Hv Hsrc].
        rewrite Hv, append_assoc, push_back_append. split; [reflexivity | exact Hsrc].
      * destruct (IH (String c1 (String c2 rest2)) (nextLine c ln) (nextColumn c col)
                    (push_back acc c) ltac:(cbn in *; lia)) as (w1 & H1 & Hr & Hre).
        apply (Hplain w1 H1 Hr Hre). intros d1 d2 t ->. destruct Hr as [r Hr].
        rewrite !append_cons in Hr. injection Hr as -> -> _. exact Hcolon.
Qed.

Lemma number_from_relex (s : string) :
  forall ln col acc f,
    exists w, (number_from s ln col acc f).1.1 = acc +:+ w /\
      forall ln' col' acc',
        (number_from w ln' col' acc' f).1 = (acc' +:+ w, (number_from s ln col acc f).1.2) /\
        source (number_from w ln' col' acc' f).2 = "".
Proof.
  induction s as [| c rest IH]; intros ln col acc f.
  - exists "". cbn [number_from fst snd source]. rewrite append_empty.
    split; [reflexivity |]. intros ln' col' acc'. rewrite append_empty. split; reflexivity.
  - cbn [number_from]. destruct (isdigit c || (c =? ".")%char) eqn:Hc.
    2:{ exists "". cbn [number_from fst snd source]. rewrite append_empty.
        split; [reflexivity |]. intros ln' col' acc'. rewrite append_empty.
        split; reflexivity. }
    destruct ((c =? ".")%char && f) eqn:Hdot.
    { exists "". cbn [number_from fst snd source]. rewrite append_empty.
      split; [reflexivity |]. intros ln' col' acc'. rewrite append_empty.
      split; reflexivity. }
    destruct (IH (nextLine c ln) (nextColumn c col) (push_back acc c) (f || (c =? ".")%char))
      as (w1 & H1 & Hre).
    exists (String c w1). split; [rewrite H1; apply push_back_append |].
    intros ln' col' acc'. cbn [number_from]. rewrite Hc, Hdot.
    destruct (Hre (nextLine c ln') (nextColumn c col') (push_back acc' c)) as [Hv Hsrc].
    rewrite Hv, push_back_append. split; [reflexivity | exact Hsrc].
Qed.

Lemma push_back_cons (w : string) (q : ascii) :
  exists c t, push_back w q = String c t.
Proof. destruct w as [| c t]; [exists q, "" | exists c, (push_back t q)]; reflexivity. Qed.

Lemma string_from_relex (n : nat) :
  forall s ln col acc, String.length s <= n ->
    exists w, (string_from s ln col acc).1 = acc +:+ w /\
      let q := currentChar (string_from s ln col acc).2 in
      hd_char (push_back w q) = hd_char s /\
      forall ln' col' acc',
        (string_from (push_back w q) ln' col' acc').1 = acc' +:+ w /\
        source (string_from (push_back w q) ln' col' acc').2 = String q "".
Proof.
  induction n as [| n IH]; intros s ln col acc Hlen.
  - destruct s; [| cbn in Hlen; lia]. exists "". cbn [string_from fst snd source].
    rewrite append_empty. split; [reflexivity |]. cbn zeta. split; [reflexivity |].
    intros ln' col' acc'. rewrite append_empty. split; reflexivity.
  - destruct s as [| c rest].
    { exists "". cbn [string_from fst snd source]. rewrite append_empty.
      split; [reflexivity |]. cbn zeta. split; [reflexivity |].
      intros ln' col' acc'. rewrite append_empty. split; reflexivity. }
    cbn [string_from]. destruct (negb (c =? dquote)%char && negb (c =? NUL)%char) eqn:Hc.
    2:{ exists "". cbn [fst snd]. rewrite append_empty. split; [reflexivity |].
        cbn zeta. unfold currentChar. cbn [source hd_char push_back].
        split; [reflexivity |]. intros ln' col' acc'. rewrite append_empty.
        change (push_back "" c) with (String c ""). cbn [string_from].
        rewrite Hc. split; reflexivity. }
    assert (forall ln1 col1,
              (hd_char rest =? dquote)%char && (c =? backslash)%char = false ->
              exists w,
                (string_from rest ln1 col1 (push_back acc c)).1 = acc +:+ w /\
                let q := currentChar (string_from rest ln1 col1 (push_back acc c)).2 in
                hd_char (push_back w q) = c /\
                forall ln' col' acc',
                  (string_from (push_back w q) ln' col' acc').1 = acc' +:+ w /\
                  source (string_from (push_back w q) ln' col' acc').2 = String q "")
      as Hplain.
    { intros ln1 col1 Hno.
      destruct (IH rest ln1 col1 (push_back acc c) ltac:(cbn in *; lia))
        as (w1 & H1 & Hhd & Hre). cbn zeta in Hhd, Hre.
      exists (String c w1). split; [rewrite H1; apply push_back_append |].
      cbn zeta. set (q := currentChar (string_from rest ln1 col1 (push_back acc c)).2) in *.
      change (push_back (String c w1) q) with (String c (push_back w1 q)).
      split; [reflexivity |]. intros ln' col' acc'. cbn [string_from]. rewrite Hc.
      destruct (push_back_cons w1 q) as (c2 & t & E). rewrite E in Hhd. cbn [hd_char] in Hhd.
      rewrite E. rewrite <- Hhd in Hno. rewrite andb_comm in Hno. rewrite Hno. rewrite <- E.
      destruct (Hre (nextLine c ln') (nextColumn c col') (push_back acc' c)) as [Hv Hsrc].
      rewrite Hv, push_back_append. split; [reflexivity | exact Hsrc]. }
    destruct rest as [| c2 rest2].
    + apply Hplain. reflexivity.
    + destruct ((c =? backslash)%char && (c2 =? dquote)%char) eqn:Hesc.
      * apply andb_true_iff in Hesc as [E1 E2].
        apply Ascii.eqb_eq in E1, E2. subst c c2.
        destruct (IH rest2 (nextLine dquote (nextLine backslash ln))
                    (nextColumn dquote (nextColumn backslash col))
                    (push_back (push_back acc backslash) dquote) ltac:(cbn in *; lia))
          as (w2 & H2 & _ & Hre). cbn zeta in Hre.
        exists (String backslash (String dquote w2)).
        split; [rewrite H2, !push_back_append; reflexivity |].
        cbn zeta.
        set (q := currentChar (string_from rest2 _ _ _).2) in *.
        change (push_back (String backslash (String dquote w2)) q)
          with (String backslash (String dquote (push_back w2 q))).
        split; [reflexivity |]. intros ln' col' acc'. cbn [string_from].
        replace (negb (backslash =? dquote)%char && negb (backslash =? NUL)%char)
          with true by reflexivity.
        replace ((backslash =? backslash)%char && (dquote =? dquote)%char)
          with true by reflexivity.
        destruct (Hre (nextLine dquote (nextLine backslash ln'))
                    (nextColumn dquote (nextColumn backslash col'))
                    (push_back (push_back acc' backslash) dquote)) as [Hv Hsrc].
        rewrite Hv, !push_back_append. split; [reflexivity | exact Hsrc].
      * apply Hplain. cbn [hd_char]. rewrite andb_comm. exact Hesc.
Qed.

Lemma relex_word (lx lx' : Lexer) (tok : Token) :
  isalpha (currentChar lx) || (currentChar lx =? "_")%char = true ->
  identifierOrKeyword lx = (tok, lx') ->
  exists tok' lx'',
    nextToken (setSource (tok_value tok)) = Ok (tok', lx'') /\
    tok_type tok' = tok_type tok /\ tok_value tok' = tok_value tok /\ source lx'' = "".
Proof.
  intros Ha E. destruct (isalpha_not_space _ Ha) as (Hsp & Hdig & Hslash).
  destruct (currentChar_source lx) as [rest Hsrc].
  { intros Hn. rewrite Hn in Ha. discriminate Ha. }
  set (c := currentChar lx) in *.
  assert (isalnum c || (c =? "_")%char = true) as Hc.
  { unfold isalnum. apply orb_true_iff in Ha as [Ha | Ha]; rewrite Ha;
      [reflexivity | apply orb_true_r]. }
  unfold identifierOrKeyword in E. rewrite Hsrc in E.
  assert (exists w, (identifier_from (String c rest) (line lx) (column lx) "").1 = String c w /\
            forall ln' col' acc',
              (identifier_from (String c w) ln' col' acc').1 = acc' +:+ String c w /\
              source (identifier_from (String c w) ln' col' acc').2 = "") as (w & Hv & Hre).
  { destruct (identifier_from_relex _ (String c rest) (line lx) (column lx) "" (le_n _))
      as (w & Hv & [r Hr] & Hre).
    rewrite append_nil_l in Hv. destruct w as [| c' w].
    - exfalso. revert Hv. cbn [identifier_from]. rewrite Hc.
      destruct (identifier_from_relex _ rest (nextLine c (line lx)) (nextColumn c (column lx))
                  (push_back "" c) (le_n _)) as (w1 & H1 & _).
      assert (forall rest2 ln2 col2,
                (identifier_from rest2 ln2 col2 (push_back "" c +:+ "::")).1 <> "") as H2.
      { intros rest2 ln2 col2.
        destruct (identifier_from_relex _ rest2 ln2 col2 (push_back "" c +:+ "::") (le_n _))
          as (w2 & H2 & _). rewrite H2. discriminate. }
      destruct rest as [| c1 [| c2 rest2]]; try (rewrite H1; discriminate).
      destruct (_ && _); [apply H2 | rewrite H1; discriminate].
    - rewrite append_cons in Hr. injection Hr as <- _. exists w. split; assumption. }
  destruct (identifier_from (String c rest) (line lx) (column lx) "") as [v lxa].
  cbn [fst] in Hv. subst v.
  exists (identifierOrKeyword (setSource (String c w))).1,
         (identifierOrKeyword (setSource (String c w))).2.
  assert (tok_value tok = String c w) as ->.
  { destruct (keywords (String c w)); injection E as <- _; reflexivity. }
  split.
  { unfold nextToken. rewrite (skip_nothing c w Hsp Hslash).
    unfold currentChar, setSource. cbn [source hd_char]. rewrite Hdig, Ha.
    rewrite <- surjective_pairing. reflexivity. }
  unfold identifierOrKeyword, setSource. cbn [source line column].
  destruct (Hre 1 1 "") as [Hv2 Hs2].
  destruct (identifier_from (String c w) 1 1 "") as [v2 lx2].
  cbn [fst snd] in Hv2, Hs2. rewrite append_nil_l in Hv2. subst v2.
  destruct (keywords (String c w)); injection E as <- _; cbn [fst snd tok_type tok_value];
    repeat split; assumption.
Qed.

Lemma relex_number (lx lx' : Lexer) (tok : Token) :
  isdigit (currentChar lx) = true ->
  number lx = (tok, lx') ->
  exists tok' lx'',
    nextToken (setSource (tok_value tok)) = Ok (tok', lx'') /\
    tok_type tok' = tok_type tok /\ tok_value tok' = tok_value tok /\ source lx'' = "".
Proof.
  intros Hd E. destruct (isdigit_not_space _ Hd) as [Hsp Hslash].
  destruct (currentChar_source lx (isdigit_not_NUL _ Hd)) as [rest Hsrc].
  set (c := currentChar lx) in *.
  unfold number in E. rewrite Hsrc in E. cbn [number_from] in E.
  rewrite Hd in E. cbn [orb andb] in E. rewrite andb_false_r in E.
  destruct (number_from_relex rest (nextLine c (line lx)) (nextColumn c (column lx))
              (push_back "" c) (false || (c =? ".")%char)) as (w & Hv & Hre).
  destruct (number_from rest _ _ _ _) as [[v f] lxa]. cbn [fst snd] in Hv, Hre.
  rewrite push_back_append, append_nil_l in Hv. subst v.
  exists (number (setSource (String c w))).1, (number (setSource (String c w))).2.
  assert (tok_value tok = String c w) as ->.
  { destruct f; injection E as <- _; reflexivity. }
  split.
  { unfold nextToken. rewrite (skip_nothing c w Hsp Hslash).
    unfold currentChar, setSource. cbn [source hd_char]. rewrite Hd.
    rewrite <- surjective_pairing. reflexivity. }
  unfold number, setSource. cbn [source line column number_from].
  rewrite Hd. cbn [orb andb]. rewrite andb_false_r.
  destruct (Hre (nextLine c 1) (nextColumn c 1) (push_back "" c)) as [Hv2 Hs2].
  destruct (number_from w _ _ _ _) as [[v2 f2] lx2].
  cbn [fst snd] in Hv2, Hs2. rewrite push_back_append, append_nil_l in Hv2.
  injection Hv2 as -> ->.
  destruct f; injection E as <- _; cbn [fst snd tok_type tok_value];
    repeat split; assumption.
Qed.

Lemma relex_string (lx lx' : Lexer) (tok : Token) :
  currentChar lx = dquote ->
  stringLiteral lx = (tok, lx') ->
  exists tok' lx'',
    nextToken (setSource (tok_value tok)) = Ok (tok', lx'') /\
    tok_type tok' = tok_type tok /\ tok_value tok' = tok_value tok /\ source lx'' = "".
Proof.
  intros Hq E.
  destruct (currentChar_source lx) as [rest Hsrc]; [rewrite Hq; discriminate |].
  rewrite Hq in Hsrc. unfold stringLiteral, advance in E. rewrite Hq, Hsrc in E.
  cbn [source line column] in E.
  destruct (string_from_relex _ rest (nextLine dquote (line lx))
              (nextColumn dquote (column lx)) (push_back "" dquote) (le_n _))
    as (w & Hv & _ & Hre). cbn zeta in Hre.
  destruct (string_from rest _ _ _) as [v lxa]. cbn [fst snd] in Hv, Hre. subst v.
  set (q := currentChar lxa) in *.
  assert (tok_value tok = String dquote (push_back w q)) as ->.
  { injection E as <- _. reflexivity. }
  exists (stringLiteral (setSource (String dquote (push_back w q)))).1,
         (stringLiteral (setSource (String dquote (push_back w q)))).2.
  split.
  { unfold nextToken. rewrite (skip_nothing dquote (push_back w q) eq_refl ltac:(discriminate)).
    rewrite <- surjective_pairing. reflexivity. }
  unfold stringLiteral, advance, setSource, currentChar at 1. cbn [source line column hd_char].
  destruct (Hre (nextLine dquote 1) (nextColumn dquote 1) (push_back "" dquote)) as [Hv2 Hs2].
  destruct (string_from (push_back w q) _ _ _) as [v2 lx2].
  cbn [fst snd] in Hv2, Hs2. subst v2. unfold currentChar. rewrite Hs2.
  cbn [hd_char fst snd tok_type tok_value source]. injection E as <- _.
  cbn [tok_type]. repeat split; reflexivity.
Qed.

Lemma relex_character (lx lx' : Lexer) (tok : Token) :
  currentChar lx = squote ->
  characterLiteral lx = Ok (tok, lx') ->
  tok_value tok <> String squote (String backslash (String squote "")) ->
  exists tok' lx'',
    nextToken (setSource (tok_value tok)) = Ok (tok', lx'') /\
    tok_type tok' = tok_type tok /\ tok_value tok' = tok_value tok /\ source lx'' = "".
Proof.
  intros Hq E Hne.
  destruct (currentChar_source lx) as [rest Hsrc]; [rewrite Hq; discriminate |].
  rewrite Hq in Hsrc. destruct lx as [src ln col]. cbn [source] in Hsrc. subst src.
  unfold characterLiteral, advance, currentChar, peekChar in E.
  cbn [source line column hd_char] in E.
  destruct rest as [| x [| y rest2]]; try discriminate E.
  - revert E. cbn [source hd_char]. destruct (_ && _); cbn; discriminate.
  - revert E. cbn [source hd_char].
    destruct ((x =? backslash)%char && (y =? squote)%char) eqn:Hesc.
    + cbn [source line column hd_char].
      destruct rest2 as [| z rest3]; [discriminate |]. cbn [source hd_char].
      destruct (z =? squote)%char eqn:Hz; [| discriminate].
      apply andb_true_iff in Hesc as [Hx _]. apply Ascii.eqb_eq in Hx, Hz. subst x z.
      cbn [negb]. intros E. injection E as <- _. exfalso. apply Hne. reflexivity.
    + cbn [source line column hd_char].
      destruct (y =? squote)%char eqn:Hy; [| discriminate].
      rewrite andb_true_r in Hesc. apply Ascii.eqb_eq in Hy. subst y.
      cbn [negb]. intros E. injection E as <- _. cbn [tok_value tok_type].
      change (push_back (push_back (push_back "" squote) x) squote)
        with (String squote (String x (String squote ""))).
      eexists _, _. split.
      { unfold nextToken.
        rewrite (skip_nothing squote (String x (String squote "")) eq_refl ltac:(discriminate)).
        unfold currentChar, setSource. cbn [source hd_char].
        replace (isdigit squote) with false by reflexivity.
        replace (isalpha squote || (squote =? "_")%char) with false by reflexivity.
        replace (squote =? dquote)%char with false by reflexivity.
        replace (squote =? squote)%char with true by reflexivity.
        unfold characterLiteral, advance, currentChar, peekChar.
        cbn [source line column hd_char]. rewrite Hesc.
        cbn [source line column hd_char].
        replace (squote =? squote)%char with true by reflexivity. cbn [negb].
        reflexivity. }
      cbn [tok_type tok_value source]. repeat split; reflexivity.
Qed.

Lemma nextToken_number_digit (lx lx' : Lexer) (tok : Token) :
  nextToken lx = Ok (tok, lx') ->
  tok_type tok = NumberLiteral \/ tok_type tok = FloatingPointLiteral ->
  isdigit (currentChar (skipComment (skipWhitespace lx))) = true.
Proof.
  intros H Hk. pose proof (nextToken_cases lx lx' tok H) as Hcases. cbn zeta in Hcases.
  set (lx1 := skipComment (skipWhitespace lx)) in *.
  destruct Hcases as [[Hd _] | Hother]; [exact Hd | exfalso].
  destruct Hother
    as [(Hd & Ha & E') | [[Hc E'] | [[Hc E'] | [(Ha & Ho & E') |
        [(Ha & Hs & -> & ->) | [(Hc & -> & ->) | (Ha & Hc & -> & ->)]]]]]];
    try (destruct Hk as [Hk | Hk]; discriminate Hk).
  - pose proof (identifierOrKeyword_type lx1) as Hid. cbn zeta in Hid.
    rewrite E' in Hid. cbn [fst] in Hid.
    destruct (keywords (tok_value tok)) as [k |] eqn:Hkw.
    + destruct (keywords_cases _ _ Hkw) as [Hin _]. rewrite <- Hid in Hin.
      cbn in Hin. destruct Hk as [Hk | Hk]; rewrite Hk in Hin; intuition discriminate.
    + destruct Hk as [Hk | Hk]; congruence.
  - pose proof (stringLiteral_type lx1) as Hs. rewrite E' in Hs. cbn [fst] in Hs.
    destruct Hk as [Hk | Hk]; congruence.
  - pose proof (characterLiteral_type _ _ _ E'). destruct Hk as [Hk | Hk]; congruence.
  - pose proof (operatorToken_type lx1) as Hs. rewrite E' in Hs. cbn [fst] in Hs.
    destruct Hk as [Hk | Hk]; congruence.
Qed.

(** X20. The lexeme of a word (identifier, keyword, [true], [false],
    [nullptr]), of a number, of a string literal, and of a character literal
    other than the three characters quote, backslash, quote, given to the
    lexer as a source text of its own, is lexed as one token of the same
    kind with the same lexeme, and nothing of the text is left. This holds
    for every state the token was read in, also for a string literal cut
    by the end of the text, whose lexeme ends with the NUL that
    [currentChar] returns there. *)
Theorem lexeme_round_trip (lx lx' : Lexer) (tok : Token) :
  nextToken lx = Ok (tok, lx') ->
  In (tok_type tok) [Identifier; Keyword; BooleanLiteral; NullLiteral; NumberLiteral;
                     FloatingPointLiteral; StringLiteral] \/
  (tok_type tok = CharacterLiteral /\
   tok_value tok <> String squote (String backslash (String squote ""))) ->
  exists tok' lx'',
    nextToken (setSource (tok_value tok)) = Ok (tok', lx'') /\
    tok_type tok' = tok_type tok /\ tok_value tok' = tok_value tok /\ source lx'' = "".
Proof.
  intros H Hkind. pose proof (nextToken_type lx lx' tok H) as Hty. cbn zeta in Hty.
  assert (tok_type tok = NumberLiteral \/ tok_type tok = FloatingPointLiteral ->
          isdigit (currentChar (skipComment (skipWhitespace lx))) = true) as Hdigit
    by exact (nextToken_number_digit lx lx' tok H).
  set (lx1 := skipComment (skipWhitespace lx)) in *.
  destruct Hkind as [Hin | [Hc Hne]].
  - cbn [In] in Hin.
    destruct Hin as [Hk | [Hk | [Hk | [Hk | [Hk | [Hk | [Hk | []]]]]]]];
      rewrite <- Hk in Hty.
    + destruct Hty as (E & Ha & _). exact (relex_word lx1 lx' tok Ha E).
    + destruct Hty as (E & Ha & _). exact (relex_word lx1 lx' tok Ha E).
    + destruct Hty as (E & Ha & _). exact (relex_word lx1 lx' tok Ha E).
    + destruct Hty as (E & Ha & _). exact (relex_word lx1 lx' tok Ha E).
    + apply (relex_number lx1 lx' tok); [| exact Hty]. apply Hdigit. left. symmetry. exact Hk.
    + apply (relex_number lx1 lx' tok); [| exact Hty]. apply Hdigit. right. symmetry. exact Hk.
    + destruct Hty as [E Hq]. exact (relex_string lx1 lx' tok Hq E).
  - rewrite Hc in Hty. destruct Hty as [E Hq]. exact (relex_character lx1 lx' tok Hq E Hne).
Qed.

Lemma lexeme_round_trip_witness :
  nextToken (mkLexer " std::string s;" 1 1)
    = Ok (mkToken Keyword "std::string" 1 2, mkLexer " s;" 1 13) /\
  exists tok' lx'',
    nextToken (setSource "std::string") = Ok (tok', lx'') /\
    tok_type tok' = Keyword /\ tok_value tok' = "std::string" /\ source lx'' = "".
Proof.
  split; [reflexivity |].
  exact (lexeme_round_trip (mkLexer " std::string s;" 1 1)
           (mkLexer " s;" 1 13) (mkToken Keyword "std::string" 1 2) eq_refl
           (or_introl (or_intror (or_introl eq_refl)))).
Defined.
